(** * LRremote: the infrared sampler, the protocol matchers and the button
      dispatcher of LRremote.cpp, embedded as functions on an explicit state.

    The sketch runs on an AVR: [int] and [unsigned int] are 16 bits wide,
    [long] and [unsigned long] 32 bits, [unsigned long long] 64 bits.  All
    machine integers are modelled as [Z] with the wrap-around of each
    conversion written out. *)

From stdpp Require Import base numbers list.
From Stdlib Require Import ZArith QArith Lia.
Open Scope Z_scope.

(** ** Machine integers *)

Definition uint (z : Z) : Z := z mod 2 ^ 16.
Definition int (z : Z) : Z := (z + 2 ^ 15) mod 2 ^ 16 - 2 ^ 15.
Definition ulong (z : Z) : Z := z mod 2 ^ 32.
Definition long (z : Z) : Z := (z + 2 ^ 31) mod 2 ^ 32 - 2 ^ 31.
Definition ulonglong (z : Z) : Z := z mod 2 ^ 64.

Definition INT_MAX : Z := 2 ^ 15 - 1.
Definition is_long (z : Z) : Prop := - 2 ^ 31 <= z < 2 ^ 31.

(** [data <<= 1] and [data = (data << 1) | 1] on a [long]. *)
Definition shl0 (data : Z) : Z := long (Z.shiftl data 1).
Definition shl1 (data : Z) : Z := long (Z.lor (Z.shiftl data 1) 1).

(** ** LRremote.h *)

Definition NEC : Z := 1.
Definition SONY : Z := 2.
Definition RC5 : Z := 3.
Definition RC6 : Z := 4.
Definition DISH : Z := 5.
Definition SHARP : Z := 6.
Definition PANASONIC : Z := 7.
Definition JVC : Z := 8.
Definition SANYO : Z := 9.
Definition MITSUBISHI : Z := 10.
Definition SAMSUNG : Z := 11.
Definition LG : Z := 12.
Definition UNKNOWN : Z := -1.

Definition RAWBUF : Z := 100.
Definition REPEAT : Z := 0xffffffff.
Definition REPEAT_PAUSE : Z := 3.
Definition MARK_EXCESS : Z := 100.

(** ** LRremoteInt.h

    The private header is not part of the sources at hand.  Its receiver
    levels and sampler states are enumerations here; its numeric macros are
    the fields of a record over which every function below is parametrised,
    so that the results hold for whatever values the header gives them. *)

Inductive level := MARK | SPACE.

Inductive rcvstate_t := STATE_IDLE | STATE_MARK | STATE_SPACE | STATE_STOP.

Definition level_eqb (a b : level) : bool :=
  match a, b with MARK, MARK | SPACE, SPACE => true | _, _ => false end.

Definition rcvstate_eqb (a b : rcvstate_t) : bool :=
  match a, b with
  | STATE_IDLE, STATE_IDLE | STATE_MARK, STATE_MARK
  | STATE_SPACE, STATE_SPACE | STATE_STOP, STATE_STOP => true
  | _, _ => false
  end.

Record LRremoteInt := {
  GAP_TICKS : Z;
  TICKS_LOW : Z -> Z;
  TICKS_HIGH : Z -> Z;
  NEC_HDR_MARK : Z; NEC_HDR_SPACE : Z; NEC_BIT_MARK : Z;
  NEC_ONE_SPACE : Z; NEC_ZERO_SPACE : Z; NEC_RPT_SPACE : Z; NEC_BITS : Z;
  SONY_HDR_MARK : Z; SONY_HDR_SPACE : Z; SONY_ONE_MARK : Z;
  SONY_ZERO_MARK : Z; SONY_DOUBLE_SPACE_USECS : Z; SONY_BITS : Z;
  SANYO_HDR_MARK : Z; SANYO_HDR_SPACE : Z; SANYO_ONE_MARK : Z;
  SANYO_ZERO_MARK : Z; SANYO_DOUBLE_SPACE_USECS : Z; SANYO_BITS : Z;
  MITSUBISHI_HDR_SPACE : Z; MITSUBISHI_ONE_MARK : Z;
  MITSUBISHI_ZERO_MARK : Z; MITSUBISHI_BITS : Z;
  RC5_T1 : Z; MIN_RC5_SAMPLES : Z;
  RC6_HDR_MARK : Z; RC6_HDR_SPACE : Z; RC6_T1 : Z; MIN_RC6_SAMPLES : Z;
  PANASONIC_HDR_MARK : Z; PANASONIC_HDR_SPACE : Z; PANASONIC_BIT_MARK : Z;
  PANASONIC_ONE_SPACE : Z; PANASONIC_ZERO_SPACE : Z; PANASONIC_BITS : Z;
  LG_HDR_MARK : Z; LG_HDR_SPACE : Z; LG_BIT_MARK : Z;
  LG_ONE_SPACE : Z; LG_ZERO_SPACE : Z; LG_BITS : Z;
  JVC_HDR_MARK : Z; JVC_HDR_SPACE : Z; JVC_BIT_MARK : Z;
  JVC_ONE_SPACE : Z; JVC_ZERO_SPACE : Z; JVC_BITS : Z;
  SAMSUNG_HDR_MARK : Z; SAMSUNG_HDR_SPACE : Z; SAMSUNG_BIT_MARK : Z;
  SAMSUNG_ONE_SPACE : Z; SAMSUNG_ZERO_SPACE : Z; SAMSUNG_RPT_SPACE : Z;
  SAMSUNG_BITS : Z
}.

(** ** The state: the sampler's globals and the object's fields *)

Record state := mkState {
  rcvstate : rcvstate_t;        (* volatile int rcvstate *)
  timer : Z;                    (* volatile unsigned int timer *)
  rawbuf : list Z;              (* volatile unsigned int rawbuf[RAWBUF] *)
  rawlen : Z;                   (* volatile unsigned int rawlen *)
  decode_type : Z;              (* int decode_type *)
  panasonicAddress : Z;         (* unsigned int panasonicAddress *)
  value : Z;                    (* unsigned long value *)
  bits : Z;                     (* int bits *)
  lastValue : Z;                (* long lastValue *)
  repeat : Z                    (* int repeat *)
}.

Definition set_rcvstate (v : rcvstate_t) (s : state) : state :=
  mkState v (timer s) (rawbuf s) (rawlen s) (decode_type s)
    (panasonicAddress s) (value s) (bits s) (lastValue s) (repeat s).
Definition set_timer (v : Z) (s : state) : state :=
  mkState (rcvstate s) v (rawbuf s) (rawlen s) (decode_type s)
    (panasonicAddress s) (value s) (bits s) (lastValue s) (repeat s).
Definition set_rawbuf (v : list Z) (s : state) : state :=
  mkState (rcvstate s) (timer s) v (rawlen s) (decode_type s)
    (panasonicAddress s) (value s) (bits s) (lastValue s) (repeat s).
Definition set_rawlen (v : Z) (s : state) : state :=
  mkState (rcvstate s) (timer s) (rawbuf s) v (decode_type s)
    (panasonicAddress s) (value s) (bits s) (lastValue s) (repeat s).
Definition set_decode_type (v : Z) (s : state) : state :=
  mkState (rcvstate s) (timer s) (rawbuf s) (rawlen s) v
    (panasonicAddress s) (value s) (bits s) (lastValue s) (repeat s).
Definition set_panasonicAddress (v : Z) (s : state) : state :=
  mkState (rcvstate s) (timer s) (rawbuf s) (rawlen s) (decode_type s)
    v (value s) (bits s) (lastValue s) (repeat s).
Definition set_value (v : Z) (s : state) : state :=
  mkState (rcvstate s) (timer s) (rawbuf s) (rawlen s) (decode_type s)
    (panasonicAddress s) v (bits s) (lastValue s) (repeat s).
Definition set_bits (v : Z) (s : state) : state :=
  mkState (rcvstate s) (timer s) (rawbuf s) (rawlen s) (decode_type s)
    (panasonicAddress s) (value s) v (lastValue s) (repeat s).
Definition set_lastValue (v : Z) (s : state) : state :=
  mkState (rcvstate s) (timer s) (rawbuf s) (rawlen s) (decode_type s)
    (panasonicAddress s) (value s) (bits s) v (repeat s).
Definition set_repeat (v : Z) (s : state) : state :=
  mkState (rcvstate s) (timer s) (rawbuf s) (rawlen s) (decode_type s)
    (panasonicAddress s) (value s) (bits s) (lastValue s) v.

(** [buf[i]] for an index inside the array.  The array has [RAWBUF] cells;
    a read outside it has no meaning in C++ and yields 0 here. *)
Definition at_ (buf : list Z) (i : Z) : Z := default 0 (buf !! Z.to_nat i).

(** The state right after the constructor: the sampler idles on an empty
    buffer and the debounce fields are cleared. *)
Definition constructed (s : state) : Prop :=
  rcvstate s = STATE_IDLE /\ rawlen s = 0 /\ Z.of_nat (length (rawbuf s)) = RAWBUF /\
  lastValue s = 0 /\ repeat s = 0.

(** ** The sampler: ISR(TIMER_INTR_NAME) and resume() *)

Section Sampler.
Variable K : LRremoteInt.

(** [rawbuf[rawlen++] = timer; timer = 0; rcvstate = next;] together with
    the index the store goes to. *)
Definition record_duration (next : rcvstate_t) (s : state) : state * list Z :=
  let i := rawlen s in
  let s := set_rawlen (uint (i + 1)) s in
  let s := set_rawbuf (<[Z.to_nat i := timer s]> (rawbuf s)) s in
  (set_rcvstate next (set_timer 0 s), [i]).

(** One timer interrupt with the receiver level [irdata].  The second
    component lists the indices of [rawbuf] written during the interrupt. *)
Definition ISR (irdata : level) (s : state) : state * list Z :=
  let s := set_timer (uint (timer s + 1)) s in
  let s := if RAWBUF <=? rawlen s then set_rcvstate STATE_STOP s else s in
  match rcvstate s with
  | STATE_IDLE =>
      if level_eqb irdata MARK then
        if timer s <? GAP_TICKS K then (set_timer 0 s, [])
        else record_duration STATE_MARK (set_rawlen 0 s)
      else if GAP_TICKS K <? timer s then (set_timer (GAP_TICKS K) s, [])
      else (s, [])
  | STATE_MARK =>
      if level_eqb irdata SPACE then record_duration STATE_SPACE s
      else (s, [])
  | STATE_SPACE =>
      if level_eqb irdata MARK then record_duration STATE_MARK s
      else if GAP_TICKS K <=? timer s then (set_rcvstate STATE_STOP s, [])
      else (s, [])
  | STATE_STOP => (set_timer 0 s, [])
  end.

Definition resume (s : state) : state :=
  set_rcvstate STATE_IDLE (set_rawlen 0 s).

(** The sampler fed one level per tick. *)
Definition run (irdata : list level) (s : state) : state :=
  fold_left (fun s l => fst (ISR l s)) irdata s.

(** What the sampler and the foreground's [resume] can reach from a freshly
    constructed object.  The interrupt may fall between the two stores of
    [resume]; the state in between is reachable too. *)
Inductive reachable : state -> Prop :=
| reach_init s : constructed s -> reachable s
| reach_tick irdata s : reachable s -> reachable (fst (ISR irdata s))
| reach_resume_rawlen s : reachable s -> reachable (set_rawlen 0 s)
| reach_resume s : reachable s -> reachable (resume s).

End Sampler.

(** ** Tolerance matching: MATCH, MATCH_MARK, MATCH_SPACE *)

(** What a loop of a matcher hands back: it ran into [return false], or it
    fell out of the loop with its locals, or the recursion of the model was
    given too few steps (shown below never to happen). *)
Inductive loop_result :=
| Return_false
| Falls_out (a b : Z)
| Out_of_fuel.

Section Matchers.
Variable K : LRremoteInt.

(** [int MATCH(int measured, int desired)]: the buffer cell is converted to
    the [int] parameter. *)
Definition MATCH (measured desired : Z) : bool :=
  let measured := int measured in
  (TICKS_LOW K desired <=? measured) && (measured <=? TICKS_HIGH K desired).
Definition MATCH_MARK (measured_ticks desired_us : Z) : bool :=
  MATCH measured_ticks (desired_us + MARK_EXCESS).
Definition MATCH_SPACE (measured_ticks desired_us : Z) : bool :=
  MATCH measured_ticks (desired_us - MARK_EXCESS).

(** *** Loops shared by the matchers

    The bit loop of decodeNEC, decodePanasonic, decodeLG, decodeJVC and
    decodeSAMSUNG is the same text up to the timing constants and the width
    of [data]: a bit mark, then a space whose length tells one from zero. *)
Fixpoint space_coded_bits (bit_mark one_space zero_space : Z) (one zero : Z -> Z)
    (buf : list Z) (n : nat) (offset data : Z) : option (Z * Z) :=
  match n with
  | O => Some (offset, data)
  | S n =>
      if negb (MATCH_MARK (at_ buf offset) bit_mark) then None
      else
        let offset := offset + 1 in
        if MATCH_SPACE (at_ buf offset) one_space then
          space_coded_bits bit_mark one_space zero_space one zero buf n (offset + 1) (one data)
        else if MATCH_SPACE (at_ buf offset) zero_space then
          space_coded_bits bit_mark one_space zero_space one zero buf n (offset + 1) (zero data)
        else None
  end.

(** The [while (offset + 1 < rawlen)] loop of decodeSony and decodeSanyo: a
    header space (else [break]), then a mark whose length is the bit. *)
Fixpoint mark_coded_bits (hdr_space one_mark zero_mark : Z)
    (buf : list Z) (len : Z) (fuel : nat) (offset data : Z) : loop_result :=
  if offset + 1 <? len then
    match fuel with
    | O => Out_of_fuel
    | S fuel =>
        if negb (MATCH_SPACE (at_ buf offset) hdr_space) then Falls_out offset data
        else
          let offset := offset + 1 in
          if MATCH_MARK (at_ buf offset) one_mark then
            mark_coded_bits hdr_space one_mark zero_mark buf len fuel (offset + 1) (shl1 data)
          else if MATCH_MARK (at_ buf offset) zero_mark then
            mark_coded_bits hdr_space one_mark zero_mark buf len fuel (offset + 1) (shl0 data)
          else Return_false
    end
  else Falls_out offset data.

(** The loop of decodeMitsubishi: the mark first, then the space that ends
    the loop when it does not match. *)
Fixpoint mitsubishi_bits (buf : list Z) (len : Z) (fuel : nat) (offset data : Z)
    : loop_result :=
  if offset + 1 <? len then
    match fuel with
    | O => Out_of_fuel
    | S fuel =>
        let step (data : Z) :=
          let offset := offset + 1 in
          if negb (MATCH_SPACE (at_ buf offset) (MITSUBISHI_HDR_SPACE K))
          then Falls_out offset data
          else mitsubishi_bits buf len fuel (offset + 1) data in
        if MATCH_MARK (at_ buf offset) (MITSUBISHI_ONE_MARK K) then step (shl1 data)
        else if MATCH_MARK (at_ buf offset) (MITSUBISHI_ZERO_MARK K) then step (shl0 data)
        else Return_false
    end
  else Falls_out offset data.

(** *** decodeNEC *)
Definition decodeNEC (s : state) : bool * state :=
  let buf := rawbuf s in
  let offset := 1 in
  if negb (MATCH_MARK (at_ buf offset) (NEC_HDR_MARK K)) then (false, s)
  else
    let offset := offset + 1 in
    if (rawlen s =? 4)
       && MATCH_SPACE (at_ buf offset) (NEC_RPT_SPACE K)
       && MATCH_MARK (at_ buf (offset + 1)) (NEC_BIT_MARK K)
    then (true, set_decode_type NEC (set_value REPEAT (set_bits 0 s)))
    else if rawlen s <? 2 * NEC_BITS K + 4 then (false, s)
    else if negb (MATCH_SPACE (at_ buf offset) (NEC_HDR_SPACE K)) then (false, s)
    else
      let offset := offset + 1 in
      match space_coded_bits (NEC_BIT_MARK K) (NEC_ONE_SPACE K) (NEC_ZERO_SPACE K)
              shl1 shl0 buf (Z.to_nat (NEC_BITS K)) offset 0 with
      | None => (false, s)
      | Some (_, data) =>
          (true, set_decode_type NEC (set_value (ulong data) (set_bits (NEC_BITS K) s)))
      end.

(** *** decodeSony *)
Definition decodeSony (s : state) : bool * state :=
  let buf := rawbuf s in
  if rawlen s <? 2 * SONY_BITS K + 2 then (false, s)
  else
    let offset := 0 in
    if at_ buf offset <? SONY_DOUBLE_SPACE_USECS K then
      (true, set_decode_type SANYO (set_value REPEAT (set_bits 0 s)))
    else
      let offset := offset + 1 in
      if negb (MATCH_MARK (at_ buf offset) (SONY_HDR_MARK K)) then (false, s)
      else
        let offset := offset + 1 in
        match mark_coded_bits (SONY_HDR_SPACE K) (SONY_ONE_MARK K) (SONY_ZERO_MARK K)
                buf (rawlen s) (Z.to_nat (rawlen s)) offset 0 with
        | Return_false => (false, s)
        | Out_of_fuel => (false, s)
        | Falls_out offset data =>
            let s := set_bits (Z.quot (offset - 1) 2) s in
            if bits s <? 12 then (false, set_bits 0 s)
            else (true, set_decode_type SONY (set_value (ulong data) s))
        end.

(** *** decodeSanyo *)
Definition decodeSanyo (s : state) : bool * state :=
  let buf := rawbuf s in
  if rawlen s <? 2 * SANYO_BITS K + 2 then (false, s)
  else
    let offset := 0 in
    if at_ buf offset <? SANYO_DOUBLE_SPACE_USECS K then
      (true, set_decode_type SANYO (set_value REPEAT (set_bits 0 s)))
    else
      let offset := offset + 1 in
      if negb (MATCH_MARK (at_ buf offset) (SANYO_HDR_MARK K)) then (false, s)
      else
        let offset := offset + 1 in
        if negb (MATCH_MARK (at_ buf offset) (SANYO_HDR_MARK K)) then (false, s)
        else
          let offset := offset + 1 in
          match mark_coded_bits (SANYO_HDR_SPACE K) (SANYO_ONE_MARK K) (SANYO_ZERO_MARK K)
                  buf (rawlen s) (Z.to_nat (rawlen s)) offset 0 with
          | Return_false => (false, s)
          | Out_of_fuel => (false, s)
          | Falls_out offset data =>
              let s := set_bits (Z.quot (offset - 1) 2) s in
              if bits s <? 12 then (false, set_bits 0 s)
              else (true, set_decode_type SANYO (set_value (ulong data) s))
          end.

(** *** decodeMitsubishi *)
Definition decodeMitsubishi (s : state) : bool * state :=
  let buf := rawbuf s in
  if rawlen s <? 2 * MITSUBISHI_BITS K + 2 then (false, s)
  else
    let offset := 0 in
    let offset := offset + 1 in
    if negb (MATCH_MARK (at_ buf offset) (MITSUBISHI_HDR_SPACE K)) then (false, s)
    else
      let offset := offset + 1 in
      match mitsubishi_bits buf (rawlen s) (Z.to_nat (rawlen s)) offset 0 with
      | Return_false => (false, s)
      | Out_of_fuel => (false, s)
      | Falls_out offset data =>
          let s := set_bits (Z.quot (offset - 1) 2) s in
          if bits s <? MITSUBISHI_BITS K then (false, set_bits 0 s)
          else (true, set_decode_type MITSUBISHI (set_value (ulong data) s))
      end.

(** *** getRClevel

    The [int] result is [MARK], [SPACE] or -1; the model returns
    [Some MARK], [Some SPACE] or [None], together with the updated
    [*offset] and [*used]. *)
Definition getRClevel (buf : list Z) (len : Z) (offset used t1 : Z)
    : option level * Z * Z :=
  if len <=? offset then (Some SPACE, offset, used)
  else
    let width := int (at_ buf offset) in
    let val := if Z.rem offset 2 =? 0 then SPACE else MARK in
    let correction := if level_eqb val MARK then MARK_EXCESS else - MARK_EXCESS in
    let avail :=
      if MATCH width (t1 + correction) then Some 1
      else if MATCH width (2 * t1 + correction) then Some 2
      else if MATCH width (3 * t1 + correction) then Some 3
      else None in
    match avail with
    | None => (None, offset, used)
    | Some avail =>
        let used := used + 1 in
        if avail <=? used then (Some val, offset + 1, 0)
        else (Some val, offset, used)
    end.

Definition olevel_eqb (a b : option level) : bool :=
  match a, b with
  | Some a, Some b => level_eqb a b
  | None, None => true
  | _, _ => false
  end.

(** *** decodeRC5 *)
Fixpoint rc5_bits (buf : list Z) (len : Z) (fuel : nat) (offset used nbits data : Z)
    : loop_result :=
  if offset <? len then
    match fuel with
    | O => Out_of_fuel
    | S fuel =>
        let '(levelA, offset, used) := getRClevel buf len offset used (RC5_T1 K) in
        let '(levelB, offset, used) := getRClevel buf len offset used (RC5_T1 K) in
        match levelA, levelB with
        | Some SPACE, Some MARK => rc5_bits buf len fuel offset used (nbits + 1) (shl1 data)
        | Some MARK, Some SPACE => rc5_bits buf len fuel offset used (nbits + 1) (shl0 data)
        | _, _ => Return_false
        end
    end
  else Falls_out nbits data.

Definition decodeRC5 (s : state) : bool * state :=
  let buf := rawbuf s in
  let len := rawlen s in
  if len <? MIN_RC5_SAMPLES K + 2 then (false, s)
  else
    let '(l1, offset, used) := getRClevel buf len 1 0 (RC5_T1 K) in
    if negb (olevel_eqb l1 (Some MARK)) then (false, s)
    else
      let '(l2, offset, used) := getRClevel buf len offset used (RC5_T1 K) in
      if negb (olevel_eqb l2 (Some SPACE)) then (false, s)
      else
        let '(l3, offset, used) := getRClevel buf len offset used (RC5_T1 K) in
        if negb (olevel_eqb l3 (Some MARK)) then (false, s)
        else
          match rc5_bits buf len (3 * Z.to_nat len) offset used 0 0 with
          | Return_false => (false, s)
          | Out_of_fuel => (false, s)
          | Falls_out nbits data =>
              (true, set_decode_type RC5 (set_value (ulong data) (set_bits nbits s)))
          end.

(** *** decodeRC6 *)
Fixpoint rc6_bits (buf : list Z) (len : Z) (fuel : nat) (offset used nbits data : Z)
    : loop_result :=
  if offset <? len then
    match fuel with
    | O => Out_of_fuel
    | S fuel =>
        let '(levelA, offset, used) := getRClevel buf len offset used (RC6_T1 K) in
        let '(okA, offset, used) :=
          if nbits =? 3 then
            let '(l, offset, used) := getRClevel buf len offset used (RC6_T1 K) in
            (olevel_eqb levelA l, offset, used)
          else (true, offset, used) in
        if negb okA then Return_false
        else
          let '(levelB, offset, used) := getRClevel buf len offset used (RC6_T1 K) in
          let '(okB, offset, used) :=
            if nbits =? 3 then
              let '(l, offset, used) := getRClevel buf len offset used (RC6_T1 K) in
              (olevel_eqb levelB l, offset, used)
            else (true, offset, used) in
          if negb okB then Return_false
          else
            match levelA, levelB with
            | Some MARK, Some SPACE =>
                rc6_bits buf len fuel offset used (nbits + 1) (shl1 data)
            | Some SPACE, Some MARK =>
                rc6_bits buf len fuel offset used (nbits + 1) (shl0 data)
            | _, _ => Return_false
            end
    end
  else Falls_out nbits data.

Definition decodeRC6 (s : state) : bool * state :=
  let buf := rawbuf s in
  let len := rawlen s in
  if len <? MIN_RC6_SAMPLES K then (false, s)
  else
    let offset := 1 in
    if negb (MATCH_MARK (at_ buf offset) (RC6_HDR_MARK K)) then (false, s)
    else
      let offset := offset + 1 in
      if negb (MATCH_SPACE (at_ buf offset) (RC6_HDR_SPACE K)) then (false, s)
      else
        let offset := offset + 1 in
        let '(l1, offset, used) := getRClevel buf len offset 0 (RC6_T1 K) in
        if negb (olevel_eqb l1 (Some MARK)) then (false, s)
        else
          let '(l2, offset, used) := getRClevel buf len offset used (RC6_T1 K) in
          if negb (olevel_eqb l2 (Some SPACE)) then (false, s)
          else
            match rc6_bits buf len (3 * Z.to_nat len) offset used 0 0 with
            | Return_false => (false, s)
            | Out_of_fuel => (false, s)
            | Falls_out nbits data =>
                (true, set_decode_type RC6 (set_value (ulong data) (set_bits nbits s)))
            end.

(** *** decodePanasonic: [data] is an [unsigned long long] *)
Definition shl0_ull (data : Z) : Z := ulonglong (Z.shiftl data 1).
Definition shl1_ull (data : Z) : Z := ulonglong (Z.lor (Z.shiftl data 1) 1).

Definition decodePanasonic (s : state) : bool * state :=
  let buf := rawbuf s in
  let offset := 1 in
  if negb (MATCH_MARK (at_ buf offset) (PANASONIC_HDR_MARK K)) then (false, s)
  else
    let offset := offset + 1 in
    if negb (MATCH_MARK (at_ buf offset) (PANASONIC_HDR_SPACE K)) then (false, s)
    else
      let offset := offset + 1 in
      match space_coded_bits (PANASONIC_BIT_MARK K) (PANASONIC_ONE_SPACE K)
              (PANASONIC_ZERO_SPACE K) shl1_ull shl0_ull buf
              (Z.to_nat (PANASONIC_BITS K)) offset 0 with
      | None => (false, s)
      | Some (_, data) =>
          (true, set_bits (PANASONIC_BITS K) (set_decode_type PANASONIC
                   (set_panasonicAddress (uint (Z.shiftr data 32))
                      (set_value (ulong data) s))))
      end.

(** *** decodeLG *)
Definition decodeLG (s : state) : bool * state :=
  let buf := rawbuf s in
  let offset := 1 in
  if negb (MATCH_MARK (at_ buf offset) (LG_HDR_MARK K)) then (false, s)
  else
    let offset := offset + 1 in
    if rawlen s <? 2 * LG_BITS K + 1 then (false, s)
    else if negb (MATCH_SPACE (at_ buf offset) (LG_HDR_SPACE K)) then (false, s)
    else
      let offset := offset + 1 in
      match space_coded_bits (LG_BIT_MARK K) (LG_ONE_SPACE K) (LG_ZERO_SPACE K)
              shl1 shl0 buf (Z.to_nat (LG_BITS K)) offset 0 with
      | None => (false, s)
      | Some (offset, data) =>
          if negb (MATCH_MARK (at_ buf offset) (LG_BIT_MARK K)) then (false, s)
          else (true, set_decode_type LG (set_value (ulong data) (set_bits (LG_BITS K) s)))
      end.

(** *** decodeJVC *)
Definition decodeJVC (s : state) : bool * state :=
  let buf := rawbuf s in
  let offset := 1 in
  if (uint (rawlen s - 1) =? 33)
     && MATCH_MARK (at_ buf offset) (JVC_BIT_MARK K)
     && MATCH_MARK (at_ buf (uint (rawlen s - 1))) (JVC_BIT_MARK K)
  then (true, set_decode_type JVC (set_value REPEAT (set_bits 0 s)))
  else if negb (MATCH_MARK (at_ buf offset) (JVC_HDR_MARK K)) then (false, s)
  else
    let offset := offset + 1 in
    if rawlen s <? 2 * JVC_BITS K + 1 then (false, s)
    else if negb (MATCH_SPACE (at_ buf offset) (JVC_HDR_SPACE K)) then (false, s)
    else
      let offset := offset + 1 in
      match space_coded_bits (JVC_BIT_MARK K) (JVC_ONE_SPACE K) (JVC_ZERO_SPACE K)
              shl1 shl0 buf (Z.to_nat (JVC_BITS K)) offset 0 with
      | None => (false, s)
      | Some (offset, data) =>
          if negb (MATCH_MARK (at_ buf offset) (JVC_BIT_MARK K)) then (false, s)
          else (true, set_decode_type JVC (set_value (ulong data) (set_bits (JVC_BITS K) s)))
      end.

(** *** decodeSAMSUNG *)
Definition decodeSAMSUNG (s : state) : bool * state :=
  let buf := rawbuf s in
  let offset := 1 in
  if negb (MATCH_MARK (at_ buf offset) (SAMSUNG_HDR_MARK K)) then (false, s)
  else
    let offset := offset + 1 in
    if (rawlen s =? 4)
       && MATCH_SPACE (at_ buf offset) (SAMSUNG_RPT_SPACE K)
       && MATCH_MARK (at_ buf (offset + 1)) (SAMSUNG_BIT_MARK K)
    then (true, set_decode_type SAMSUNG (set_value REPEAT (set_bits 0 s)))
    else if rawlen s <? 2 * SAMSUNG_BITS K + 4 then (false, s)
    else if negb (MATCH_SPACE (at_ buf offset) (SAMSUNG_HDR_SPACE K)) then (false, s)
    else
      let offset := offset + 1 in
      match space_coded_bits (SAMSUNG_BIT_MARK K) (SAMSUNG_ONE_SPACE K)
              (SAMSUNG_ZERO_SPACE K) shl1 shl0 buf (Z.to_nat (SAMSUNG_BITS K)) offset 0 with
      | None => (false, s)
      | Some (_, data) =>
          (true, set_decode_type SAMSUNG
                   (set_value (ulong data) (set_bits (SAMSUNG_BITS K) s)))
      end.

(** *** compare and decodeHash

    [newval < oldval * .8] is a floating-point comparison of two 16-bit
    counts.  The product differs from the exact four fifths of [oldval] by
    less than 0.004 (the error of the constant and one rounding, on values
    below 65536), and is exactly that integer when four fifths of [oldval]
    is one; an integer [newval] is therefore below the product exactly when
    [10 * newval < 8 * oldval].  The comparison is modelled by the latter. *)
Definition compare (oldval newval : Z) : Z :=
  if 10 * newval <? 8 * oldval then 0
  else if 10 * oldval <? 8 * newval then 2
  else 1.

Definition FNV_PRIME_32 : Z := 16777619.
Definition FNV_BASIS_32 : Z := 2166136261.

(** [hash = (hash * FNV_PRIME_32) ^ value] on a [long]. *)
Definition hash_step (buf : list Z) (hash i : Z) : Z :=
  let value := compare (at_ buf i) (at_ buf (i + 2)) in
  Z.lxor (long (hash * FNV_PRIME_32)) value.

Definition decodeHash (s : state) : bool * state :=
  if rawlen s <? 6 then (false, s)
  else
    (* for (int i = 1; i+2 < rawlen; i++) *)
    let hash := fold_left (hash_step (rawbuf s)) (seqZ 1 (rawlen s - 3))
                  (long FNV_BASIS_32) in
    (true, set_decode_type UNKNOWN (set_bits 32 (set_value (ulong hash) s))).

(** *** decode: the matchers in the order they are tried *)
Definition matchers : list (state -> bool * state) :=
  [ decodeNEC; decodeSony; decodeSanyo; decodeMitsubishi; decodeRC5; decodeRC6;
    decodePanasonic; decodeLG; decodeJVC; decodeSAMSUNG; decodeHash ].

(** [if (m1()) return true; if (m2()) return true; ...] *)
Fixpoint first_success (ms : list (state -> bool * state)) (s : state) : bool * state :=
  match ms with
  | [] => (false, s)
  | m :: ms =>
      let '(ok, s) := m s in
      if ok then (true, s) else first_success ms s
  end.

Definition decode (s : state) : bool * state :=
  if negb (rcvstate_eqb (rcvstate s) STATE_STOP) then (false, s)
  else
    let '(ok, s) := first_success matchers s in
    if ok then (true, s) else (false, resume s).

(** *** onButton

    [code] is the array of [long] codes, [codeCount] its length.  The third
    component of the result lists the indices [keyIx] whose button function
    [fButton[keyIx]] was invoked, in order. *)
Fixpoint find_code (p : Z -> bool) (code : list Z) (keyIx : Z) : Z :=
  match code with
  | [] => keyIx
  | c :: code => if p c then keyIx else find_code p code (keyIx + 1)
  end.

Definition onButton (code : list Z) (s : state) : bool * state * list Z :=
  let codeCount := Z.of_nat (length code) in
  let '(ok, s) := decode s in
  if ok then
    let keyIx := find_code (fun c => value s =? ulong c) code 0 in
    let s := if keyIx <? codeCount
             then set_lastValue (long (value s)) (set_repeat 0 s) else s in
    let invoke (keyIx : Z) (s : state) : bool * state * list Z :=
      if keyIx <? codeCount then (true, resume s, [keyIx])
      else (false, resume s, []) in
    if (codeCount <=? keyIx) && (value s =? REPEAT) then
      let s := set_repeat (int (repeat s + 1)) s in
      if repeat s <? REPEAT_PAUSE then (false, resume s, [])
      else invoke (find_code (fun c => lastValue s =? c) code 0) s
    else invoke keyIx s
  else (false, s, []).

End Matchers.

(** ** Polling while the sampler keeps capturing

    Between two calls of onButton the interrupt routine rewrites its own
    globals and nothing else.  A [capture] is what it has left there by the
    time of the next call. *)
Record capture := {
  c_rcvstate : rcvstate_t;
  c_timer : Z;
  c_rawbuf : list Z;
  c_rawlen : Z
}.

Definition captured (c : capture) (s : state) : state :=
  set_rcvstate (c_rcvstate c) (set_timer (c_timer c)
    (set_rawbuf (c_rawbuf c) (set_rawlen (c_rawlen c) s))).

(** One call of onButton per capture: for each call, whether it reported a
    button as handled and which button functions it invoked. *)
Fixpoint polls (K : LRremoteInt) (code : list Z) (cs : list capture) (s : state)
    : list (bool * list Z) * state :=
  match cs with
  | [] => ([], s)
  | c :: cs =>
      let '(handled, s, invoked) := onButton K code (captured c s) in
      let '(rest, s) := polls K code cs s in
      ((handled, invoked) :: rest, s)
  end.

(** The capture makes decode produce [v], whatever the object's fields are. *)
Definition decodes_to (K : LRremoteInt) (c : capture) (v : Z) : Prop :=
  forall s, fst (decode K (captured c s)) = true /\
            value (snd (decode K (captured c s))) = v.

(** ** A header to run the matchers with *)

(** Modelled from the spec: the tick of LRremoteInt.h, which is missing from
    the sources; 50 microseconds. *)
Definition USECPERTICK : Z := 50.

(** Modelled from the spec: the lower edge, in ticks, of the band of 20
    percent around a duration in microseconds (the TICKS_LOW macro of the
    missing LRremoteInt.h), truncated as the conversion to [int] does. *)
Definition spec_TICKS_LOW (us : Z) : Z := Z.quot (us * 80) (100 * USECPERTICK).

(** Modelled from the spec: the upper edge of the same band (the TICKS_HIGH
    macro of the missing LRremoteInt.h), one tick above the truncated
    quotient. *)
Definition spec_TICKS_HIGH (us : Z) : Z :=
  Z.quot (us * 120 + 100 * USECPERTICK) (100 * USECPERTICK).

(** Modelled from the spec: the macros of the missing LRremoteInt.h.  The
    Protocol-A timings (9000, 4500, 560, 560 and 1690 microseconds, 32 bits)
    and the minimum of 12 bits of the Sony and Sanyo shapes are the spec's.
    The spec leaves the other nominal timings to the published protocol
    descriptions; they are given here as the library this code derives from
    lists them. *)
Definition refInt : LRremoteInt := {|
  GAP_TICKS := 5000 / USECPERTICK;
  TICKS_LOW := spec_TICKS_LOW;
  TICKS_HIGH := spec_TICKS_HIGH;
  NEC_HDR_MARK := 9000; NEC_HDR_SPACE := 4500; NEC_BIT_MARK := 560;
  NEC_ONE_SPACE := 1690; NEC_ZERO_SPACE := 560; NEC_RPT_SPACE := 2250; NEC_BITS := 32;
  SONY_HDR_MARK := 2400; SONY_HDR_SPACE := 600; SONY_ONE_MARK := 1200;
  SONY_ZERO_MARK := 600; SONY_DOUBLE_SPACE_USECS := 500; SONY_BITS := 12;
  SANYO_HDR_MARK := 3500; SANYO_HDR_SPACE := 950; SANYO_ONE_MARK := 2400;
  SANYO_ZERO_MARK := 700; SANYO_DOUBLE_SPACE_USECS := 800; SANYO_BITS := 12;
  MITSUBISHI_HDR_SPACE := 350; MITSUBISHI_ONE_MARK := 1950;
  MITSUBISHI_ZERO_MARK := 750; MITSUBISHI_BITS := 16;
  RC5_T1 := 889; MIN_RC5_SAMPLES := 11;
  RC6_HDR_MARK := 2666; RC6_HDR_SPACE := 889; RC6_T1 := 444; MIN_RC6_SAMPLES := 1;
  PANASONIC_HDR_MARK := 3502; PANASONIC_HDR_SPACE := 1750; PANASONIC_BIT_MARK := 502;
  PANASONIC_ONE_SPACE := 1244; PANASONIC_ZERO_SPACE := 400; PANASONIC_BITS := 48;
  LG_HDR_MARK := 8000; LG_HDR_SPACE := 4000; LG_BIT_MARK := 600;
  LG_ONE_SPACE := 1600; LG_ZERO_SPACE := 550; LG_BITS := 28;
  JVC_HDR_MARK := 8000; JVC_HDR_SPACE := 4000; JVC_BIT_MARK := 600;
  JVC_ONE_SPACE := 1600; JVC_ZERO_SPACE := 550; JVC_BITS := 16;
  SAMSUNG_HDR_MARK := 5000; SAMSUNG_HDR_SPACE := 5000; SAMSUNG_BIT_MARK := 560;
  SAMSUNG_ONE_SPACE := 1600; SAMSUNG_ZERO_SPACE := 560; SAMSUNG_RPT_SPACE := 2250;
  SAMSUNG_BITS := 32
|}.

(** ** Statements of the behaviour to be checked *)

(** *** Protocol-A frames *)

(** One payload bit: the bit mark, then the short or the long space. *)
Definition nec_bit (bit_mark zero_space one_space : Z) (b : bool) : list Z :=
  [bit_mark; if b then one_space else zero_space].

(** The cells of a frame: the gap before it, the header mark, the header
    space, and the payload bits in transmission order. *)
Definition nec_frame (gap hdr_mark hdr_space bit_mark zero_space one_space : Z)
    (payload : list bool) : list Z :=
  gap :: hdr_mark :: hdr_space :: flat_map (nec_bit bit_mark zero_space one_space) payload.

(** The value of a bit pattern read most significant bit first. *)
Definition msb_first (payload : list bool) : Z :=
  fold_left (fun acc (b : bool) => 2 * acc + Z.b2z b) payload 0.

(** The nominal durations of the spec in whole ticks. *)
Definition ticks (us : Z) : Z := us / USECPERTICK.
Definition canonical_nec_frame (gap : Z) (payload : list bool) : list Z :=
  nec_frame gap (ticks 9000) (ticks 4500) (ticks 560) (ticks 560) (ticks 1690) payload.

(** The header puts the nominal durations inside their bands and keeps the
    short space out of the band of the long one. *)
Definition accepts_canonical_nec (K : LRremoteInt) : Prop :=
  NEC_BITS K = 32 /\
  MATCH_MARK K (ticks 9000) (NEC_HDR_MARK K) = true /\
  MATCH_SPACE K (ticks 4500) (NEC_HDR_SPACE K) = true /\
  MATCH_MARK K (ticks 560) (NEC_BIT_MARK K) = true /\
  MATCH_SPACE K (ticks 1690) (NEC_ONE_SPACE K) = true /\
  MATCH_SPACE K (ticks 560) (NEC_ZERO_SPACE K) = true /\
  MATCH_SPACE K (ticks 560) (NEC_ONE_SPACE K) = false.

(** The outcome a Protocol-A frame with payload [payload] should have. *)
Definition decodes_as_nec (K : LRremoteInt) (s : state) (payload : list bool) : Prop :=
  fst (decode K s) = true /\
  decode_type (snd (decode K s)) = NEC /\
  bits (snd (decode K s)) = 32 /\
  value (snd (decode K s)) = msb_first payload.

(** *** The hash of an unrecognised frame, as the spec words it *)

(** The three classes of a comparison. *)
Inductive class := Shorter | Equal | Longer.

(** The class of the newer duration against the older one as the spec
    words it, in exact rational arithmetic: shorter if the newer is less
    than 0.8 times the older, longer if the older is less than 0.8 times
    the newer, else equal.  This definition follows the spec and not the
    code; [compare_spec] below compares it with the code's [compare]. *)
Definition spec_class (older newer : Z) : class :=
  if Qlt_le_dec (inject_Z newer) ((8 # 10) * inject_Z older) then Shorter
  else if Qlt_le_dec (inject_Z older) ((8 # 10) * inject_Z newer) then Longer
  else Equal.

(** The number that stands for a class in the hash: 0 for shorter, 1 for
    equal, 2 for longer. *)
Definition class_code (c : class) : Z :=
  match c with Shorter => 0 | Equal => 1 | Longer => 2 end.

(** The class of each cell against the cell two places before it, from
    position 1 while position + 2 is below [len]. *)
Definition classes (buf : list Z) (len : Z) : list Z :=
  map (fun i => class_code (spec_class (at_ buf i) (at_ buf (i + 2)))) (seqZ 1 (len - 3)).

(** FNV-1 on 32 bits: multiply by the prime, then exclusive-or the datum. *)
Definition fnv_step (h c : Z) : Z := Z.lxor ((h * FNV_PRIME_32) mod 2 ^ 32) c.
Definition fnv1 (data : list Z) : Z := fold_left fnv_step data FNV_BASIS_32.

(** The inverse of the prime modulo 2^32. *)
Definition FNV_PRIME_INV : Z := 899433627.

(** Two class sequences that differ in exactly one place. *)
Definition single_flip (cs cs' : list Z) : Prop :=
  exists pre c c' post,
    cs = pre ++ c :: post /\ cs' = pre ++ c' :: post /\ c <> c'.

Definition protocol_matchers (K : LRremoteInt) : list (state -> bool * state) :=
  [ decodeNEC K; decodeSony K; decodeSanyo K; decodeMitsubishi K; decodeRC5 K;
    decodeRC6 K; decodePanasonic K; decodeLG K; decodeJVC K; decodeSAMSUNG K ].

Definition all_protocols_fail (K : LRremoteInt) (s : state) : Prop :=
  Forall (fun m : state -> bool * state => fst (m s) = false) (protocol_matchers K).

(** What no matcher touches: the sampler's globals and the debounce state. *)
Definition keeps (s s' : state) : Prop :=
  rcvstate s' = rcvstate s /\ timer s' = timer s /\ rawbuf s' = rawbuf s /\
  rawlen s' = rawlen s /\ lastValue s' = lastValue s /\ repeat s' = repeat s.

(** *** Rejections for too few bits

    The one path on which decodeSony, decodeSanyo and decodeMitsubishi
    return failure behind their bit loop: the length guard, the gap test
    and the header tests have passed, the loop has been left at [offset] by
    its condition or by its [break], and (offset - 1) / 2 is below the
    number of bits the matcher asks for. *)
Definition sony_too_few_bits (K : LRremoteInt) (s : state) : Prop :=
  2 * SONY_BITS K + 2 <= rawlen s /\
  SONY_DOUBLE_SPACE_USECS K <= at_ (rawbuf s) 0 /\
  MATCH_MARK K (at_ (rawbuf s) 1) (SONY_HDR_MARK K) = true /\
  exists offset data,
    mark_coded_bits K (SONY_HDR_SPACE K) (SONY_ONE_MARK K) (SONY_ZERO_MARK K)
      (rawbuf s) (rawlen s) (Z.to_nat (rawlen s)) 2 0 = Falls_out offset data /\
    Z.quot (offset - 1) 2 < 12.

Definition sanyo_too_few_bits (K : LRremoteInt) (s : state) : Prop :=
  2 * SANYO_BITS K + 2 <= rawlen s /\
  SANYO_DOUBLE_SPACE_USECS K <= at_ (rawbuf s) 0 /\
  MATCH_MARK K (at_ (rawbuf s) 1) (SANYO_HDR_MARK K) = true /\
  MATCH_MARK K (at_ (rawbuf s) 2) (SANYO_HDR_MARK K) = true /\
  exists offset data,
    mark_coded_bits K (SANYO_HDR_SPACE K) (SANYO_ONE_MARK K) (SANYO_ZERO_MARK K)
      (rawbuf s) (rawlen s) (Z.to_nat (rawlen s)) 3 0 = Falls_out offset data /\
    Z.quot (offset - 1) 2 < 12.

Definition mitsubishi_too_few_bits (K : LRremoteInt) (s : state) : Prop :=
  2 * MITSUBISHI_BITS K + 2 <= rawlen s /\
  MATCH_MARK K (at_ (rawbuf s) 1) (MITSUBISHI_HDR_SPACE K) = true /\
  exists offset data,
    mitsubishi_bits K (rawbuf s) (rawlen s) (Z.to_nat (rawlen s)) 2 0
      = Falls_out offset data /\
    Z.quot (offset - 1) 2 < MITSUBISHI_BITS K.

(** The matcher [m] is one of the three and rejects [s] on that path. *)
Definition too_few_bits (K : LRremoteInt) (m : state -> bool * state) (s : state) : Prop :=
  (m = decodeSony K /\ sony_too_few_bits K s) \/
  (m = decodeSanyo K /\ sanyo_too_few_bits K s) \/
  (m = decodeMitsubishi K /\ mitsubishi_too_few_bits K s).

(** *** Short frames *)

(** The four-cell repeat shape tested by decodeNEC and by decodeSAMSUNG. *)
Definition nec_repeat_shape (K : LRremoteInt) (s : state) : bool :=
  MATCH_MARK K (at_ (rawbuf s) 1) (NEC_HDR_MARK K)
  && (rawlen s =? 4)
  && MATCH_SPACE K (at_ (rawbuf s) 2) (NEC_RPT_SPACE K)
  && MATCH_MARK K (at_ (rawbuf s) 3) (NEC_BIT_MARK K).

Definition samsung_repeat_shape (K : LRremoteInt) (s : state) : bool :=
  MATCH_MARK K (at_ (rawbuf s) 1) (SAMSUNG_HDR_MARK K)
  && (rawlen s =? 4)
  && MATCH_SPACE K (at_ (rawbuf s) 2) (SAMSUNG_RPT_SPACE K)
  && MATCH_MARK K (at_ (rawbuf s) 3) (SAMSUNG_BIT_MARK K).

(** The length guards of the matchers all lie at 6 cells or above. *)
Definition guards_exclude_short (K : LRremoteInt) : Prop :=
  6 <= 2 * NEC_BITS K + 4 /\ 6 <= 2 * SONY_BITS K + 2 /\
  6 <= 2 * SANYO_BITS K + 2 /\ 6 <= 2 * MITSUBISHI_BITS K + 2 /\
  6 <= MIN_RC5_SAMPLES K + 2 /\ 6 <= 2 * LG_BITS K + 1 /\
  6 <= 2 * JVC_BITS K + 1 /\ 6 <= 2 * SAMSUNG_BITS K + 4.

(** *** The sampler under an input that changes level at every tick *)

Definition other (l : level) : level :=
  match l with MARK => SPACE | SPACE => MARK end.

(** The level that ends the pulse being timed in state [st]. *)
Definition awaited (st : rcvstate_t) : level :=
  match st with STATE_MARK => SPACE | _ => MARK end.

Fixpoint toggling (n : nat) (l : level) : list level :=
  match n with
  | O => []
  | S n => l :: toggling n (other l)
  end.

(** The invariant of the sampler. *)
Definition sampler_inv (s : state) : Prop :=
  0 <= rawlen s <= RAWBUF /\ Z.of_nat (length (rawbuf s)) = RAWBUF.

(** ** Concrete states *)

Definition pad (cells : list Z) : list Z := take 100 (cells ++ replicate 100 0).

(** A stopped sampler over an all-zero buffer; the object still holds the
    7 bits of some earlier code. *)
Definition blank : state :=
  mkState STATE_STOP 0 (replicate 100 0) 0 0 0 0 7 0 0.

(** A freshly constructed object. *)
Definition fresh : state :=
  mkState STATE_IDLE 0 (replicate 100 0) 0 0 0 0 0 0 0.

Definition with_frame (cells : list Z) (len : Z) (s : state) : state :=
  set_rawlen len (set_rawbuf (pad cells) s).

(** The receiver levels of a train of pulses, one level per tick, the
    first pulse at level [l]. *)
Fixpoint pulses (durations : list Z) (l : level) : list level :=
  match durations with
  | [] => []
  | d :: durations => replicate (Z.to_nat d) l ++ pulses durations (other l)
  end.

(** The [n] low bits of [v], most significant first. *)
Definition bits_of (n : nat) (v : Z) : list bool :=
  map (fun i => Z.testbit v (Z.of_nat (n - 1 - i))) (seq 0 n).

(** The sampler after a gap of 100 idle ticks and the first active tick. *)
Definition started : state := run refInt (replicate 100 SPACE ++ [MARK]) fresh.

(** The payload 0x20DF10EF. *)
Definition payload_ex : list bool :=
  [ false; false; true; false;  false; false; false; false;
    true; true; false; true;    true; true; true; true;
    false; false; false; true;  false; false; false; false;
    true; true; true; false;    true; true; true; true ].

(** The canonical frame of [payload_ex] and nothing after it: 67 cells. *)
Definition nec_exact : state :=
  with_frame (canonical_nec_frame 100 payload_ex) 67 blank.

(** The same frame followed by the closing mark of a transmission: 68 cells. *)
Definition nec_closed : state :=
  with_frame (canonical_nec_frame 100 payload_ex ++ [ticks 560]) 68 blank.

(** What the sampler holds after a gap and the three pulses of a
    Protocol-A repeat frame: 4 entries, and STATE_STOP. *)
Definition nec_repeat : state :=
  run refInt (replicate 100 SPACE ++ pulses [180; 45; 11] MARK ++ replicate 101 SPACE)
    fresh.

(** What the sampler holds after a gap, a blip of three active ticks and
    another gap: the two entries 101 and 3, and STATE_STOP. *)
Definition blip : state :=
  run refInt (replicate 100 SPACE ++ replicate 3 MARK ++ replicate 101 SPACE) fresh.

(** 26 cells after a long gap: a Sony header mark, then a cell that is not
    a Sony header space. *)
Definition sony_cut : state := with_frame [600; 48; 100] 26 blank.

(** Six cells of equal pulses, and the same with the last pulse doubled. *)
Definition even6 : state := with_frame [100; 20; 20; 20; 20; 20] 6 blank.
Definition last_doubled6 : state := with_frame [100; 20; 20; 20; 20; 40] 6 blank.

(** Six cells whose third pulse is exactly 0.8 times the first and whose
    last pulse is half the one two places before it. *)
Definition last_halved6 : state := with_frame [100; 25; 20; 20; 20; 10] 6 blank.

(** A Sony transmission of 12 bits (0xA90) in ticks, and the sampler's
    state once it has captured it after a gap: 26 entries, the first of
    them the 101 ticks of the gap. *)
Definition sony_pulses : list Z :=
  50 :: flat_map (fun b : bool => [10; if b then 26 else 14]) (bits_of 12 0xA90).
Definition sony_capture : state :=
  run refInt (replicate 100 SPACE ++ pulses sony_pulses MARK ++ replicate 101 SPACE) fresh.

(** A Panasonic transmission in ticks: header, 48 bits (address 0x4004,
    data 0x0100BCBD), closing mark. *)
Definition panasonic_pulses : list Z :=
  72 :: 37 :: flat_map (nec_bit 12 6 22) (bits_of 48 0x40040100BCBD) ++ [12].

(** The sampler's state after the whole transmission has been captured,
    the foreground has resumed, and the start of the same transmission has
    come again but broken off after five pulses: 6 entries are valid, the
    cells from index 6 on are those of the first capture. *)
Definition panasonic_stale : state :=
  run refInt (replicate 100 SPACE ++ pulses (take 5 panasonic_pulses) MARK
              ++ replicate 101 SPACE)
    (resume
       (run refInt (replicate 100 SPACE ++ pulses panasonic_pulses MARK
                    ++ replicate 101 SPACE) fresh)).

(** Captures for the dispatcher: a button and the repeat frame after it. *)
Definition button_capture : capture :=
  {| c_rcvstate := STATE_STOP; c_timer := 0;
     c_rawbuf := pad (canonical_nec_frame 100 payload_ex ++ [ticks 560]);
     c_rawlen := 68 |}.
Definition repeat_capture : capture :=
  {| c_rcvstate := STATE_STOP; c_timer := 0;
     c_rawbuf := pad [100; 180; 45; 11]; c_rawlen := 4 |}.

(** The codes of a sketch with two buttons. *)
Definition code_ex : list Z := [0x20DF906F; 0x20DF10EF].

(** No code of the sketch is the repeat value. *)
Definition repeat_unmapped (code : list Z) : Prop :=
  forall x, In x code -> ulong x <> REPEAT.

(** The second button has just been captured; and the state once it has
    been dispatched and three repeat frames have followed. *)
Definition pressed : state := captured button_capture fresh.

(** ** More about the sampler *)

(** The state [s] with the sampler's four globals set. *)
Definition sampling (st : rcvstate_t) (t : Z) (buf : list Z) (n : Z) (s : state) : state :=
  captured {| c_rcvstate := st; c_timer := t; c_rawbuf := buf; c_rawlen := n |} s.

(** The state in which a pulse of level [l] is timed. *)
Definition timing (l : level) : rcvstate_t :=
  match l with MARK => STATE_MARK | SPACE => STATE_SPACE end.

(** The ticks that end each pulse of a train: what is left of the pulse
    after its first tick, then the first tick of the next level. *)
Fixpoint pulse_ends (durations : list Z) (l : level) : list level :=
  match durations with
  | [] => []
  | d :: durations =>
      replicate (Z.to_nat (d - 1)) l ++ other l :: pulse_ends durations (other l)
  end.

(** A duration the sampler can record: at least one tick, inside an
    [unsigned int], and for a space not beyond the gap threshold. *)
Definition fits (K : LRremoteInt) (l : level) (d : Z) : Prop :=
  1 <= d < 2 ^ 16 /\ (l = SPACE -> d <= GAP_TICKS K).

Fixpoint all_fit (K : LRremoteInt) (durations : list Z) (l : level) : Prop :=
  match durations with
  | [] => True
  | d :: durations => fits K l d /\ all_fit K durations (other l)
  end.

(** The level that follows a train of pulses starting at level [l]. *)
Fixpoint next_level (durations : list Z) (l : level) : level :=
  match durations with
  | [] => l
  | _ :: durations => next_level durations (other l)
  end.

(** What the receiver shows for a transmission: [g] idle ticks, the pulses
    (the first one active), and an idle stretch that reaches the gap
    threshold. *)
Definition transmission (K : LRremoteInt) (g : Z) (durations : list Z) : list level :=
  replicate (Z.to_nat g) SPACE ++ pulses durations MARK
    ++ replicate (Z.to_nat (GAP_TICKS K + 1)) SPACE.

(** Idle stretches, each followed by a burst of active ticks. *)
Definition bursts (stretches : list (Z * Z)) : list level :=
  flat_map (fun gm : Z * Z =>
              replicate (Z.to_nat (fst gm)) SPACE ++ replicate (Z.to_nat (snd gm)) MARK)
    stretches.



(** ** Frames of the other protocols *)

(** One bit coded in the mark: the space, then the short or the long mark. *)
Definition mark_bit (space zero_mark one_mark : Z) (b : bool) : list Z :=
  [space; if b then one_mark else zero_mark].

(** One bit as decodeMitsubishi reads it: the short or the long cell, then
    the separating cell. *)
Definition mitsubishi_bit (zero_mark one_mark space : Z) (b : bool) : list Z :=
  [if b then one_mark else zero_mark; space].

(** The sampler waits for a transmission. *)
Definition waiting (K : LRremoteInt) (s : state) : Prop :=
  rcvstate s = STATE_IDLE /\ rawlen s = 0 /\ 0 <= timer s <= GAP_TICKS K /\
  Z.of_nat (length (rawbuf s)) = RAWBUF.

(** The measured durations lie inside the bands of the header's Protocol-A
    constants, and the short space outside the band of the long one. *)
Definition nec_timing (K : LRremoteInt) (hm hs bm s0 s1 : Z) : Prop :=
  MATCH_MARK K hm (NEC_HDR_MARK K) = true /\
  MATCH_SPACE K hs (NEC_HDR_SPACE K) = true /\
  MATCH_MARK K bm (NEC_BIT_MARK K) = true /\
  MATCH_SPACE K s1 (NEC_ONE_SPACE K) = true /\
  MATCH_SPACE K s0 (NEC_ZERO_SPACE K) = true /\
  MATCH_SPACE K s0 (NEC_ONE_SPACE K) = false.

(** The pulses of a Protocol-A transmission: header mark and space, the
    bits, the closing mark. *)
Definition nec_pulses (hm hs bm s0 s1 : Z) (payload : list bool) : list Z :=
  hm :: hs :: flat_map (nec_bit bm s0 s1) payload ++ [bm].

(** The tags a matcher stores. *)
Definition decoded_tags : list Z :=
  [NEC; SONY; SANYO; MITSUBISHI; RC5; RC6; PANASONIC; LG; JVC; SAMSUNG; UNKNOWN].

(** ** Frames of RC5 and RC6 *)

(** The level getRClevel gives the cell at [offset]. *)
Definition level_at (offset : Z) : level :=
  if Z.rem offset 2 =? 0 then SPACE else MARK.

(** For how many half-bits of length [t1] getRClevel takes a cell of level
    [l] and width [w]. *)
Definition rc_avail (K : LRremoteInt) (t1 : Z) (l : level) (w : Z) : option Z :=
  let width := int w in
  let correction := if level_eqb l MARK then MARK_EXCESS else - MARK_EXCESS in
  if MATCH K width (t1 + correction) then Some 1
  else if MATCH K width (2 * t1 + correction) then Some 2
  else if MATCH K width (3 * t1 + correction) then Some 3
  else None.

(** The cells [ws], the first of level [l], are taken for runs of [rs]
    half-bits. *)
Fixpoint rc_cells (K : LRremoteInt) (t1 : Z) (l : level) (rs ws : list Z) : Prop :=
  match rs, ws with
  | [], [] => True
  | r :: rs, w :: ws => rc_avail K t1 l w = Some r /\ rc_cells K t1 (other l) rs ws
  | _, _ => False
  end.

(** The cursor of getRClevel stands at [offset] and [used], and the
    half-bits it will give from there on are [hs]: what is left of the
    cells below [len], then idle half-bits. *)
Definition reading (K : LRremoteInt) (t1 : Z) (buf : list Z) (len offset used : Z)
    (hs : list level) : Prop :=
  exists pre rs ws rest (n : nat),
    buf = pre ++ ws ++ rest /\ offset = Z.of_nat (length pre) /\
    len = offset + Z.of_nat (length ws) /\
    rc_cells K t1 (level_at offset) rs ws /\
    0 <= used /\ (used = 0 \/ exists r rs', rs = r :: rs' /\ used < r) /\
    hs = drop (Z.to_nat used) (pulses rs (level_at offset)) ++ replicate n SPACE.

(** The two half-bits of a bit of RC5, and of RC6, whose fourth bit has
    double length. *)
Definition rc5_halves (b : bool) : list level :=
  if b then [SPACE; MARK] else [MARK; SPACE].

Definition rc6_halves (nbits : Z) (b : bool) : list level :=
  if nbits =? 3
  then (if b then [MARK; MARK; SPACE; SPACE] else [SPACE; SPACE; MARK; MARK])
  else (if b then [MARK; SPACE] else [SPACE; MARK]).

Fixpoint rc6_stream (nbits : Z) (payload : list bool) : list level :=
  match payload with
  | [] => []
  | b :: payload => rc6_halves nbits b ++ rc6_stream (nbits + 1) payload
  end.

(** ** Concrete frames of the other protocols

    Durations in ticks of 50 microseconds, inside the bands [refInt] gives
    them. *)

Definition samsung_frame : state :=
  with_frame (nec_frame 100 100 100 12 10 32 payload_ex ++ [12]) 68 blank.

Definition lg_payload : list bool := bits_of 28 0x20DF10E.
Definition lg_frame : state :=
  with_frame (nec_frame 100 160 80 12 10 32 lg_payload ++ [12]) 60 blank.

Definition jvc_payload : list bool := bits_of 16 0xC5E8.
Definition jvc_frame : state :=
  with_frame (nec_frame 100 160 80 12 10 32 jvc_payload ++ [12]) 36 blank.

Definition panasonic_payload : list bool := bits_of 48 0x40040100BCBD.
Definition panasonic_frame : state :=
  with_frame (nec_frame 100 72 37 12 6 22 panasonic_payload ++ [12]) 100 blank.

(** Twelve bits behind a first cell of 600, which is not below
    SONY_DOUBLE_SPACE_USECS, and the like for Sanyo. *)
Definition sony_payload : list bool := bits_of 12 0xA90.
Definition sony_frame : state :=
  with_frame (600 :: 50 :: flat_map (mark_bit 10 14 26) sony_payload) 26 blank.
Definition sanyo_frame : state :=
  with_frame (900 :: 70 :: 70 :: flat_map (mark_bit 17 16 50) sony_payload) 27 blank.

Definition mitsubishi_payload : list bool := bits_of 16 0xE240.
Definition mitsubishi_frame : state :=
  with_frame (100 :: 9 :: flat_map (mitsubishi_bit 16 40 6) mitsubishi_payload) 34 blank.

(** The twelve bits 0x8A6 behind the start bits of RC5: the runs of
    half-bits and the cells that hold them; the last half-bit is idle and
    lost in the closing gap. *)
Definition rc5_payload : list bool := bits_of 12 0x8A6.
Definition rc5_runs : list Z :=
  [1; 1; 1; 1; 2; 1; 1; 1; 1; 2; 2; 2; 2; 1; 1; 2; 1; 1; 2].
Definition rc5_cells : list Z :=
  [19; 16; 19; 16; 37; 16; 19; 16; 19; 34; 37; 34; 37; 16; 19; 34; 19; 16; 37].
Definition rc5_frame : state := with_frame (100 :: rc5_cells) 20 blank.

(** Twenty bits of RC6 (mode 0, trailer 0, 0x800F) behind the header and
    the start bit. *)
Definition rc6_payload : list bool := bits_of 20 0x0800F.
Definition rc6_runs : list Z :=
  [1; 2; 1; 1; 1; 1; 1; 2; 3; 2; 1; 1; 1; 1; 1; 1; 1; 1; 1; 1; 1; 1; 1; 1; 1; 1; 1;
   1; 1; 1; 2; 1; 1; 1; 1; 1; 1].
Definition rc6_cells : list Z :=
  [9; 16; 9; 7; 9; 7; 9; 16; 27; 16; 9; 7; 9; 7; 9; 7; 9; 7; 9; 7; 9; 7; 9; 7; 9; 7; 9;
   7; 9; 7; 18; 7; 9; 7; 9; 7; 9].
Definition rc6_frame : state := with_frame (100 :: 53 :: 16 :: rc6_cells) 40 blank.

(** The pulses of the Protocol-A frame of [payload_ex], in ticks. *)
Definition nec_pulses_ex : list Z := nec_pulses 180 90 11 11 33 payload_ex.

(** A train of 99 pulses of 10 ticks each, one entry short of the buffer
    with the gap before it. *)
Definition long_train : list Z := replicate 99 10.

(** A buffer of six cells, and one with its cells from index 1 on tripled
    and the rest changed. *)
Definition six_cells : state := with_frame [100; 20; 20; 40; 20; 20] 6 blank.
Definition six_cells_tripled : state := with_frame [7; 60; 60; 120; 60; 60; 9] 6 blank.

(** A sketch with the repeat value as its second and as its fourth code,
    and one with the first button only. *)
Definition code_with_repeat : list Z := [0x20DF906F; -1; 0x20DF10EF; -1].
Definition code_first : list Z := [0x20DF906F].

(** The object after the first button has been held past the pause. *)
Definition first_held : state := set_lastValue 0x20DF906F (set_repeat 3 fresh).

(** ** Proof steps used more than once *)

(** Unfold whichever matcher the goal is about. *)
Ltac unfold_matchers :=
  unfold decodeNEC, decodeSony, decodeSanyo, decodeMitsubishi, decodeRC5, decodeRC6,
    decodePanasonic, decodeLG, decodeJVC, decodeSAMSUNG, decodeHash.

(** One goal per matcher of the chain. *)
Ltac each_matcher H :=
  unfold matchers in H; simpl in H;
  repeat (destruct H as [<- | H]); try contradiction.

(** Take the branch of a length guard that the hypotheses force. *)
Ltac length_guard :=
  match goal with
  | |- context [?a <? ?b] => destruct (Z.ltb_spec a b); [|lia]
  end.

(** * Properties *)

(** ** Machine integers *)

Lemma uint_small z : 0 <= z < 2 ^ 16 -> uint z = z.
Proof. intros H. unfold uint. apply Z.mod_small. exact H. Qed.

Lemma int_small z : - 2 ^ 15 <= z < 2 ^ 15 -> int z = z.
Proof. intros H. unfold int. rewrite Z.mod_small by lia. lia. Qed.

Lemma long_congr x : exists q, long x = x - 2 ^ 32 * q.
Proof.
  unfold long. exists ((x + 2 ^ 31) / 2 ^ 32).
  rewrite Z.mod_eq by lia. lia.
Qed.

Lemma ulong_long x : ulong (long x) = ulong x.
Proof.
  destruct (long_congr x) as [q ->]. unfold ulong.
  replace (x - 2 ^ 32 * q) with (x + (- q) * 2 ^ 32) by lia.
  apply Z_mod_plus_full.
Qed.

Lemma long_ulong c : is_long c -> long (ulong c) = c.
Proof.
  unfold is_long, long, ulong. intros H.
  rewrite Zplus_mod_idemp_l, Z.mod_small by lia. lia.
Qed.

Lemma shiftl1 d : Z.shiftl d 1 = 2 * d.
Proof. rewrite Z.shiftl_mul_pow2 by lia. lia. Qed.

Lemma lor1 d : Z.lor (Z.shiftl d 1) 1 = 2 * d + 1.
Proof.
  rewrite shiftl1.
  pose proof (Z.add_lor_land (2 * d) 1) as H.
  assert (Z.land (2 * d) 1 = 0) as E.
  { change 1 with (Z.ones 1). rewrite Z.land_ones by lia.
    change (2 ^ 1) with 2. rewrite Z.mul_comm. apply Z_mod_mult. }
  lia.
Qed.

Lemma mod_lin m k a b : (k * (a mod m) + b) mod m = (k * a + b) mod m.
Proof.
  rewrite <- (Zplus_mod_idemp_l (k * (a mod m))), Zmult_mod_idemp_r, Zplus_mod_idemp_l.
  reflexivity.
Qed.

Lemma ulong_shl (b : bool) d :
  ulong (if b then shl1 d else shl0 d) = (2 * ulong d + Z.b2z b) mod 2 ^ 32.
Proof.
  unfold shl1, shl0. destruct b; rewrite ulong_long; rewrite ?lor1, ?shiftl1;
    unfold ulong; simpl Z.b2z; rewrite mod_lin; f_equal; lia.
Qed.

Lemma small_high_bits c i : 0 <= c < 2 ^ 32 -> 32 <= i -> Z.testbit c i = false.
Proof.
  intros Hc Hi. rewrite <- (Z.mod_small c (2 ^ 32)) by exact Hc.
  apply Z.mod_pow2_bits_high. lia.
Qed.

Lemma lxor_mod a c :
  0 <= c < 2 ^ 32 -> Z.lxor a c mod 2 ^ 32 = Z.lxor (a mod 2 ^ 32) c.
Proof.
  intros Hc. apply Z.bits_inj'. intros i Hi.
  rewrite Z.testbit_mod_pow2, !Z.lxor_spec, Z.testbit_mod_pow2 by lia.
  destruct (Z.ltb_spec i 32) as [Hlt|Hge]; simpl; [reflexivity|].
  rewrite (small_high_bits c i Hc Hge). reflexivity.
Qed.

Lemma lxor_range x c : 0 <= x < 2 ^ 32 -> 0 <= c < 2 ^ 32 -> 0 <= Z.lxor x c < 2 ^ 32.
Proof.
  intros Hx Hc. rewrite <- (Z.mod_small x (2 ^ 32)) by exact Hx.
  rewrite <- lxor_mod by exact Hc. apply Z.mod_pos_bound. lia.
Qed.

Lemma lxor_cancel x c c' : Z.lxor x c = Z.lxor x c' -> c = c'.
Proof.
  intros H. apply (f_equal (Z.lxor x)) in H.
  rewrite <- !Z.lxor_assoc, Z.lxor_nilpotent, !Z.lxor_0_l in H. exact H.
Qed.

Lemma lxor_cancel_r x x' c : Z.lxor x c = Z.lxor x' c -> x = x'.
Proof. rewrite !(Z.lxor_comm _ c). apply lxor_cancel. Qed.

Lemma at_app_r pre x rest : at_ (pre ++ x :: rest) (Z.of_nat (length pre)) = x.
Proof.
  unfold at_. rewrite Nat2Z.id, lookup_app_r by lia.
  rewrite Nat.sub_diag. reflexivity.
Qed.

(** ** The sampler *)

Section SamplerFacts.
Variable K : LRremoteInt.

Lemma record_duration_inv next s :
  sampler_inv s -> rawlen s < RAWBUF ->
  sampler_inv (fst (record_duration next s)) /\
  snd (record_duration next s) = [rawlen s] /\
  rawlen (fst (record_duration next s)) = rawlen s + 1 /\
  rcvstate (fst (record_duration next s)) = next.
Proof.
  intros [Hlen Hbuf] Hlt. unfold record_duration, sampler_inv, RAWBUF in *. simpl.
  rewrite length_insert, uint_small by lia. repeat split; lia.
Qed.

Lemma ISR_inv irdata s : sampler_inv s -> sampler_inv (fst (ISR K irdata s)).
Proof.
  intros Hinv. pose proof Hinv as [Hlen Hbuf]. unfold ISR.
  change (rawlen (set_timer (uint (timer s + 1)) s)) with (rawlen s).
  destruct (Z.leb_spec RAWBUF (rawlen s)) as [Hfull|Hroom]; simpl.
  - exact Hinv.
  - destruct (rcvstate s), irdata; simpl; repeat case_match; simpl; try exact Hinv.
    + apply record_duration_inv;
        [split; simpl; [unfold RAWBUF; lia | exact Hbuf] | simpl; unfold RAWBUF; lia].
    + apply (record_duration_inv _ (set_timer _ s)); [exact Hinv | exact Hroom].
    + apply (record_duration_inv _ (set_timer _ s)); [exact Hinv | exact Hroom].
Qed.

Lemma ISR_writes irdata s :
  sampler_inv s -> Forall (fun i => 0 <= i < RAWBUF) (snd (ISR K irdata s)).
Proof.
  intros Hinv. pose proof Hinv as [Hlen Hbuf]. unfold ISR.
  change (rawlen (set_timer (uint (timer s + 1)) s)) with (rawlen s).
  destruct (Z.leb_spec RAWBUF (rawlen s)) as [Hfull|Hroom]; simpl.
  - constructor.
  - destruct (rcvstate s), irdata; simpl; repeat case_match; simpl;
      repeat constructor; unfold RAWBUF in *; lia.
Qed.

Lemma ISR_full irdata s :
  rawlen s = RAWBUF ->
  rcvstate (fst (ISR K irdata s)) = STATE_STOP /\ snd (ISR K irdata s) = [] /\
  rawbuf (fst (ISR K irdata s)) = rawbuf s /\ rawlen (fst (ISR K irdata s)) = rawlen s.
Proof.
  intros Hfull. unfold ISR.
  change (rawlen (set_timer (uint (timer s + 1)) s)) with (rawlen s).
  rewrite Hfull. change (RAWBUF <=? RAWBUF) with true. cbn. rewrite Hfull. repeat split.
Qed.

(** Once stopped, the sampler stays stopped and stores nothing. *)
Lemma ISR_stopped irdata s :
  rcvstate s = STATE_STOP ->
  rcvstate (fst (ISR K irdata s)) = STATE_STOP /\ snd (ISR K irdata s) = [] /\
  rawbuf (fst (ISR K irdata s)) = rawbuf s /\ rawlen (fst (ISR K irdata s)) = rawlen s.
Proof.
  intros Hst. unfold ISR.
  change (rawlen (set_timer (uint (timer s + 1)) s)) with (rawlen s).
  destruct (RAWBUF <=? rawlen s); cbn; rewrite ?Hst; cbn; repeat split; exact Hst.
Qed.

Lemma resume_inv s : sampler_inv s -> sampler_inv (resume s).
Proof. intros [Hlen Hbuf]. split; simpl; [unfold RAWBUF; lia | exact Hbuf]. Qed.

Lemma reachable_inv s : reachable K s -> sampler_inv s.
Proof.
  induction 1 as [s (Hst & Hlen & Hbuf & _) | irdata s _ IH | s _ IH | s _ IH].
  - split; [rewrite Hlen; unfold RAWBUF; lia | exact Hbuf].
  - apply ISR_inv, IH.
  - destruct IH as [_ Hbuf]. split; simpl; [unfold RAWBUF; lia | exact Hbuf].
  - apply resume_inv, IH.
Qed.

Lemma reachable_run irdata s : reachable K s -> reachable K (run K irdata s).
Proof.
  revert s. induction irdata as [|l ls IH]; intros s H; simpl; [exact H|].
  apply IH. apply reach_tick. exact H.
Qed.

(** From a pulse being timed, an input that changes level at every tick
    fills the buffer, and the tick after that stops the sampler. *)
Lemma toggling_fills n : forall s,
  sampler_inv s -> rcvstate s = STATE_MARK \/ rcvstate s = STATE_SPACE ->
  n = Z.to_nat (RAWBUF - rawlen s) ->
  rcvstate (run K (toggling (S n) (awaited (rcvstate s))) s) = STATE_STOP.
Proof.
  induction n as [|n IH]; intros s Hinv Hst Hn.
  - assert (rawlen s = RAWBUF) as Hfull by (destruct Hinv; lia).
    simpl. apply ISR_full. exact Hfull.
  - assert (rawlen s < RAWBUF) as Hroom by lia.
    change (toggling (S (S n)) (awaited (rcvstate s)))
      with (awaited (rcvstate s) :: toggling (S n) (other (awaited (rcvstate s)))).
    cbn [run fold_left]. fold (run K).
    set (s' := fst (ISR K (awaited (rcvstate s)) s)).
    assert (sampler_inv s' /\ rawlen s' = rawlen s + 1 /\
            (rcvstate s' = STATE_MARK \/ rcvstate s' = STATE_SPACE) /\
            awaited (rcvstate s') = other (awaited (rcvstate s)))
      as (Hinv' & Hlen' & Hst' & Haw).
    { subst s'. unfold ISR.
      change (rawlen (set_timer (uint (timer s + 1)) s)) with (rawlen s).
      destruct (Z.leb_spec RAWBUF (rawlen s)) as [Hfull|_]; [lia|].
      change (rcvstate (set_timer (uint (timer s + 1)) s)) with (rcvstate s).
      destruct Hst as [E|E]; rewrite E; cbn [awaited level_eqb other].
      - destruct (record_duration_inv STATE_SPACE
                    (set_timer (uint (timer s + 1)) s) Hinv Hroom) as (A & _ & B & C).
        rewrite C. auto.
      - destruct (record_duration_inv STATE_MARK
                    (set_timer (uint (timer s + 1)) s) Hinv Hroom) as (A & _ & B & C).
        rewrite C. auto. }
    rewrite <- Haw. apply IH; [exact Hinv' | exact Hst' | lia].
Qed.

(** C3.  In every state the sampler can reach from a constructed object, by
    ticks with any input and by resume (whole or cut in two by a tick), the
    entry count lies between 0 and RAWBUF and the buffer keeps its RAWBUF
    cells; every store of the next tick goes to an index below RAWBUF; a
    tick that starts with RAWBUF entries stops the sampler without a store,
    leaving buffer and count as they are, and a stopped sampler stays
    stopped; and while a pulse is being timed, an input that changes level
    at every tick, so that no gap ever forms, ends in STATE_STOP. *)
Theorem sampler_never_overruns s :
  reachable K s ->
  (0 <= rawlen s <= RAWBUF /\ Z.of_nat (length (rawbuf s)) = RAWBUF) /\
  (forall irdata, Forall (fun i => 0 <= i < RAWBUF) (snd (ISR K irdata s))) /\
  (rawlen s = RAWBUF \/ rcvstate s = STATE_STOP -> forall irdata,
     rcvstate (fst (ISR K irdata s)) = STATE_STOP /\ snd (ISR K irdata s) = [] /\
     rawbuf (fst (ISR K irdata s)) = rawbuf s /\
     rawlen (fst (ISR K irdata s)) = rawlen s) /\
  (rcvstate s = STATE_MARK \/ rcvstate s = STATE_SPACE ->
     rcvstate (run K (toggling (S (Z.to_nat (RAWBUF - rawlen s)))
                        (awaited (rcvstate s))) s) = STATE_STOP).
Proof.
  intros H. pose proof (reachable_inv s H) as Hinv.
  split; [exact Hinv|]. split; [|split].
  - intros irdata. apply ISR_writes, Hinv.
  - intros [Hfull|Hstop] irdata; [apply ISR_full | apply ISR_stopped]; assumption.
  - intros Hst. apply toggling_fills; auto.
Qed.

End SamplerFacts.

Lemma fresh_constructed : constructed fresh.
Proof. repeat split. Qed.

Lemma started_reachable : reachable refInt started.
Proof. apply reachable_run, reach_init, fresh_constructed. Qed.

Lemma sampler_never_overruns_witness :
  rcvstate started = STATE_MARK /\
  rcvstate (run refInt (toggling 100 SPACE) started) = STATE_STOP.
Proof.
  split; [reflexivity|].
  apply (proj2 (proj2 (proj2 (sampler_never_overruns refInt started started_reachable)))).
  left. reflexivity.
Defined.

(** ** What a matcher reads and what it writes *)

Lemma keeps_refl s : keeps s s.
Proof. repeat split. Qed.

Lemma keeps_trans s t u : keeps s t -> keeps t u -> keeps s u.
Proof. unfold keeps. intuition congruence. Qed.

Lemma matchers_split K : matchers K = protocol_matchers K ++ [decodeHash].
Proof. reflexivity. Qed.

Section MatcherFacts.
Variable K : LRremoteInt.

(** No matcher writes the sampler's globals or the debounce state. *)
Lemma matcher_keeps m s : In m (matchers K) -> keeps s (snd (m s)).
Proof.
  intros H. each_matcher H.
  all: unfold_matchers; repeat case_match; repeat split.
Qed.

(** Whether a matcher accepts depends on the buffer and its count only. *)
Lemma matcher_reads_frame m s t :
  In m (matchers K) -> rawbuf s = rawbuf t -> rawlen s = rawlen t ->
  fst (m s) = fst (m t).
Proof.
  intros H Hb Hl. each_matcher H.
  all: unfold_matchers; rewrite ?Hb, ?Hl; repeat case_match; simplify_eq/=;
    try reflexivity; try congruence.
Qed.

(** On the path of too few bits the three matchers return failure and
    leave the bit count at 0. *)
Lemma decodeSony_too_few s :
  sony_too_few_bits K s -> decodeSony K s = (false, set_bits 0 s).
Proof.
  intros (Hlen & Hgap & Hhm & offset & data & Hloop & Hfew).
  unfold decodeSony. cbv zeta.
  destruct (Z.ltb_spec (rawlen s) (2 * SONY_BITS K + 2)); [lia|].
  destruct (Z.ltb_spec (at_ (rawbuf s) 0) (SONY_DOUBLE_SPACE_USECS K)); [lia|].
  change (0 + 1 + 1) with 2. change (0 + 1) with 1. rewrite Hhm, Hloop. cbn [negb bits set_bits].
  destruct (Z.ltb_spec (Z.quot (offset - 1) 2) 12); [|lia]. destruct s; reflexivity.
Qed.

Lemma decodeSanyo_too_few s :
  sanyo_too_few_bits K s -> decodeSanyo K s = (false, set_bits 0 s).
Proof.
  intros (Hlen & Hgap & Hhm & Hhm' & offset & data & Hloop & Hfew).
  unfold decodeSanyo. cbv zeta.
  destruct (Z.ltb_spec (rawlen s) (2 * SANYO_BITS K + 2)); [lia|].
  destruct (Z.ltb_spec (at_ (rawbuf s) 0) (SANYO_DOUBLE_SPACE_USECS K)); [lia|].
  change (0 + 1 + 1 + 1) with 3. change (0 + 1 + 1) with 2. change (0 + 1) with 1.
  rewrite Hhm, Hhm', Hloop. cbn [negb bits set_bits].
  destruct (Z.ltb_spec (Z.quot (offset - 1) 2) 12); [|lia]. destruct s; reflexivity.
Qed.

Lemma decodeMitsubishi_too_few s :
  mitsubishi_too_few_bits K s -> decodeMitsubishi K s = (false, set_bits 0 s).
Proof.
  intros (Hlen & Hhm & offset & data & Hloop & Hfew).
  unfold decodeMitsubishi. cbv zeta.
  destruct (Z.ltb_spec (rawlen s) (2 * MITSUBISHI_BITS K + 2)); [lia|].
  change (0 + 1 + 1) with 2. change (0 + 1) with 1. rewrite Hhm, Hloop. cbn [negb bits set_bits].
  destruct (Z.ltb_spec (Z.quot (offset - 1) 2) (MITSUBISHI_BITS K)); [|lia].
  destruct s; reflexivity.
Qed.

(** On every other failing path they write nothing. *)
Lemma decodeSony_failure s :
  fst (decodeSony K s) = false ->
  snd (decodeSony K s) = s \/ (sony_too_few_bits K s /\ snd (decodeSony K s) = set_bits 0 s).
Proof.
  unfold decodeSony. cbv zeta.
  destruct (Z.ltb_spec (rawlen s) (2 * SONY_BITS K + 2)); [auto|].
  destruct (Z.ltb_spec (at_ (rawbuf s) 0) (SONY_DOUBLE_SPACE_USECS K)); [discriminate|].
  change (0 + 1 + 1) with 2. change (0 + 1) with 1.
  destruct (MATCH_MARK K (at_ (rawbuf s) 1) (SONY_HDR_MARK K)) eqn:Hhm; cbn [negb]; [|auto].
  destruct (mark_coded_bits K (SONY_HDR_SPACE K) (SONY_ONE_MARK K) (SONY_ZERO_MARK K)
              (rawbuf s) (rawlen s) (Z.to_nat (rawlen s)) 2 0)
    as [| offset data |] eqn:Hloop; [auto| |auto].
  cbn [bits set_bits].
  destruct (Z.ltb_spec (Z.quot (offset - 1) 2) 12); [|discriminate].
  intros _. right. split; [|destruct s; reflexivity].
  repeat split; try assumption. exists offset, data. auto.
Qed.

Lemma decodeSanyo_failure s :
  fst (decodeSanyo K s) = false ->
  snd (decodeSanyo K s) = s \/
  (sanyo_too_few_bits K s /\ snd (decodeSanyo K s) = set_bits 0 s).
Proof.
  unfold decodeSanyo. cbv zeta.
  destruct (Z.ltb_spec (rawlen s) (2 * SANYO_BITS K + 2)); [auto|].
  destruct (Z.ltb_spec (at_ (rawbuf s) 0) (SANYO_DOUBLE_SPACE_USECS K)); [discriminate|].
  change (0 + 1 + 1 + 1) with 3. change (0 + 1 + 1) with 2. change (0 + 1) with 1.
  destruct (MATCH_MARK K (at_ (rawbuf s) 1) (SANYO_HDR_MARK K)) eqn:Hhm; cbn [negb]; [|auto].
  destruct (MATCH_MARK K (at_ (rawbuf s) 2) (SANYO_HDR_MARK K)) eqn:Hhm'; cbn [negb]; [|auto].
  destruct (mark_coded_bits K (SANYO_HDR_SPACE K) (SANYO_ONE_MARK K) (SANYO_ZERO_MARK K)
              (rawbuf s) (rawlen s) (Z.to_nat (rawlen s)) 3 0)
    as [| offset data |] eqn:Hloop; [auto| |auto].
  cbn [bits set_bits].
  destruct (Z.ltb_spec (Z.quot (offset - 1) 2) 12); [|discriminate].
  intros _. right. split; [|destruct s; reflexivity].
  repeat split; try assumption. exists offset, data. auto.
Qed.

Lemma decodeMitsubishi_failure s :
  fst (decodeMitsubishi K s) = false ->
  snd (decodeMitsubishi K s) = s \/
  (mitsubishi_too_few_bits K s /\ snd (decodeMitsubishi K s) = set_bits 0 s).
Proof.
  unfold decodeMitsubishi. cbv zeta.
  destruct (Z.ltb_spec (rawlen s) (2 * MITSUBISHI_BITS K + 2)); [auto|].
  change (0 + 1 + 1) with 2. change (0 + 1) with 1.
  destruct (MATCH_MARK K (at_ (rawbuf s) 1) (MITSUBISHI_HDR_SPACE K)) eqn:Hhm;
    cbn [negb]; [|auto].
  destruct (mitsubishi_bits K (rawbuf s) (rawlen s) (Z.to_nat (rawlen s)) 2 0)
    as [| offset data |] eqn:Hloop; [auto| |auto].
  cbn [bits set_bits].
  destruct (Z.ltb_spec (Z.quot (offset - 1) 2) (MITSUBISHI_BITS K)); [|discriminate].
  intros _. right. split; [|destruct s; reflexivity].
  repeat split; try assumption. exists offset, data. auto.
Qed.

(** C6.  A matcher that returns failure leaves the whole state as it found
    it (protocol tag, value, bit count, buffer and all the rest), with one
    exception: where decodeSony, decodeSanyo or decodeMitsubishi rejects
    the frame behind its bit loop for having too few bits (length guard,
    gap test and header tests passed, loop left, (offset - 1) / 2 below the
    minimum), it has set the bit count to 0 and changed nothing else.  On
    that path the bit count is always left at 0; on every other failing
    path, of these three matchers too, nothing is written. *)
Theorem failing_matcher_writes m s :
  In m (matchers K) -> fst (m s) = false ->
  (snd (m s) = s \/ (too_few_bits K m s /\ snd (m s) = set_bits 0 s)) /\
  (too_few_bits K m s -> snd (m s) = set_bits 0 s).
Proof.
  intros H Hfail. split.
  - revert Hfail. each_matcher H.
    2:{ intros Hf. destruct (decodeSony_failure s Hf) as [E | [Hfew E]]; [auto|].
        right. split; [left; auto | exact E]. }
    2:{ intros Hf. destruct (decodeSanyo_failure s Hf) as [E | [Hfew E]]; [auto|].
        right. split; [right; left; auto | exact E]. }
    2:{ intros Hf. destruct (decodeMitsubishi_failure s Hf) as [E | [Hfew E]]; [auto|].
        right. split; [right; right; auto | exact E]. }
    all: unfold_matchers; repeat case_match; simpl; intros; try discriminate; auto.
  - intros [[-> Hfew] | [[-> Hfew] | [-> Hfew]]].
    + rewrite decodeSony_too_few by exact Hfew. reflexivity.
    + rewrite decodeSanyo_too_few by exact Hfew. reflexivity.
    + rewrite decodeMitsubishi_too_few by exact Hfew. reflexivity.
Qed.

(** decodeSony on a frame that has its header mark and no header space
    after it: the loop is left at once, the bit count is set to 0 and the
    frame is rejected. *)
Lemma decodeSony_rejects_bare_header s :
  2 * SONY_BITS K + 2 <= rawlen s -> 3 < rawlen s ->
  SONY_DOUBLE_SPACE_USECS K <= at_ (rawbuf s) 0 ->
  MATCH_MARK K (at_ (rawbuf s) 1) (SONY_HDR_MARK K) = true ->
  MATCH_SPACE K (at_ (rawbuf s) 2) (SONY_HDR_SPACE K) = false ->
  decodeSony K s = (false, set_bits 0 s).
Proof.
  intros Hlen H3 Hgap Hhm Hhs. unfold decodeSony. cbv zeta.
  destruct (Z.ltb_spec (rawlen s) (2 * SONY_BITS K + 2)); [lia|].
  destruct (Z.ltb_spec (at_ (rawbuf s) 0) (SONY_DOUBLE_SPACE_USECS K)); [lia|].
  change (0 + 1 + 1) with 2. change (0 + 1) with 1. rewrite Hhm. cbn [negb].
  destruct (Z.to_nat (rawlen s)) as [|fuel] eqn:E; [lia|].
  cbn [mark_coded_bits].
  destruct (Z.ltb_spec (2 + 1) (rawlen s)); [|lia].
  rewrite Hhs. cbn [negb]. destruct s; reflexivity.
Qed.

Lemma first_success_keeps ms : forall s,
  (forall m, In m ms -> In m (matchers K)) -> keeps s (snd (first_success ms s)).
Proof.
  induction ms as [|m ms IH]; intros s Hin; simpl; [apply keeps_refl|].
  pose proof (matcher_keeps m s (Hin m (or_introl eq_refl))) as Hm.
  destruct (m s) as [ok t]. simpl in Hm. destruct ok; [exact Hm|].
  eapply keeps_trans; [exact Hm|]. apply IH. intros m' H. apply Hin. right. exact H.
Qed.

Lemma decode_keeps_debounce s :
  lastValue (snd (decode K s)) = lastValue s /\ repeat (snd (decode K s)) = repeat s.
Proof.
  unfold decode. destruct (negb (rcvstate_eqb (rcvstate s) STATE_STOP)); [split; reflexivity|].
  pose proof (first_success_keeps (matchers K) s (fun m H => H)) as Hk.
  destruct (first_success (matchers K) s) as [ok t]. simpl in Hk.
  destruct Hk as (_ & _ & _ & _ & Hl & Hr). destruct ok; simpl; auto.
Qed.

(** C7.  decode never writes the buffer or the tick counter.  It leaves the
    capture state and the entry count alone when it succeeds and when the
    capture state is not STATE_STOP; when the state is STATE_STOP and every
    matcher fails, decode itself resumes capturing: the state becomes
    STATE_IDLE and the entry count 0. *)
Theorem decode_capture_state s :
  rawbuf (snd (decode K s)) = rawbuf s /\
  timer (snd (decode K s)) = timer s /\
  (rcvstate (snd (decode K s)), rawlen (snd (decode K s))) =
    (if fst (decode K s) || negb (rcvstate_eqb (rcvstate s) STATE_STOP)
     then (rcvstate s, rawlen s) else (STATE_IDLE, 0)).
Proof.
  unfold decode. destruct (negb (rcvstate_eqb (rcvstate s) STATE_STOP)) eqn:E.
  - simpl. auto.
  - pose proof (first_success_keeps (matchers K) s (fun m H => H)) as Hk.
    destruct (first_success (matchers K) s) as [ok t]. simpl in Hk.
    destruct Hk as (Hs & Ht & Hb & Hl & _). destruct ok; simpl; rewrite ?Hs, ?Hl; auto.
Qed.

(** C5.  On a buffer of at least 2 * SONY_BITS + 2 entries whose first cell
    is below SONY_DOUBLE_SPACE_USECS, decodeSony succeeds with the repeat
    value and a bit count of 0, and the tag it stores is SANYO, which is
    not the tag SONY. *)
Theorem decodeSony_repeat_tag s :
  2 * SONY_BITS K + 2 <= rawlen s ->
  at_ (rawbuf s) 0 < SONY_DOUBLE_SPACE_USECS K ->
  decodeSony K s = (true, set_decode_type SANYO (set_value REPEAT (set_bits 0 s))) /\
  decode_type (snd (decodeSony K s)) = SANYO /\ SANYO <> SONY.
Proof.
  intros Hlen Hgap. unfold decodeSony.
  destruct (Z.ltb_spec (rawlen s) (2 * SONY_BITS K + 2)); [lia|].
  destruct (Z.ltb_spec (at_ (rawbuf s) 0) (SONY_DOUBLE_SPACE_USECS K)); [|lia].
  repeat split. discriminate.
Qed.

(** decodePanasonic never looks at the entry count. *)
Lemma decodePanasonic_ignores_rawlen n s :
  fst (decodePanasonic K (set_rawlen n s)) = fst (decodePanasonic K s).
Proof. unfold decodePanasonic. simpl. repeat case_match; reflexivity. Qed.

End MatcherFacts.

Lemma decodeSony_repeat_tag_witness :
  rcvstate sony_capture = STATE_STOP /\ rawlen sony_capture = 26 /\
  at_ (rawbuf sony_capture) 0 = 101 /\
  decode_type (snd (decodeSony refInt sony_capture)) = SANYO /\
  decode_type (snd (decode refInt sony_capture)) = SANYO.
Proof.
  split; [reflexivity|]. split; [reflexivity|]. split; [reflexivity|].
  split; [|reflexivity].
  refine (proj1 (proj2 (decodeSony_repeat_tag refInt sony_capture _ _))).
  - vm_compute. discriminate.
  - vm_compute. reflexivity.
Defined.

(** C6, as stated, fails: decodeSony rejects this frame and the bit count,
    7 before the call, is 0 after it. *)
Lemma failing_decodeSony_clears_bits :
  fst (decodeSony refInt sony_cut) = false /\
  bits sony_cut = 7 /\ bits (snd (decodeSony refInt sony_cut)) = 0 /\
  ~ (decode_type (snd (decodeSony refInt sony_cut)) = decode_type sony_cut /\
     value (snd (decodeSony refInt sony_cut)) = value sony_cut /\
     bits (snd (decodeSony refInt sony_cut)) = bits sony_cut /\
     rawbuf (snd (decodeSony refInt sony_cut)) = rawbuf sony_cut).
Proof.
  repeat split; try reflexivity.
  intros (_ & _ & H & _). vm_compute in H. discriminate.
Qed.

Lemma sony_cut_too_few : sony_too_few_bits refInt sony_cut.
Proof.
  repeat split; try (vm_compute; discriminate).
  exists 2, 0. split; [reflexivity | vm_compute; reflexivity].
Qed.

Lemma failing_matcher_writes_witness :
  (snd (decodeSony refInt sony_cut) = sony_cut \/
   (too_few_bits refInt (decodeSony refInt) sony_cut /\
    snd (decodeSony refInt sony_cut) = set_bits 0 sony_cut)) /\
  (too_few_bits refInt (decodeSony refInt) sony_cut ->
   snd (decodeSony refInt sony_cut) = set_bits 0 sony_cut).
Proof.
  apply (failing_matcher_writes refInt (decodeSony refInt) sony_cut).
  - simpl. auto.
  - reflexivity.
Defined.

(** C7, as stated, fails: on the two entries the sampler has recorded for
    a blip, decode returns false and has put the sampler back to STATE_IDLE
    with an entry count of 0. *)
Lemma failing_decode_resumes :
  reachable refInt blip /\
  rcvstate blip = STATE_STOP /\ rawlen blip = 2 /\
  fst (decode refInt blip) = false /\
  rcvstate (snd (decode refInt blip)) = STATE_IDLE /\
  rawlen (snd (decode refInt blip)) = 0 /\
  ~ (rcvstate (snd (decode refInt blip)) = rcvstate blip /\
     rawlen (snd (decode refInt blip)) = rawlen blip).
Proof.
  split; [apply reachable_run, reach_init, fresh_constructed|].
  repeat (split; [reflexivity|]).
  intros [H _]. vm_compute in H. discriminate.
Qed.

(** C9.  The sampler has stopped with 6 valid entries, far fewer than the
    3 + 2 * 48 of a Panasonic frame, and decodePanasonic succeeds all the
    same, as does decode with tag PANASONIC: it reads on into the cells an
    earlier capture has left in the buffer. *)
Theorem decodePanasonic_accepts_short :
  reachable refInt panasonic_stale /\
  rcvstate panasonic_stale = STATE_STOP /\
  rawlen panasonic_stale = 6 /\
  rawlen panasonic_stale < 3 + 2 * PANASONIC_BITS refInt /\
  fst (decodePanasonic refInt panasonic_stale) = true /\
  bits (snd (decodePanasonic refInt panasonic_stale)) = 48 /\
  value (snd (decodePanasonic refInt panasonic_stale)) = 0x0100BCBD /\
  fst (decode refInt panasonic_stale) = true /\
  decode_type (snd (decode refInt panasonic_stale)) = PANASONIC.
Proof.
  split.
  - apply reachable_run, reach_resume, reachable_run, reach_init, fresh_constructed.
  - vm_compute. repeat split.
Qed.

(** ** Protocol-A frames *)

Lemma msb_fold_mod (payload : list bool) a a' :
  a mod 2 ^ 32 = a' mod 2 ^ 32 ->
  fold_left (fun acc (b : bool) => 2 * acc + Z.b2z b) payload a mod 2 ^ 32 =
  fold_left (fun acc (b : bool) => 2 * acc + Z.b2z b) payload a' mod 2 ^ 32.
Proof.
  revert a a'. induction payload as [|b l IH]; intros a a' H; simpl; [exact H|].
  apply IH. rewrite <- (mod_lin _ 2 a), <- (mod_lin _ 2 a'), H. reflexivity.
Qed.

(** The [long] accumulator of the bit loop, read as unsigned, is the
    pattern read most significant bit first, modulo 2^32. *)
Lemma ulong_data (payload : list bool) d :
  ulong (fold_left (fun d (b : bool) => if b then shl1 d else shl0 d) payload d) =
  fold_left (fun acc (b : bool) => 2 * acc + Z.b2z b) payload d mod 2 ^ 32.
Proof.
  revert d. induction payload as [|b l IH]; intros d; simpl; [reflexivity|].
  rewrite IH. apply msb_fold_mod.
  pose proof (ulong_shl b d) as H. unfold ulong in H. rewrite H.
  apply mod_lin.
Qed.

Lemma msb_fold_bound (payload : list bool) a :
  0 <= a ->
  0 <= fold_left (fun acc (b : bool) => 2 * acc + Z.b2z b) payload a
    < 2 ^ Z.of_nat (length payload) * (a + 1).
Proof.
  revert a. induction payload as [|b l IH]; intros a Ha.
  - simpl. lia.
  - cbn [fold_left length]. rewrite Nat2Z.inj_succ, Z.pow_succ_r by lia.
    specialize (IH (2 * a + Z.b2z b)). destruct b; simpl Z.b2z in *; nia.
Qed.

Lemma msb_first_range payload : length payload = 32%nat -> 0 <= msb_first payload < 2 ^ 32.
Proof.
  intros H. pose proof (msb_fold_bound payload 0 ltac:(lia)) as B.
  rewrite H in B. unfold msb_first. simpl in B. lia.
Qed.

Section NecFrames.
Variable K : LRremoteInt.

(** The bit loop over cells laid out as marks and spaces inside their
    bands consumes them all and accumulates the payload. *)
Lemma space_coded_frame bit_mark one_space zero_space bm s0 s1 payload :
  MATCH_MARK K bm bit_mark = true ->
  MATCH_SPACE K s1 one_space = true ->
  MATCH_SPACE K s0 zero_space = true ->
  MATCH_SPACE K s0 one_space = false ->
  forall pre rest data,
  space_coded_bits K bit_mark one_space zero_space shl1 shl0
    (pre ++ flat_map (nec_bit bm s0 s1) payload ++ rest)
    (length payload) (Z.of_nat (length pre)) data =
  Some (Z.of_nat (length pre) + 2 * Z.of_nat (length payload),
        fold_left (fun d (b : bool) => if b then shl1 d else shl0 d) payload data).
Proof.
  intros Hm H1 H0 H01. induction payload as [|b l IH]; intros pre rest data.
  - simpl. f_equal. f_equal. lia.
  - cbn [flat_map nec_bit length space_coded_bits fold_left app].
    rewrite at_app_r, Hm. cbn [negb].
    replace (Z.of_nat (length pre) + 1) with (Z.of_nat (length (pre ++ [bm])))
      by (rewrite length_app; simpl; lia).
    replace (pre ++ bm :: (if b then s1 else s0) :: (flat_map (nec_bit bm s0 s1) l ++ rest))
      with ((pre ++ [bm]) ++ (if b then s1 else s0) :: (flat_map (nec_bit bm s0 s1) l ++ rest))
      by (rewrite <- app_assoc; reflexivity).
    rewrite at_app_r.
    replace (Z.of_nat (length (pre ++ [bm])) + 1)
      with (Z.of_nat (length ((pre ++ [bm]) ++ [if b then s1 else s0])))
      by (rewrite !length_app; simpl; lia).
    replace ((pre ++ [bm]) ++ (if b then s1 else s0) :: (flat_map (nec_bit bm s0 s1) l ++ rest))
      with (((pre ++ [bm]) ++ [if b then s1 else s0]) ++ flat_map (nec_bit bm s0 s1) l ++ rest)
      by (rewrite <- !app_assoc; reflexivity).
    destruct b.
    + rewrite H1, IH. f_equal. f_equal. rewrite !length_app. simpl. lia.
    + rewrite H01, H0, IH. f_equal. f_equal. rewrite !length_app. simpl. lia.
Qed.

Lemma decodeNEC_canonical s gap payload rest :
  accepts_canonical_nec K -> length payload = 32%nat ->
  rawbuf s = canonical_nec_frame gap payload ++ rest -> 2 * 32 + 4 <= rawlen s ->
  decodeNEC K s =
    (true, set_decode_type NEC (set_value (msb_first payload) (set_bits 32 s))).
Proof.
  intros (Hbits & Hhm & Hhs & Hbm & H1 & H0 & H01) Hlen Hbuf Hraw.
  unfold decodeNEC. rewrite Hbuf, Hbits. unfold canonical_nec_frame, nec_frame.
  change (at_ ((gap :: ticks 9000 :: ticks 4500 :: ?l) ++ rest) 1) with (ticks 9000).
  rewrite Hhm. cbn [negb].
  destruct (Z.eqb_spec (rawlen s) 4) as [E|_]; [lia|]. cbn [andb].
  destruct (Z.ltb_spec (rawlen s) (2 * 32 + 4)) as [E|_]; [lia|].
  change (at_ ((gap :: ticks 9000 :: ticks 4500 :: ?l) ++ rest) (1 + 1)) with (ticks 4500).
  rewrite Hhs. cbn [negb].
  change (Z.to_nat 32) with 32%nat. rewrite <- Hlen.
  pose proof (space_coded_frame _ _ _ _ _ _ payload Hbm H1 H0 H01
                [gap; ticks 9000; ticks 4500] rest 0) as L.
  cbn [length app] in L. cbn [app].
  change (Z.of_nat 3) with (1 + 1 + 1) in L. rewrite L.
  rewrite ulong_data. fold (msb_first payload).
  rewrite Z.mod_small by (apply msb_first_range; exact Hlen).
  reflexivity.
Qed.

(** C1.  Let the header put the nominal Protocol-A durations inside their
    bands.  For every pattern of 32 bits, if the sampler has stopped, the
    buffer starts with the gap and the canonical frame of the pattern, and
    the entry count is at least 2 * 32 + 4 = 68 (one cell more than the
    frame itself, as the closing mark of a transmission gives), then decode
    succeeds with tag NEC, 32 bits, and the pattern read most significant
    bit first as the value. *)
Theorem canonical_nec_decodes s gap payload rest :
  accepts_canonical_nec K -> length payload = 32%nat -> rcvstate s = STATE_STOP ->
  rawbuf s = canonical_nec_frame gap payload ++ rest -> 2 * 32 + 4 <= rawlen s ->
  decodes_as_nec K s payload.
Proof.
  intros HK Hlen Hst Hbuf Hraw.
  assert (decode K s =
    (true, set_decode_type NEC (set_value (msb_first payload) (set_bits 32 s)))) as E.
  { unfold decode. rewrite Hst. cbn [rcvstate_eqb negb].
    unfold matchers. cbn [first_success].
    rewrite (decodeNEC_canonical s gap payload rest HK Hlen Hbuf Hraw). reflexivity. }
  unfold decodes_as_nec. rewrite E. repeat split.
Qed.

End NecFrames.

Lemma refInt_accepts : accepts_canonical_nec refInt.
Proof. repeat split. Qed.

Lemma canonical_nec_decodes_witness :
  rawlen nec_closed = 68 /\ decodes_as_nec refInt nec_closed payload_ex.
Proof.
  split; [reflexivity|].
  apply (canonical_nec_decodes refInt nec_closed 100 payload_ex
           (ticks 560 :: replicate 32 0)).
  - exact refInt_accepts.
  - reflexivity.
  - reflexivity.
  - reflexivity.
  - vm_compute. discriminate.
Defined.

(** C1, as stated, fails: the buffer holds the gap and the canonical frame
    of a pattern and nothing else, 67 entries; decodeNEC rejects it for its
    length and decode does not return the tag NEC. *)
Lemma canonical_nec_exact_fails :
  rawbuf nec_exact = canonical_nec_frame 100 payload_ex ++ replicate 33 0 /\
  rawlen nec_exact = Z.of_nat (length (canonical_nec_frame 100 payload_ex)) /\
  fst (decodeNEC refInt nec_exact) = false /\
  ~ decodes_as_nec refInt nec_exact payload_ex.
Proof.
  repeat split. intros (_ & H & _). vm_compute in H. discriminate.
Qed.

(** ** The loops of the matchers always come to an end

    The recursions that model the [while] and [for] loops over the buffer
    are given one step per cell (three per cell for the level cursor);
    that is always enough. *)

Section Fuel.
Variable K : LRremoteInt.

Lemma mark_coded_bits_fuel hs om zm buf len fuel : forall offset data,
  len - offset <= Z.of_nat fuel ->
  mark_coded_bits K hs om zm buf len fuel offset data <> Out_of_fuel.
Proof.
  induction fuel as [|fuel IH]; intros offset data Hf; simpl;
    destruct (Z.ltb_spec (offset + 1) len); try discriminate; [lia|].
  repeat case_match; try discriminate; apply IH; lia.
Qed.

Lemma mitsubishi_bits_fuel buf len fuel : forall offset data,
  len - offset <= Z.of_nat fuel ->
  mitsubishi_bits K buf len fuel offset data <> Out_of_fuel.
Proof.
  induction fuel as [|fuel IH]; intros offset data Hf; simpl;
    destruct (Z.ltb_spec (offset + 1) len); try discriminate; [lia|].
  repeat case_match; try discriminate; apply IH; lia.
Qed.

(** A call of getRClevel keeps [used] between 0 and 2, never moves back,
    and moves on whenever it returns a level from inside the buffer. *)
Lemma getRClevel_progress buf len offset used t1 l o u :
  0 <= used <= 2 -> getRClevel K buf len offset used t1 = (l, o, u) ->
  0 <= u <= 2 /\
  3 * (len - o) - u <= 3 * (len - offset) - used /\
  (offset < len -> l <> None -> 3 * (len - o) - u < 3 * (len - offset) - used).
Proof.
  intros Hu. unfold getRClevel.
  destruct (Z.leb_spec len offset).
  - intros [= <- <- <-]. lia.
  - repeat case_match; intros [= <- <- <-]; simplify_eq; repeat split; try lia;
      intros; try lia; congruence.
Qed.

Lemma rc5_bits_fuel buf len fuel : forall offset used nbits data,
  0 <= used <= 2 -> 3 * (len - offset) - used <= Z.of_nat fuel ->
  rc5_bits K buf len fuel offset used nbits data <> Out_of_fuel.
Proof.
  induction fuel as [|fuel IH]; intros offset used nbits data Hu Hf; simpl;
    destruct (Z.ltb_spec offset len); try discriminate; [lia|].
  destruct (getRClevel K buf len offset used (RC5_T1 K)) as [[lA oA] uA] eqn:EA.
  destruct (getRClevel_progress _ _ _ _ _ _ _ _ Hu EA) as (HuA & HmA & HpA).
  destruct (getRClevel K buf len oA uA (RC5_T1 K)) as [[lB oB] uB] eqn:EB.
  destruct (getRClevel_progress _ _ _ _ _ _ _ _ HuA EB) as (HuB & HmB & _).
  destruct lA as [[|]|]; try discriminate;
    destruct lB as [[|]|]; try discriminate;
    (apply IH; [exact HuB | specialize (HpA ltac:(lia) ltac:(discriminate)); lia]).
Qed.

Lemma rc6_bits_fuel buf len fuel : forall offset used nbits data,
  0 <= used <= 2 -> 3 * (len - offset) - used <= Z.of_nat fuel ->
  rc6_bits K buf len fuel offset used nbits data <> Out_of_fuel.
Proof.
  induction fuel as [|fuel IH]; intros offset used nbits data Hu Hf; simpl;
    destruct (Z.ltb_spec offset len); try discriminate; [lia|].
  destruct (getRClevel K buf len offset used (RC6_T1 K)) as [[lA o1] u1] eqn:E1.
  destruct (getRClevel_progress _ _ _ _ _ _ _ _ Hu E1) as (Hu1 & Hm1 & Hp1).
  destruct (nbits =? 3).
  - destruct (getRClevel K buf len o1 u1 (RC6_T1 K)) as [[l2 o2] u2] eqn:E2.
    destruct (getRClevel_progress _ _ _ _ _ _ _ _ Hu1 E2) as (Hu2 & Hm2 & _).
    destruct (negb (olevel_eqb lA l2)); [discriminate|].
    destruct (getRClevel K buf len o2 u2 (RC6_T1 K)) as [[lB o3] u3] eqn:E3.
    destruct (getRClevel_progress _ _ _ _ _ _ _ _ Hu2 E3) as (Hu3 & Hm3 & _).
    destruct (getRClevel K buf len o3 u3 (RC6_T1 K)) as [[l4 o4] u4] eqn:E4.
    destruct (getRClevel_progress _ _ _ _ _ _ _ _ Hu3 E4) as (Hu4 & Hm4 & _).
    destruct (negb (olevel_eqb lB l4)); [discriminate|].
    destruct lA as [[|]|]; try discriminate;
      destruct lB as [[|]|]; try discriminate;
      (apply IH; [exact Hu4 | specialize (Hp1 ltac:(lia) ltac:(discriminate)); lia]).
  - cbn [negb].
    destruct (getRClevel K buf len o1 u1 (RC6_T1 K)) as [[lB o3] u3] eqn:E3.
    destruct (getRClevel_progress _ _ _ _ _ _ _ _ Hu1 E3) as (Hu3 & Hm3 & _).
    cbn [negb].
    destruct lA as [[|]|]; try discriminate;
      destruct lB as [[|]|]; try discriminate;
      (apply IH; [exact Hu3 | specialize (Hp1 ltac:(lia) ltac:(discriminate)); lia]).
Qed.

(** With the steps the matchers give them, the loops of decodeSony,
    decodeSanyo, decodeMitsubishi, decodeRC5 and decodeRC6 are never cut
    short. *)
Lemma matcher_loops_terminate s :
  mark_coded_bits K (SONY_HDR_SPACE K) (SONY_ONE_MARK K) (SONY_ZERO_MARK K)
    (rawbuf s) (rawlen s) (Z.to_nat (rawlen s)) (0 + 1 + 1) 0 <> Out_of_fuel /\
  mark_coded_bits K (SANYO_HDR_SPACE K) (SANYO_ONE_MARK K) (SANYO_ZERO_MARK K)
    (rawbuf s) (rawlen s) (Z.to_nat (rawlen s)) (0 + 1 + 1 + 1) 0 <> Out_of_fuel /\
  mitsubishi_bits K (rawbuf s) (rawlen s) (Z.to_nat (rawlen s)) (0 + 1 + 1) 0
    <> Out_of_fuel /\
  (forall offset used, 1 <= offset -> 0 <= used <= 2 ->
     rc5_bits K (rawbuf s) (rawlen s) (3 * Z.to_nat (rawlen s)) offset used 0 0
       <> Out_of_fuel /\
     rc6_bits K (rawbuf s) (rawlen s) (3 * Z.to_nat (rawlen s)) offset used 0 0
       <> Out_of_fuel).
Proof.
  repeat split.
  - apply mark_coded_bits_fuel. lia.
  - apply mark_coded_bits_fuel. lia.
  - apply mitsubishi_bits_fuel. lia.
  - apply rc5_bits_fuel; lia.
  - apply rc6_bits_fuel; lia.
Qed.

End Fuel.

(** ** The hash of an unrecognised frame *)

Lemma fnv_prime_inv h :
  (h * FNV_PRIME_32 mod 2 ^ 32 * FNV_PRIME_INV) mod 2 ^ 32 = h mod 2 ^ 32.
Proof.
  rewrite Zmult_mod_idemp_l, <- Z.mul_assoc, <- Zmult_mod_idemp_r.
  change (FNV_PRIME_32 * FNV_PRIME_INV mod 2 ^ 32) with 1. f_equal. lia.
Qed.

Lemma compare_range a b : 0 <= compare a b <= 2.
Proof. unfold compare. repeat case_match; lia. Qed.

(** The code's comparison is the spec's: [compare] gives 0 exactly when the
    newer value is less than 0.8 times the older, 2 exactly when it is not
    and the older is less than 0.8 times the newer, and 1 otherwise. *)
Lemma compare_spec oldval newval :
  compare oldval newval = class_code (spec_class oldval newval).
Proof.
  unfold compare, spec_class.
  destruct (Qlt_le_dec (inject_Z newval) ((8 # 10) * inject_Z oldval)) as [H|H];
    [unfold Qlt in H | unfold Qle in H]; cbn in H;
    (destruct (Z.ltb_spec (10 * newval) (8 * oldval)); [|]); try lia; try reflexivity.
  destruct (Qlt_le_dec (inject_Z oldval) ((8 # 10) * inject_Z newval)) as [H'|H'];
    [unfold Qlt in H' | unfold Qle in H']; cbn in H';
    (destruct (Z.ltb_spec (10 * oldval) (8 * newval)); [|]); try lia; reflexivity.
Qed.

Lemma classes_compare buf len :
  classes buf len = map (fun i => compare (at_ buf i) (at_ buf (i + 2))) (seqZ 1 (len - 3)).
Proof. unfold classes. apply map_ext. intros i. symmetry. apply compare_spec. Qed.

Lemma classes_range buf len : Forall (fun c => 0 <= c <= 2) (classes buf len).
Proof.
  rewrite classes_compare. apply Forall_map, Forall_forall. intros i _. apply compare_range.
Qed.

Lemma fnv_step_range h c : 0 <= c <= 2 -> 0 <= fnv_step h c < 2 ^ 32.
Proof. intros Hc. apply lxor_range; [apply Z.mod_pos_bound|]; lia. Qed.

Lemma fnv_step_inj h h' c :
  0 <= h < 2 ^ 32 -> 0 <= h' < 2 ^ 32 -> fnv_step h c = fnv_step h' c -> h = h'.
Proof.
  intros Hh Hh' H. apply lxor_cancel_r in H.
  apply (f_equal (fun x => (x * FNV_PRIME_INV) mod 2 ^ 32)) in H.
  rewrite !fnv_prime_inv, !Z.mod_small in H by assumption. exact H.
Qed.

Lemma fnv_fold_inj cs h h' :
  0 <= h < 2 ^ 32 -> 0 <= h' < 2 ^ 32 -> Forall (fun c => 0 <= c <= 2) cs ->
  fold_left fnv_step cs h = fold_left fnv_step cs h' -> h = h'.
Proof.
  revert h h'. induction cs as [|c cs IH]; intros h h' Hh Hh' Hcs H; simpl in H; [exact H|].
  inversion Hcs; subst.
  apply (fnv_step_inj h h' c Hh Hh').
  apply IH; try apply fnv_step_range; assumption.
Qed.

Lemma fnv_fold_range cs h :
  0 <= h < 2 ^ 32 -> Forall (fun c => 0 <= c <= 2) cs ->
  0 <= fold_left fnv_step cs h < 2 ^ 32.
Proof.
  revert h. induction cs as [|c cs IH]; intros h Hh Hcs; simpl; [exact Hh|].
  inversion Hcs; subst. apply IH; [apply fnv_step_range|]; assumption.
Qed.

(** Changing one class changes the hash: every step is one-to-one in the
    running hash, the prime being odd. *)
Lemma fnv1_single_flip cs cs' :
  Forall (fun c => 0 <= c <= 2) cs -> Forall (fun c => 0 <= c <= 2) cs' ->
  single_flip cs cs' -> fnv1 cs <> fnv1 cs'.
Proof.
  intros Hcs Hcs' (pre & c & c' & post & -> & -> & Hne) E.
  unfold fnv1 in E. rewrite !fold_left_app in E. simpl in E.
  apply Forall_app in Hcs as [Hpre Hpost]. apply Forall_app in Hcs' as [_ Hpost'].
  inversion Hpost; subst. inversion Hpost'; subst.
  assert (0 <= fold_left fnv_step pre FNV_BASIS_32 < 2 ^ 32) as Hr
    by (apply fnv_fold_range; [unfold FNV_BASIS_32; lia | assumption]).
  apply fnv_fold_inj in E; try apply fnv_step_range; try assumption.
  apply lxor_cancel in E. contradiction.
Qed.

(** The signed loop of decodeHash, read as unsigned at the end, is FNV-1
    over the classes. *)
Lemma hash_loop_fnv1 buf idx h u :
  ulong h = u ->
  ulong (fold_left (hash_step buf) idx h) =
  fold_left fnv_step (map (fun i => compare (at_ buf i) (at_ buf (i + 2))) idx) u.
Proof.
  revert h u. induction idx as [|i idx IH]; intros h u Hu; simpl; [exact Hu|].
  apply IH. unfold hash_step, fnv_step, ulong.
  pose proof (compare_range (at_ buf i) (at_ buf (i + 2))) as Hc.
  rewrite lxor_mod by lia. f_equal.
  pose proof (ulong_long (h * FNV_PRIME_32)) as E. unfold ulong in E. rewrite E.
  rewrite <- Hu. unfold ulong. rewrite Zmult_mod_idemp_l. reflexivity.
Qed.

Lemma first_success_app ms ms' s :
  first_success (ms ++ ms') s =
  (if fst (first_success ms s) then (true, snd (first_success ms s))
   else first_success ms' (snd (first_success ms s))).
Proof.
  revert s. induction ms as [|m ms IH]; intros s; simpl; [reflexivity|].
  destruct (m s) as [[|] t]; simpl; [reflexivity | apply IH].
Qed.

Section Hash.
Variable K : LRremoteInt.

Lemma first_success_all_fail ms : forall s t,
  (forall m, In m ms -> In m (matchers K)) ->
  Forall (fun m : state -> bool * state => fst (m s) = false) ms ->
  rawbuf t = rawbuf s -> rawlen t = rawlen s ->
  fst (first_success ms t) = false /\
  rawbuf (snd (first_success ms t)) = rawbuf s /\
  rawlen (snd (first_success ms t)) = rawlen s.
Proof.
  induction ms as [|m ms IH]; intros s t Hin Hall Hb Hl; simpl; [auto|].
  inversion Hall as [|? ? Hm Hms]; subst.
  pose proof (matcher_reads_frame K m t s (Hin m (or_introl eq_refl)) Hb Hl) as Hr.
  pose proof (matcher_keeps K m t (Hin m (or_introl eq_refl))) as (_ & _ & Hb' & Hl' & _).
  destruct (m t) as [ok t']. simpl in Hr, Hb', Hl'. rewrite Hr, Hm.
  apply IH; [intros m' H; apply Hin; right; exact H | exact Hms | congruence | congruence].
Qed.

Lemma protocol_matchers_in m : In m (protocol_matchers K) -> In m (matchers K).
Proof. rewrite matchers_split. intros H. apply in_or_app. left. exact H. Qed.

Lemma decode_hash s :
  rcvstate s = STATE_STOP -> 6 <= rawlen s -> all_protocols_fail K s ->
  fst (decode K s) = true /\
  decode_type (snd (decode K s)) = UNKNOWN /\
  bits (snd (decode K s)) = 32 /\
  value (snd (decode K s)) = fnv1 (classes (rawbuf s) (rawlen s)).
Proof.
  intros Hst Hlen Hall. unfold decode. rewrite Hst. cbn [rcvstate_eqb negb].
  rewrite matchers_split, first_success_app.
  destruct (first_success_all_fail (protocol_matchers K) s s
              protocol_matchers_in Hall eq_refl eq_refl) as (Hf & Hb & Hl).
  rewrite Hf. cbn [first_success]. unfold decodeHash. rewrite Hl, Hb.
  destruct (Z.ltb_spec (rawlen s) 6); [lia|]. simpl.
  repeat split. rewrite classes_compare. unfold fnv1. apply hash_loop_fnv1.
  rewrite ulong_long. reflexivity.
Qed.

(** C4.  Take two stopped buffers of at least 6 entries each on which
    every protocol matcher fails.  On the first, decode succeeds with tag
    UNKNOWN, 32 bits and, as value, the FNV-1 hash (basis 2166136261, prime
    16777619, modulo 2^32) of the classes of entry i + 2 against entry i for
    i from 1 while i + 2 is below the entry count, the class being the
    spec's: 0 (shorter) if the newer entry is less than 0.8 times the older,
    2 (longer) if the older is less than 0.8 times the newer, else 1
    (equal).  If the second has the
    same cells and count, decode gives it the same value; if its classes
    differ from those of the first in exactly one place, decode gives it a
    different value. *)
Theorem hash_fallback s s' :
  rcvstate s = STATE_STOP -> 6 <= rawlen s -> all_protocols_fail K s ->
  rcvstate s' = STATE_STOP -> 6 <= rawlen s' -> all_protocols_fail K s' ->
  (fst (decode K s) = true /\
   decode_type (snd (decode K s)) = UNKNOWN /\
   bits (snd (decode K s)) = 32 /\
   value (snd (decode K s)) = fnv1 (classes (rawbuf s) (rawlen s))) /\
  (rawbuf s' = rawbuf s -> rawlen s' = rawlen s ->
   value (snd (decode K s')) = value (snd (decode K s))) /\
  (single_flip (classes (rawbuf s) (rawlen s)) (classes (rawbuf s') (rawlen s')) ->
   value (snd (decode K s')) <> value (snd (decode K s))).
Proof.
  intros Hst Hlen Hall Hst' Hlen' Hall'.
  pose proof (decode_hash s Hst Hlen Hall) as (H1 & H2 & H3 & H4).
  pose proof (decode_hash s' Hst' Hlen' Hall') as (_ & _ & _ & H4').
  split; [auto|]. rewrite H4, H4'. split.
  - intros -> ->. reflexivity.
  - intros Hflip E. symmetry in E. revert E.
    apply fnv1_single_flip; [apply classes_range | apply classes_range | exact Hflip].
Qed.

End Hash.

Lemma even6_unrecognised : all_protocols_fail refInt even6.
Proof. repeat constructor. Qed.

Lemma last_doubled6_unrecognised : all_protocols_fail refInt last_doubled6.
Proof. repeat constructor. Qed.

Lemma last_halved6_unrecognised : all_protocols_fail refInt last_halved6.
Proof. repeat constructor. Qed.

Lemma hash_fallback_witness :
  classes (rawbuf last_doubled6) (rawlen last_doubled6)
    = [class_code Equal; class_code Equal; class_code Longer] /\
  classes (rawbuf last_halved6) (rawlen last_halved6)
    = [class_code Equal; class_code Equal; class_code Shorter] /\
  value (snd (decode refInt last_doubled6)) = fnv1 [1; 1; 2] /\
  value (snd (decode refInt last_halved6)) <> value (snd (decode refInt last_doubled6)).
Proof.
  pose proof (hash_fallback refInt last_doubled6 last_halved6 eq_refl
                ltac:(vm_compute; discriminate) last_doubled6_unrecognised eq_refl
                ltac:(vm_compute; discriminate) last_halved6_unrecognised)
    as ((_ & _ & _ & Hv) & _ & Hflip).
  split; [reflexivity|]. split; [reflexivity|]. split; [exact Hv|].
  apply Hflip. exists [1; 1], 2, 0, []. repeat split. discriminate.
Defined.

(** ** Frames of fewer than 6 entries *)

Section ShortFrames.
Variable K : LRremoteInt.

Lemma short_NEC s :
  guards_exclude_short K -> 0 <= rawlen s < 6 ->
  decodeNEC K s =
    (if nec_repeat_shape K s
     then (true, set_decode_type NEC (set_value REPEAT (set_bits 0 s)))
     else (false, s)).
Proof.
  intros G Hlen. unfold guards_exclude_short in G.
  unfold decodeNEC, nec_repeat_shape. cbv zeta.
  change (1 + 1 + 1) with 3. change (1 + 1) with 2.
  destruct (MATCH_MARK K (at_ (rawbuf s) 1) (NEC_HDR_MARK K)); cbn [negb andb];
    [|reflexivity].
  destruct ((rawlen s =? 4) && MATCH_SPACE K (at_ (rawbuf s) 2) (NEC_RPT_SPACE K)
            && MATCH_MARK K (at_ (rawbuf s) 3) (NEC_BIT_MARK K)); [reflexivity|].
  length_guard. reflexivity.
Qed.

Lemma short_SAMSUNG s :
  guards_exclude_short K -> 0 <= rawlen s < 6 ->
  decodeSAMSUNG K s =
    (if samsung_repeat_shape K s
     then (true, set_decode_type SAMSUNG (set_value REPEAT (set_bits 0 s)))
     else (false, s)).
Proof.
  intros G Hlen. unfold guards_exclude_short in G.
  unfold decodeSAMSUNG, samsung_repeat_shape. cbv zeta.
  change (1 + 1 + 1) with 3. change (1 + 1) with 2.
  destruct (MATCH_MARK K (at_ (rawbuf s) 1) (SAMSUNG_HDR_MARK K)); cbn [negb andb];
    [|reflexivity].
  destruct ((rawlen s =? 4) && MATCH_SPACE K (at_ (rawbuf s) 2) (SAMSUNG_RPT_SPACE K)
            && MATCH_MARK K (at_ (rawbuf s) 3) (SAMSUNG_BIT_MARK K)); [reflexivity|].
  length_guard. reflexivity.
Qed.

(** The matchers that test the entry count before anything they could
    accept. *)
Lemma short_guarded s :
  guards_exclude_short K -> 0 <= rawlen s < 6 ->
  decodeSony K s = (false, s) /\ decodeSanyo K s = (false, s) /\
  decodeMitsubishi K s = (false, s) /\ decodeRC5 K s = (false, s) /\
  decodeLG K s = (false, s) /\ decodeJVC K s = (false, s) /\
  decodeHash s = (false, s).
Proof.
  intros G Hlen. unfold guards_exclude_short in G.
  repeat split.
  - unfold decodeSony. length_guard. reflexivity.
  - unfold decodeSanyo. length_guard. reflexivity.
  - unfold decodeMitsubishi. length_guard. reflexivity.
  - unfold decodeRC5. cbv zeta. length_guard. reflexivity.
  - unfold decodeLG. cbv zeta.
    destruct (MATCH_MARK K (at_ (rawbuf s) 1) (LG_HDR_MARK K)); cbn [negb];
      [length_guard|]; reflexivity.
  - unfold decodeJVC. cbv zeta.
    destruct (Z.eqb_spec (uint (rawlen s - 1)) 33) as [E|_].
    { exfalso. unfold uint in E.
      destruct (Z.eq_dec (rawlen s) 0) as [Z0|NZ].
      - rewrite Z0 in E. vm_compute in E. discriminate.
      - rewrite Z.mod_small in E by lia. lia. }
    cbn [andb].
    destruct (MATCH_MARK K (at_ (rawbuf s) 1) (JVC_HDR_MARK K)); cbn [negb];
      [length_guard|]; reflexivity.
  - unfold decodeHash. length_guard. reflexivity.
Qed.

Lemma decodeRC6_failure s : fst (decodeRC6 K s) = false -> snd (decodeRC6 K s) = s.
Proof. unfold decodeRC6. repeat case_match; simpl; intros; try discriminate; reflexivity. Qed.

Lemma decodePanasonic_failure s :
  fst (decodePanasonic K s) = false -> snd (decodePanasonic K s) = s.
Proof.
  unfold decodePanasonic. repeat case_match; simpl; intros; try discriminate; reflexivity.
Qed.

(** Whatever the header, four entries of the repeat shape of decodeNEC
    make decode succeed. *)
Lemma nec_repeat_accepted s :
  rcvstate s = STATE_STOP -> nec_repeat_shape K s = true ->
  decode K s = (true, set_decode_type NEC (set_value REPEAT (set_bits 0 s))).
Proof.
  intros Hst Hshape. unfold nec_repeat_shape in Hshape.
  apply andb_prop in Hshape as [Hshape Hbm]. apply andb_prop in Hshape as [Hshape Hsp].
  apply andb_prop in Hshape as [Hhm Hlen].
  unfold decode, matchers. rewrite Hst. cbn [rcvstate_eqb negb first_success].
  unfold decodeNEC. cbv zeta. change (1 + 1 + 1) with 3. change (1 + 1) with 2.
  rewrite Hhm, Hlen, Hsp, Hbm. reflexivity.
Qed.

(** C8.  Let every length guard of the header lie at 6 or above.  On a
    stopped buffer of fewer than 6 entries that decodePanasonic does not
    accept, decode succeeds in three cases only: the 4-entry repeat shape
    of decodeNEC (tag NEC, repeat value, 0 bits), a frame decodeRC6 accepts
    (its guard is MIN_RC6_SAMPLES alone), and the 4-entry repeat shape of
    decodeSAMSUNG.  In every other case no matcher succeeds, the hash
    included; decode returns false and resumes capturing. *)
Theorem short_frame_decode s :
  guards_exclude_short K -> rcvstate s = STATE_STOP -> 0 <= rawlen s < 6 ->
  fst (decodePanasonic K s) = false ->
  decode K s =
    (if nec_repeat_shape K s
     then (true, set_decode_type NEC (set_value REPEAT (set_bits 0 s)))
     else if fst (decodeRC6 K s) then decodeRC6 K s
     else if samsung_repeat_shape K s
     then (true, set_decode_type SAMSUNG (set_value REPEAT (set_bits 0 s)))
     else (false, resume s)).
Proof.
  intros G Hst Hlen Hpana.
  destruct (short_guarded s G Hlen) as (Esony & Esanyo & Emitsu & Erc5 & Elg & Ejvc & Ehash).
  unfold decode, matchers. rewrite Hst. cbn [rcvstate_eqb negb first_success].
  rewrite (short_NEC s G Hlen).
  destruct (nec_repeat_shape K s); [reflexivity|].
  rewrite Esony, Esanyo, Emitsu, Erc5.
  pose proof (decodeRC6_failure s) as Hrc6.
  destruct (decodeRC6 K s) as [[|] t]; [reflexivity|].
  simpl in Hrc6. rewrite (Hrc6 eq_refl). cbn [fst].
  pose proof (decodePanasonic_failure s Hpana) as Hp.
  destruct (decodePanasonic K s) as [okp tp]. simpl in Hpana, Hp. subst okp tp.
  rewrite Elg, Ejvc, (short_SAMSUNG s G Hlen).
  destruct (samsung_repeat_shape K s); [reflexivity|].
  rewrite Ehash. reflexivity.
Qed.

End ShortFrames.

Lemma refInt_guards : guards_exclude_short refInt.
Proof. vm_compute. repeat split; discriminate. Qed.

Lemma short_frame_decode_witness :
  decode refInt nec_repeat =
    (true, set_decode_type NEC (set_value REPEAT (set_bits 0 nec_repeat))) /\
  decode refInt blip = (false, resume blip).
Proof.
  split.
  - pose proof (short_frame_decode refInt nec_repeat refInt_guards) as H.
    specialize (H ltac:(vm_compute; reflexivity)
                  ltac:(vm_compute; split; [discriminate | reflexivity])
                  ltac:(vm_compute; reflexivity)).
    replace (nec_repeat_shape refInt nec_repeat) with true in H
      by (vm_compute; reflexivity).
    exact H.
  - pose proof (short_frame_decode refInt blip refInt_guards) as H.
    specialize (H ltac:(vm_compute; reflexivity)
                  ltac:(vm_compute; split; [discriminate | reflexivity])
                  ltac:(vm_compute; reflexivity)).
    replace (nec_repeat_shape refInt blip) with false in H by (vm_compute; reflexivity).
    replace (fst (decodeRC6 refInt blip)) with false in H by (vm_compute; reflexivity).
    replace (samsung_repeat_shape refInt blip) with false in H
      by (vm_compute; reflexivity).
    exact H.
Defined.

(** C8, as stated, fails: the buffer holds the 4 entries of a Protocol-A
    repeat frame and decode succeeds on it. *)
Lemma short_repeat_frame_decodes :
  reachable refInt nec_repeat /\
  rcvstate nec_repeat = STATE_STOP /\ rawlen nec_repeat = 4 /\
  fst (decode refInt nec_repeat) = true /\
  value (snd (decode refInt nec_repeat)) = REPEAT /\
  ~ fst (decode refInt nec_repeat) = false.
Proof.
  split; [apply reachable_run, reach_init, fresh_constructed|].
  vm_compute. repeat (split; [reflexivity|]). discriminate.
Qed.

(** ** The dispatcher *)

Lemma find_code_none p code : forall k,
  (forall x, In x code -> p x = false) ->
  find_code p code k = k + Z.of_nat (length code).
Proof.
  induction code as [|c code IH]; intros k H; simpl find_code.
  - simpl. lia.
  - rewrite (H c (or_introl eq_refl)), IH by (intros x Hx; apply H; right; exact Hx).
    simpl length. lia.
Qed.

Lemma find_code_found p code : forall k,
  find_code p code k < k + Z.of_nat (length code) ->
  exists x, In x code /\ p x = true.
Proof.
  induction code as [|c code IH]; intros k H; simpl in H.
  - lia.
  - destruct (p c) eqn:E.
    + exists c. split; [left; reflexivity | exact E].
    + destruct (IH (k + 1)) as (x & Hx & Hp); [lia|].
      exists x. split; [right; exact Hx | exact Hp].
Qed.

Lemma find_code_ext p q code : forall k,
  (forall x, In x code -> p x = q x) -> find_code p code k = find_code q code k.
Proof.
  induction code as [|c code IH]; intros k H; simpl; [reflexivity|].
  rewrite <- (H c (or_introl eq_refl)).
  destruct (p c); [reflexivity|]. apply IH. intros x Hx. apply H. right. exact Hx.
Qed.

(** Looking a value up among the codes as [unsigned long] and looking its
    conversion to [long] up as [long] find the same entry. *)
Lemma find_code_long code v k :
  Forall is_long code -> 0 <= v < 2 ^ 32 ->
  find_code (fun x => v =? ulong x) code k = find_code (fun x => long v =? x) code k.
Proof.
  intros Hcode Hv. apply find_code_ext. intros x Hx.
  rewrite List.Forall_forall in Hcode. pose proof (Hcode x Hx) as Hlong.
  destruct (Z.eqb_spec v (ulong x)) as [E|N], (Z.eqb_spec (long v) x) as [E'|N'];
    try reflexivity; exfalso.
  - apply N'. rewrite E. apply long_ulong. exact Hlong.
  - apply N. rewrite <- E', ulong_long. unfold ulong. rewrite Z.mod_small; auto.
Qed.

Lemma polls_cons K code c cs s :
  polls K code (c :: cs) s =
  ((fst (fst (onButton K code (captured c s))), snd (onButton K code (captured c s)))
     :: fst (polls K code cs (snd (fst (onButton K code (captured c s))))),
   snd (polls K code cs (snd (fst (onButton K code (captured c s)))))).
Proof.
  cbn [polls]. destruct (onButton K code (captured c s)) as [[h t] i]. cbn [fst snd].
  destruct (polls K code cs t). reflexivity.
Qed.

Section Dispatcher.
Variable K : LRremoteInt.
Variable code : list Z.

(** A poll whose decoded value is one of the codes. *)
Lemma onButton_mapped s k :
  fst (decode K s) = true ->
  find_code (fun x => value (snd (decode K s)) =? ulong x) code 0 = k ->
  k < Z.of_nat (length code) ->
  onButton K code s =
    (true,
     resume (set_lastValue (long (value (snd (decode K s))))
               (set_repeat 0 (snd (decode K s)))),
     [k]).
Proof.
  intros Hok Hk Hlt. unfold onButton.
  destruct (decode K s) as [ok d]. simpl in Hok, Hk. subst ok. rewrite Hk.
  destruct (Z.ltb_spec k (Z.of_nat (length code))); [|lia].
  destruct (Z.leb_spec (Z.of_nat (length code)) k); [lia|]. reflexivity.
Qed.

(** A poll that decodes the repeat value while no code is the repeat
    value. *)
Lemma onButton_repeat c s :
  repeat_unmapped code -> decodes_to K c REPEAT ->
  - 2 ^ 15 <= repeat s + 1 < 2 ^ 15 ->
  exists t,
    onButton K code (captured c s) =
      (if repeat s + 1 <? REPEAT_PAUSE then (false, t, [])
       else if find_code (fun x => lastValue s =? x) code 0 <? Z.of_nat (length code)
       then (true, t, [find_code (fun x => lastValue s =? x) code 0])
       else (false, t, [])) /\
    lastValue t = lastValue s /\ repeat t = repeat s + 1.
Proof.
  intros Hun Hdec Hrange.
  exists (resume (set_repeat (repeat s + 1) (snd (decode K (captured c s))))).
  destruct (Hdec s) as [Hok Hval].
  destruct (decode_keeps_debounce K (captured c s)) as [Hl Hr].
  unfold onButton. destruct (decode K (captured c s)) as [ok d].
  simpl in Hok, Hval, Hl, Hr |- *. subst ok. rewrite Hval.
  rewrite (find_code_none _ code 0)
    by (intros x Hx; apply Z.eqb_neq; intros E; apply (Hun x Hx); congruence).
  rewrite Z.add_0_l, Z.ltb_irrefl, Z.leb_refl. cbn [andb].
  rewrite Hval, Z.eqb_refl, Hr, Hl, (int_small (repeat s + 1)) by exact Hrange.
  split; [|split; reflexivity].
  destruct (repeat s + 1 <? REPEAT_PAUSE); reflexivity.
Qed.

(** C2.  Let no code be the repeat value.  After a poll whose decoded value
    is the code at index k (the poll invokes button function k, reports it
    handled, clears the repeat counter and remembers the value), the first
    two polls that decode the repeat value invoke nothing and report
    nothing handled, and the third invokes button function k, once, and
    reports it handled. *)
Theorem debounce_absorbs_two_repeats s c1 c2 c3 k :
  Forall is_long code -> repeat_unmapped code ->
  fst (decode K s) = true ->
  find_code (fun x => value (snd (decode K s)) =? ulong x) code 0 = k ->
  k < Z.of_nat (length code) ->
  decodes_to K c1 REPEAT -> decodes_to K c2 REPEAT -> decodes_to K c3 REPEAT ->
  exists t,
    onButton K code s = (true, t, [k]) /\
    repeat t = 0 /\ lastValue t = long (value (snd (decode K s))) /\
    fst (polls K code [c1; c2; c3] t) = [(false, []); (false, []); (true, [k])].
Proof.
  intros Hlong Hun Hok Hk Hlt H1 H2 H3.
  eexists. split; [apply (onButton_mapped s k Hok Hk Hlt)|].
  split; [reflexivity|]. split; [reflexivity|].
  set (t0 := resume _).
  assert (find_code (fun x => lastValue t0 =? x) code 0 = k) as Hfind.
  { subst t0. cbn [lastValue resume set_rcvstate set_rawlen set_lastValue].
    rewrite <- find_code_long; [exact Hk | exact Hlong |].
    destruct (find_code_found (fun x => value (snd (decode K s)) =? ulong x) code 0)
      as (x & _ & Hx); [rewrite Hk; lia|].
    apply Z.eqb_eq in Hx. rewrite Hx. apply Z.mod_pos_bound. lia. }
  assert (repeat t0 = 0) as Hr0 by reflexivity.
  destruct (onButton_repeat c1 t0 Hun H1) as (t1 & E1 & Hl1 & Hr1);
    [rewrite Hr0; lia|].
  rewrite Hr0 in E1, Hr1. change (0 + 1 <? REPEAT_PAUSE) with true in E1. cbn iota in E1.
  destruct (onButton_repeat c2 t1 Hun H2) as (t2 & E2 & Hl2 & Hr2);
    [rewrite Hr1; lia|].
  rewrite Hr1 in E2, Hr2. change (0 + 1 + 1 <? REPEAT_PAUSE) with true in E2.
  cbn iota in E2.
  destruct (onButton_repeat c3 t2 Hun H3) as (t3 & E3 & Hl3 & Hr3);
    [rewrite Hr2; lia|].
  rewrite Hr2, Hl2, Hl1, Hfind in E3.
  change (0 + 1 + 1 + 1 <? REPEAT_PAUSE) with false in E3. cbn iota in E3.
  destruct (Z.ltb_spec k (Z.of_nat (length code))); [|lia].
  rewrite !polls_cons, E1. cbn [fst snd]. rewrite E2. cbn [fst snd]. rewrite E3.
  reflexivity.
Qed.





End Dispatcher.

Lemma code_ex_long : Forall is_long code_ex.
Proof.
  constructor; [|constructor; [|constructor]];
    vm_compute; (split; [discriminate | reflexivity]).
Qed.

Lemma code_ex_unmapped : repeat_unmapped code_ex.
Proof.
  intros x [<- | [<- | []]]; vm_compute; discriminate.
Qed.

Lemma repeat_capture_decodes : decodes_to refInt repeat_capture REPEAT.
Proof. intros s. split; reflexivity. Qed.

Lemma debounce_absorbs_two_repeats_witness :
  exists t,
    onButton refInt code_ex pressed = (true, t, [1]) /\
    repeat t = 0 /\ lastValue t = long (value (snd (decode refInt pressed))) /\
    fst (polls refInt code_ex [repeat_capture; repeat_capture; repeat_capture] t)
      = [(false, []); (false, []); (true, [1])].
Proof.
  apply (debounce_absorbs_two_repeats refInt code_ex pressed
           repeat_capture repeat_capture repeat_capture 1).
  - exact code_ex_long.
  - exact code_ex_unmapped.
  - reflexivity.
  - reflexivity.
  - reflexivity.
  - exact repeat_capture_decodes.
  - exact repeat_capture_decodes.
  - exact repeat_capture_decodes.
Defined.






(** * Further properties of the code *)

(** ** The sampler: what a stopped buffer holds, and how it is filled *)



Section Shape.
Variable K : LRremoteInt.



End Shape.

Section Capture.
Variable K : LRremoteInt.
Hypothesis HG : 1 <= GAP_TICKS K < 2 ^ 16 - 1.

Lemma run_app a b s : run K (a ++ b) s = run K b (run K a s).
Proof. unfold run. apply fold_left_app. Qed.

Lemma run_cons l a s : run K (l :: a) s = run K a (fst (ISR K l s)).
Proof. reflexivity. Qed.

Lemma hold_timing l (k : nat) : forall t buf n s,
  n < RAWBUF -> 0 <= t -> t + Z.of_nat k < 2 ^ 16 ->
  (l = SPACE -> t + Z.of_nat k < GAP_TICKS K) ->
  run K (replicate k l) (sampling (timing l) t buf n s)
  = sampling (timing l) (t + Z.of_nat k) buf n s.
Proof.
  induction k as [|k IH]; intros t buf n s Hn Ht Hk Hgap.
  - simpl. rewrite Z.add_0_r. reflexivity.
  - cbn [replicate]. rewrite run_cons.
    assert (fst (ISR K l (sampling (timing l) t buf n s))
            = sampling (timing l) (t + 1) buf n s) as E.
    { unfold ISR, sampling, captured. cbn.
      destruct (Z.leb_spec RAWBUF n); [lia|].
      rewrite uint_small by lia.
      destruct l; cbn.
      - reflexivity.
      - specialize (Hgap eq_refl).
        destruct (Z.leb_spec (GAP_TICKS K) (t + 1)); [lia|]. reflexivity. }
    rewrite E, IH; try lia.
    + f_equal. lia.
    + intros El. specialize (Hgap El). lia.
Qed.

Lemma end_pulse l t buf n s :
  n < RAWBUF -> 0 <= n -> 0 <= t -> t + 1 < 2 ^ 16 ->
  fst (ISR K (other l) (sampling (timing l) t buf n s))
  = sampling (timing (other l)) 0 (<[Z.to_nat n := t + 1]> buf) (n + 1) s.
Proof.
  intros Hn Hn0 Ht Ht1. unfold ISR, sampling, captured. cbn.
  destruct (Z.leb_spec RAWBUF n); [lia|].
  rewrite uint_small by lia.
  destruct l; cbn; unfold record_duration; cbn; rewrite uint_small by (unfold RAWBUF in *; lia);
    reflexivity.
Qed.

Lemma pulse_end_run l d buf n s :
  n < RAWBUF -> 0 <= n -> fits K l d ->
  run K (replicate (Z.to_nat (d - 1)) l ++ [other l]) (sampling (timing l) 0 buf n s)
  = sampling (timing (other l)) 0 (<[Z.to_nat n := d]> buf) (n + 1) s.
Proof.
  intros Hn Hn0 [Hd Hs]. rewrite run_app, hold_timing; try lia.
  - rewrite run_cons. cbn [run fold_left]. rewrite end_pulse by lia.
    do 2 f_equal. lia.
  - intros El. specialize (Hs El). lia.
Qed.

Lemma pulse_ends_run ds : forall l buf n s,
  0 <= n -> n + Z.of_nat (length ds) <= RAWBUF -> Z.of_nat (length buf) = RAWBUF ->
  all_fit K ds l ->
  run K (pulse_ends ds l) (sampling (timing l) 0 buf n s)
  = sampling (timing (next_level ds l)) 0
      (take (Z.to_nat n) buf ++ ds ++ drop (Z.to_nat n + length ds) buf)
      (n + Z.of_nat (length ds)) s.
Proof.
  induction ds as [|d ds IH]; intros l buf n s Hn0 Hn Hbuf Hfit.
  - cbn. rewrite Z.add_0_r, Nat.add_0_r, take_drop. reflexivity.
  - destruct Hfit as [Hd Hfit]. cbn [pulse_ends length] in *.
    replace (replicate (Z.to_nat (d - 1)) l ++ other l :: pulse_ends ds (other l))
      with ((replicate (Z.to_nat (d - 1)) l ++ [other l]) ++ pulse_ends ds (other l))
      by (rewrite <- app_assoc; reflexivity).
    rewrite run_app, pulse_end_run by (auto; lia).
    rewrite IH; try lia; try assumption.
    2:{ rewrite length_insert. exact Hbuf. }
    cbn [next_level].
    replace (Z.to_nat (n + 1)) with (S (Z.to_nat n)) by lia.
    assert (Z.to_nat n < length buf)%nat as Hlt by (unfold RAWBUF in *; lia).
    rewrite (take_S_r _ _ d) by (apply list_lookup_insert_eq; exact Hlt).
    rewrite take_insert_ge by lia.
    rewrite drop_insert_lt by lia.
    rewrite <- app_assoc. cbn [app].
    replace (S (Z.to_nat n) + length ds)%nat with (Z.to_nat n + S (length ds))%nat by lia.
    f_equal. lia.
Qed.

Lemma other_other l : other (other l) = l.
Proof. destruct l; reflexivity. Qed.

Lemma next_level_parity ds : forall l,
  next_level ds l = if Nat.even (length ds) then l else other l.
Proof.
  induction ds as [|d ds IH]; intros l; [reflexivity|].
  cbn [next_level length]. rewrite IH, Nat.even_succ, <- Nat.negb_even, other_other.
  destruct (Nat.even (length ds)); reflexivity.
Qed.

(** regrouping the ticks of a train of pulses: the first tick, then what ends each pulse *)
Lemma pulses_regroup ds : forall l rest,
  ds <> [] -> Forall (fun d => 1 <= d) ds ->
  pulses ds l ++ next_level ds l :: rest = l :: pulse_ends ds l ++ rest.
Proof.
  induction ds as [|d ds IH]; intros l rest Hne Hpos; [congruence|].
  inversion Hpos as [|? ? Hd Hds]; subst. cbn [pulses pulse_ends next_level].
  replace (Z.to_nat d) with (S (Z.to_nat (d - 1))) by lia. cbn [replicate].
  rewrite <- !app_assoc. cbn [app]. f_equal. f_equal.
  destruct ds as [|d' ds'].
  - reflexivity.
  - rewrite (IH (other l) rest) by (congruence || assumption). reflexivity.
Qed.

Lemma all_fit_pos ds : forall l, all_fit K ds l -> Forall (fun d => 1 <= d) ds.
Proof.
  induction ds as [|d ds IH]; intros l H; constructor.
  - destruct H as [[H _] _]. lia.
  - destruct H as [_ H]. apply (IH _ H).
Qed.

Lemma hold_idle (k : nat) : forall t buf n s,
  n < RAWBUF -> 0 <= t <= GAP_TICKS K ->
  run K (replicate k SPACE) (sampling STATE_IDLE t buf n s)
  = sampling STATE_IDLE (Z.min (t + Z.of_nat k) (GAP_TICKS K)) buf n s.
Proof.
  induction k as [|k IH]; intros t buf n s Hn Ht.
  - simpl. rewrite Z.add_0_r, Z.min_l by lia. reflexivity.
  - cbn [replicate]. rewrite run_cons.
    assert (fst (ISR K SPACE (sampling STATE_IDLE t buf n s))
            = sampling STATE_IDLE (Z.min (t + 1) (GAP_TICKS K)) buf n s) as E.
    { unfold ISR, sampling, captured. cbn.
      destruct (Z.leb_spec RAWBUF n); [lia|].
      rewrite uint_small by lia. cbn.
      destruct (Z.ltb_spec (GAP_TICKS K) (t + 1)); cbn.
      - rewrite Z.min_r by lia. reflexivity.
      - rewrite Z.min_l by lia. reflexivity. }
    rewrite E, IH by lia. f_equal. lia.
Qed.

Lemma start_frame t buf n s :
  n < RAWBUF -> 0 <= t -> GAP_TICKS K <= t + 1 -> t + 1 < 2 ^ 16 ->
  fst (ISR K MARK (sampling STATE_IDLE t buf n s))
  = sampling STATE_MARK 0 (<[0%nat := t + 1]> buf) 1 s.
Proof.
  intros Hn Ht Hg Ht1. unfold ISR, sampling, captured. cbn.
  destruct (Z.leb_spec RAWBUF n); [lia|].
  rewrite uint_small by lia. cbn.
  destruct (Z.ltb_spec (t + 1) (GAP_TICKS K)); [lia|]. reflexivity.
Qed.

Lemma run_stopped input : forall s,
  input <> [] -> rawlen s = RAWBUF \/ rcvstate s = STATE_STOP ->
  rcvstate (run K input s) = STATE_STOP /\ rawbuf (run K input s) = rawbuf s /\
  rawlen (run K input s) = rawlen s.
Proof.
  induction input as [|l input IH]; intros s Hne Hs; [congruence|].
  rewrite run_cons.
  assert (rcvstate (fst (ISR K l s)) = STATE_STOP /\ snd (ISR K l s) = [] /\
          rawbuf (fst (ISR K l s)) = rawbuf s /\ rawlen (fst (ISR K l s)) = rawlen s)
    as (Hst & _ & Hb & Hl)
    by (destruct Hs; [apply ISR_full | apply ISR_stopped]; assumption).
  destruct input as [|l' input'].
  - cbn. auto.
  - destruct (IH (fst (ISR K l s)) ltac:(congruence) (or_intror Hst)) as (A & B & C).
    rewrite A, B, C. auto.
Qed.

(** the gap after the last pulse stops the sampler *)
Lemma trailing_gap buf n s :
  0 <= n <= RAWBUF ->
  rcvstate (run K (replicate (Z.to_nat (GAP_TICKS K)) SPACE)
              (sampling STATE_SPACE 0 buf n s)) = STATE_STOP /\
  rawbuf (run K (replicate (Z.to_nat (GAP_TICKS K)) SPACE)
              (sampling STATE_SPACE 0 buf n s)) = buf /\
  rawlen (run K (replicate (Z.to_nat (GAP_TICKS K)) SPACE)
              (sampling STATE_SPACE 0 buf n s)) = n.
Proof.
  intros Hn. destruct (Z.eq_dec n RAWBUF) as [Hfull|Hroom].
  - apply (run_stopped _ (sampling STATE_SPACE 0 buf n s)).
    + destruct (Z.to_nat (GAP_TICKS K)) eqn:E; [lia | discriminate].
    + left. exact Hfull.
  - replace (Z.to_nat (GAP_TICKS K)) with (Z.to_nat (GAP_TICKS K - 1) + 1)%nat by lia.
    rewrite replicate_add, run_app.
    rewrite (hold_timing SPACE) by lia.
    cbn [replicate run fold_left].
    unfold ISR, sampling, captured. cbn.
    destruct (Z.leb_spec RAWBUF n); [lia|].
    rewrite uint_small by lia. cbn.
    destruct (Z.leb_spec (GAP_TICKS K) (0 + Z.of_nat (Z.to_nat (GAP_TICKS K - 1)) + 1));
      [|lia].
    cbn. auto.
Qed.

Lemma transmission_recorded s g ds :
  rcvstate s = STATE_IDLE -> rawlen s = 0 -> 0 <= timer s <= GAP_TICKS K ->
  Z.of_nat (length (rawbuf s)) = RAWBUF ->
  0 <= g -> GAP_TICKS K - 1 <= timer s + g -> all_fit K ds MARK ->
  Nat.even (length ds) = false -> Z.of_nat (length ds) < RAWBUF ->
  rcvstate (run K (transmission K g ds) s) = STATE_STOP /\
  rawlen (run K (transmission K g ds) s) = 1 + Z.of_nat (length ds) /\
  rawbuf (run K (transmission K g ds) s)
    = (Z.min (timer s + g) (GAP_TICKS K) + 1) :: ds ++ drop (S (length ds)) (rawbuf s).
Proof.
  intros Hst Hl Ht Hbuf Hg0 Hg Hfit Hodd Hlen.
  assert (s = sampling STATE_IDLE (timer s) (rawbuf s) 0 s) as Es
    by (destruct s; cbn in *; subst; reflexivity).
  rewrite Es. cbn [timer rawbuf sampling captured set_rcvstate set_timer set_rawbuf
                   set_rawlen c_timer c_rawbuf].
  fold (sampling STATE_IDLE (timer s) (rawbuf s) 0 s).
  generalize (rawbuf s) Hbuf (timer s) Ht Hg. intros buf Hb t Ht' Hg'. clear Es.
  assert (ds <> []) as Hne by (intros ->; discriminate).
  set (gap := Z.min (t + Z.of_nat (Z.to_nat g)) (GAP_TICKS K) + 1).
  assert (run K (transmission K g ds) (sampling STATE_IDLE t buf 0 s)
          = run K (replicate (Z.to_nat (GAP_TICKS K)) SPACE)
              (sampling STATE_SPACE 0
                 (take (Z.to_nat 1) (<[0%nat:=gap]> buf) ++ ds
                  ++ drop (Z.to_nat 1 + length ds) (<[0%nat:=gap]> buf))
                 (1 + Z.of_nat (length ds)) s)) as E.
  { unfold transmission. rewrite run_app, hold_idle by (unfold RAWBUF; lia).
    replace (Z.to_nat (GAP_TICKS K + 1)) with (S (Z.to_nat (GAP_TICKS K))) by lia.
    cbn [replicate].
    replace SPACE with (next_level ds MARK) at 1
      by (rewrite next_level_parity, Hodd; reflexivity).
    rewrite pulses_regroup by (auto; eapply all_fit_pos; eauto).
    rewrite run_cons, start_frame by (unfold RAWBUF; lia).
    rewrite run_app.
    rewrite (pulse_ends_run ds MARK) by (rewrite ?length_insert; auto; lia).
    rewrite next_level_parity, Hodd. reflexivity. }
  rewrite E.
  match goal with
  | |- context [sampling STATE_SPACE 0 ?b ?n s] =>
      destruct (trailing_gap b n s) as (A & B & C); [lia|]
  end.
  split; [exact A|]. split; [exact C|]. rewrite B. subst gap.
  change (Z.to_nat 1) with 1%nat.
  rewrite drop_insert_lt by lia.
  destruct buf as [|b buf']; [simpl in Hb; unfold RAWBUF in Hb; lia|].
  cbn. f_equal. lia.
Qed.

Lemma idle_marks_discarded (m : nat) : forall t buf n s,
  n < RAWBUF -> 0 <= t -> t + 1 < GAP_TICKS K -> (1 <= m)%nat ->
  run K (replicate m MARK) (sampling STATE_IDLE t buf n s) = sampling STATE_IDLE 0 buf n s.
Proof.
  induction m as [|m IH]; intros t buf n s Hn Ht Hg Hm; [lia|].
  cbn [replicate]. rewrite run_cons.
  assert (fst (ISR K MARK (sampling STATE_IDLE t buf n s)) = sampling STATE_IDLE 0 buf n s) as E.
  { unfold ISR, sampling, captured. cbn.
    destruct (Z.leb_spec RAWBUF n); [lia|].
    rewrite uint_small by lia. cbn.
    destruct (Z.ltb_spec (t + 1) (GAP_TICKS K)); [|lia]. reflexivity. }
  rewrite E. destruct m as [|m']; [reflexivity|]. apply IH; lia.
Qed.

(** X2.  While the sampler idles with its tick counter at 0, idle stretches
    of fewer than GAP_TICKS - 1 ticks, each ended by a burst of one or more
    active ticks, record nothing: the whole state is as it was. *)
Theorem short_stretches_start_nothing stretches s :
  rcvstate s = STATE_IDLE -> timer s = 0 -> rawlen s < RAWBUF ->
  Forall (fun gm : Z * Z => 0 <= fst gm /\ fst gm + 1 < GAP_TICKS K /\ 1 <= snd gm)
    stretches ->
  run K (bursts stretches) s = s.
Proof.
  intros Hst Ht Hn Hall.
  assert (s = sampling STATE_IDLE 0 (rawbuf s) (rawlen s) s) as Es
    by (destruct s; cbn in *; subst; reflexivity).
  rewrite Es. cbn [rawbuf rawlen sampling captured set_rcvstate set_timer set_rawbuf
                   set_rawlen c_rawlen c_rawbuf].
  fold (sampling STATE_IDLE 0 (rawbuf s) (rawlen s) s).
  induction Hall as [|[g m] stretches (Hg0 & Hg & Hm) _ IH]; [reflexivity|].
  unfold bursts in *. cbn [flat_map fst snd] in *.
  rewrite <- !app_assoc, !run_app, hold_idle by lia.
  rewrite Z.min_l by lia.
  rewrite idle_marks_discarded by lia. exact IH.
Qed.
(** X3.  While the sampler waits, a transmission is recorded as it was
    sent.  The transmission: idle ticks that, with the ticks already
    counted, reach GAP_TICKS - 1; an odd number of pulses, fewer than RAWBUF,
    the first one active, each of at least one tick and inside an unsigned
    int, no space beyond GAP_TICKS; then GAP_TICKS + 1 idle ticks.  The
    sampler ends stopped, with one entry for the gap (the idle count capped
    at GAP_TICKS, plus one) and one per pulse, holding the durations of the
    pulses in order; the cells behind them are untouched. *)
Theorem sampler_records_transmission s g ds :
  waiting K s -> 0 <= g -> GAP_TICKS K - 1 <= timer s + g ->
  all_fit K ds MARK -> Nat.even (length ds) = false -> Z.of_nat (length ds) < RAWBUF ->
  rcvstate (run K (transmission K g ds) s) = STATE_STOP /\
  rawlen (run K (transmission K g ds) s) = 1 + Z.of_nat (length ds) /\
  rawbuf (run K (transmission K g ds) s)
    = (Z.min (timer s + g) (GAP_TICKS K) + 1) :: ds ++ drop (S (length ds)) (rawbuf s).
Proof.
  intros (Hst & Hl & Ht & Hbuf). apply transmission_recorded; assumption.
Qed.

(** X4.  Once the sampler has stopped it stays stopped and keeps the buffer
    and the entry count, whatever the receiver shows, for as long as resume
    is not called. *)
Theorem stopped_frame_kept input s :
  rcvstate s = STATE_STOP ->
  rcvstate (run K input s) = STATE_STOP /\ rawbuf (run K input s) = rawbuf s /\
  rawlen (run K input s) = rawlen s.
Proof.
  intros Hst. destruct input as [|l input]; [auto|].
  apply run_stopped; [discriminate | right; exact Hst].
Qed.

(** X5.  A transmission too long for the buffer is cut.  While the sampler
    waits, enough idle ticks and RAWBUF - 1 recordable pulses, the first
    one active, fill the buffer with the gap and the durations of these
    pulses; from the second tick after the last of them on, whatever the
    receiver shows, the sampler is stopped with RAWBUF entries and the
    buffer as it is. *)
Theorem long_transmission_cut s g ds l more :
  waiting K s -> 0 <= g -> GAP_TICKS K - 1 <= timer s + g ->
  all_fit K ds MARK -> Z.of_nat (length ds) = RAWBUF - 1 ->
  let s' := run K (replicate (Z.to_nat g) SPACE ++ pulses ds MARK ++ SPACE :: l :: more) s in
  rcvstate s' = STATE_STOP /\ rawlen s' = RAWBUF /\
  rawbuf s' = (Z.min (timer s + g) (GAP_TICKS K) + 1) :: ds.
Proof.
  intros (Hst & Hl & Ht & Hbuf) Hg0 Hg Hfit Hlen. cbv zeta.
  assert (s = sampling STATE_IDLE (timer s) (rawbuf s) 0 s) as Es
    by (destruct s; cbn in *; subst; reflexivity).
  rewrite Es. cbn [timer rawbuf sampling captured set_rcvstate set_timer set_rawbuf
                   set_rawlen c_timer c_rawbuf].
  fold (sampling STATE_IDLE (timer s) (rawbuf s) 0 s).
  generalize (rawbuf s) Hbuf (timer s) Ht Hg. intros buf Hb t Ht' Hg'. clear Es.
  assert (ds <> []) as Hne by (intros ->; cbn in Hlen; unfold RAWBUF in Hlen; lia).
  assert (Nat.even (length ds) = false) as Hodd.
  { replace (length ds) with 99%nat by (unfold RAWBUF in Hlen; lia). reflexivity. }
  set (gap := Z.min (t + Z.of_nat (Z.to_nat g)) (GAP_TICKS K) + 1).
  assert (run K (replicate (Z.to_nat g) SPACE ++ pulses ds MARK ++ SPACE :: l :: more)
            (sampling STATE_IDLE t buf 0 s)
          = run K (l :: more)
              (sampling STATE_SPACE 0
                 (take (Z.to_nat 1) (<[0%nat:=gap]> buf) ++ ds
                  ++ drop (Z.to_nat 1 + length ds) (<[0%nat:=gap]> buf))
                 (1 + Z.of_nat (length ds)) s)) as E.
  { rewrite run_app, hold_idle by (unfold RAWBUF; lia).
    replace SPACE with (next_level ds MARK) at 1
      by (rewrite next_level_parity, Hodd; reflexivity).
    rewrite pulses_regroup by (auto; eapply all_fit_pos; eauto).
    rewrite run_cons, start_frame by (unfold RAWBUF; lia).
    rewrite run_app.
    rewrite (pulse_ends_run ds MARK) by (rewrite ?length_insert; auto; lia).
    rewrite next_level_parity, Hodd. reflexivity. }
  rewrite E.
  match goal with
  | |- context [run K (l :: more) ?st] =>
      destruct (run_stopped (l :: more) st) as (A & B & C);
        [discriminate | left; cbn; lia |]
  end.
  split; [exact A|]. split; [rewrite C; cbn; lia|]. rewrite B. cbn [rawbuf sampling captured
    set_rcvstate set_timer set_rawbuf set_rawlen c_rawbuf]. subst gap.
  change (Z.to_nat 1) with 1%nat.
  rewrite drop_insert_lt by lia.
  rewrite drop_ge by (unfold RAWBUF in *; lia).
  destruct buf as [|b buf']; [simpl in Hb; unfold RAWBUF in Hb; lia|].
  cbn. rewrite app_nil_r. f_equal. lia.
Qed.
End Capture.

(** ** Frames of the protocols with a bit in the length of the space *)

Lemma fold_mod_congr m (payload : list bool) a a' :
  a mod m = a' mod m ->
  fold_left (fun acc (b : bool) => 2 * acc + Z.b2z b) payload a mod m =
  fold_left (fun acc (b : bool) => 2 * acc + Z.b2z b) payload a' mod m.
Proof.
  revert a a'. induction payload as [|b l IH]; intros a a' H; simpl; [exact H|].
  apply IH. rewrite <- (mod_lin _ 2 a), <- (mod_lin _ 2 a'), H. reflexivity.
Qed.

Lemma ulonglong_data (payload : list bool) d :
  0 <= d < 2 ^ 64 ->
  fold_left (fun d (b : bool) => if b then shl1_ull d else shl0_ull d) payload d =
  fold_left (fun acc (b : bool) => 2 * acc + Z.b2z b) payload d mod 2 ^ 64.
Proof.
  revert d. induction payload as [|b l IH]; intros d Hd; simpl.
  - rewrite Z.mod_small by exact Hd. reflexivity.
  - assert ((if b then shl1_ull d else shl0_ull d) = (2 * d + Z.b2z b) mod 2 ^ 64) as E.
    { unfold shl1_ull, shl0_ull, ulonglong. destruct b; rewrite ?lor1, ?shiftl1; simpl Z.b2z;
        f_equal; lia. }
    rewrite E, IH by (apply Z.mod_pos_bound; lia).
    apply fold_mod_congr. apply Z.mod_mod. lia.
Qed.

Section Frames.
Variable K : LRremoteInt.

Lemma space_coded_any bit_mark one_space zero_space (one zero : Z -> Z) bm s0 s1 payload :
  MATCH_MARK K bm bit_mark = true ->
  MATCH_SPACE K s1 one_space = true ->
  MATCH_SPACE K s0 zero_space = true ->
  MATCH_SPACE K s0 one_space = false ->
  forall pre rest data,
  space_coded_bits K bit_mark one_space zero_space one zero
    (pre ++ flat_map (nec_bit bm s0 s1) payload ++ rest)
    (length payload) (Z.of_nat (length pre)) data =
  Some (Z.of_nat (length pre) + 2 * Z.of_nat (length payload),
        fold_left (fun d (b : bool) => if b then one d else zero d) payload data).
Proof.
  intros Hm H1 H0 H01. induction payload as [|b l IH]; intros pre rest data.
  - simpl. f_equal. f_equal. lia.
  - cbn [flat_map nec_bit length space_coded_bits fold_left app].
    rewrite at_app_r, Hm. cbn [negb].
    replace (Z.of_nat (length pre) + 1) with (Z.of_nat (length (pre ++ [bm])))
      by (rewrite length_app; simpl; lia).
    replace (pre ++ bm :: (if b then s1 else s0) :: (flat_map (nec_bit bm s0 s1) l ++ rest))
      with ((pre ++ [bm]) ++ (if b then s1 else s0) :: (flat_map (nec_bit bm s0 s1) l ++ rest))
      by (rewrite <- app_assoc; reflexivity).
    rewrite at_app_r.
    replace (Z.of_nat (length (pre ++ [bm])) + 1)
      with (Z.of_nat (length ((pre ++ [bm]) ++ [if b then s1 else s0])))
      by (rewrite !length_app; simpl; lia).
    replace ((pre ++ [bm]) ++ (if b then s1 else s0) :: (flat_map (nec_bit bm s0 s1) l ++ rest))
      with (((pre ++ [bm]) ++ [if b then s1 else s0]) ++ flat_map (nec_bit bm s0 s1) l ++ rest)
      by (rewrite <- !app_assoc; reflexivity).
    destruct b.
    + rewrite H1, IH. f_equal. f_equal. rewrite !length_app. simpl. lia.
    + rewrite H01, H0, IH. f_equal. f_equal. rewrite !length_app. simpl. lia.
Qed.

Lemma flat_map_pair_length {A} (f : A -> list Z) (l : list A) :
  (forall a, length (f a) = 2%nat) -> length (flat_map f l) = (2 * length l)%nat.
Proof.
  intros H. induction l as [|a l IH]; [reflexivity|].
  cbn [flat_map]. rewrite length_app, H, IH. simpl. lia.
Qed.

(** X6.  decodeSAMSUNG on a buffer that holds, behind the gap, a header
    mark and space, SAMSUNG_BITS bits coded in the length of the space
    after each bit mark, all inside their bands (the short space outside
    the band of the long one), with an entry count of at least
    2 * SAMSUNG_BITS + 4 and other than 4: it succeeds with tag SAMSUNG,
    SAMSUNG_BITS bits and the payload read most significant bit first,
    modulo 2^32. *)
Theorem decodeSAMSUNG_frame s gap hm hs bm s0 s1 payload rest :
  MATCH_MARK K hm (SAMSUNG_HDR_MARK K) = true ->
  MATCH_SPACE K hs (SAMSUNG_HDR_SPACE K) = true ->
  MATCH_MARK K bm (SAMSUNG_BIT_MARK K) = true ->
  MATCH_SPACE K s1 (SAMSUNG_ONE_SPACE K) = true ->
  MATCH_SPACE K s0 (SAMSUNG_ZERO_SPACE K) = true ->
  MATCH_SPACE K s0 (SAMSUNG_ONE_SPACE K) = false ->
  Z.of_nat (length payload) = SAMSUNG_BITS K ->
  rawbuf s = nec_frame gap hm hs bm s0 s1 payload ++ rest ->
  2 * SAMSUNG_BITS K + 4 <= rawlen s -> rawlen s <> 4 ->
  decodeSAMSUNG K s =
    (true, set_decode_type SAMSUNG
             (set_value (msb_first payload mod 2 ^ 32) (set_bits (SAMSUNG_BITS K) s))).
Proof.
  intros Hhm Hhs Hbm H1 H0 H01 Hlen Hbuf Hraw Hne.
  unfold decodeSAMSUNG. rewrite Hbuf. unfold nec_frame. cbv zeta.
  change (at_ ((gap :: hm :: hs :: ?l) ++ rest) 1) with hm.
  rewrite Hhm. cbn [negb].
  destruct (Z.eqb_spec (rawlen s) 4) as [E|_]; [lia|]. cbn [andb].
  destruct (Z.ltb_spec (rawlen s) (2 * SAMSUNG_BITS K + 4)) as [E|_]; [lia|].
  change (at_ ((gap :: hm :: hs :: ?l) ++ rest) (1 + 1)) with hs.
  rewrite Hhs. cbn [negb].
  rewrite <- Hlen, Nat2Z.id.
  pose proof (space_coded_any _ _ _ shl1 shl0 _ _ _ payload Hbm H1 H0 H01
                [gap; hm; hs] rest 0) as L.
  cbn [length app] in L. cbn [app].
  change (Z.of_nat 3) with (1 + 1 + 1) in L. rewrite L.
  rewrite ulong_data. reflexivity.
Qed.

(** X7.  decodeLG on a buffer that holds, behind the gap, a header mark
    and space, LG_BITS bits coded in the length of the space after each bit
    mark, and a closing mark, all inside their bands, with an entry count
    of at least 2 * LG_BITS + 1: it succeeds with tag LG, LG_BITS bits and
    the payload read most significant bit first, modulo 2^32. *)
Theorem decodeLG_frame s gap hm hs bm s0 s1 payload stop rest :
  MATCH_MARK K hm (LG_HDR_MARK K) = true ->
  MATCH_SPACE K hs (LG_HDR_SPACE K) = true ->
  MATCH_MARK K bm (LG_BIT_MARK K) = true ->
  MATCH_SPACE K s1 (LG_ONE_SPACE K) = true ->
  MATCH_SPACE K s0 (LG_ZERO_SPACE K) = true ->
  MATCH_SPACE K s0 (LG_ONE_SPACE K) = false ->
  MATCH_MARK K stop (LG_BIT_MARK K) = true ->
  Z.of_nat (length payload) = LG_BITS K ->
  rawbuf s = nec_frame gap hm hs bm s0 s1 payload ++ stop :: rest ->
  2 * LG_BITS K + 1 <= rawlen s ->
  decodeLG K s =
    (true, set_decode_type LG
             (set_value (msb_first payload mod 2 ^ 32) (set_bits (LG_BITS K) s))).
Proof.
  intros Hhm Hhs Hbm H1 H0 H01 Hstop Hlen Hbuf Hraw.
  unfold decodeLG. rewrite Hbuf. unfold nec_frame. cbv zeta.
  change (at_ ((gap :: hm :: hs :: ?l) ++ stop :: rest) 1) with hm.
  rewrite Hhm. cbn [negb].
  destruct (Z.ltb_spec (rawlen s) (2 * LG_BITS K + 1)) as [E|_]; [lia|].
  change (at_ ((gap :: hm :: hs :: ?l) ++ stop :: rest) (1 + 1)) with hs.
  rewrite Hhs. cbn [negb].
  rewrite <- Hlen, Nat2Z.id.
  pose proof (space_coded_any _ _ _ shl1 shl0 _ _ _ payload Hbm H1 H0 H01
                [gap; hm; hs] (stop :: rest) 0) as L.
  cbn [length app] in L. cbn [app].
  change (Z.of_nat 3) with (1 + 1 + 1) in L. rewrite L.
  replace (1 + 1 + 1 + 2 * Z.of_nat (length payload))
    with (Z.of_nat (length (gap :: hm :: hs :: flat_map (nec_bit bm s0 s1) payload)))
    by (cbn [length]; rewrite flat_map_pair_length by reflexivity; lia).
  change (gap :: hm :: hs :: flat_map (nec_bit bm s0 s1) payload ++ stop :: rest)
    with ((gap :: hm :: hs :: flat_map (nec_bit bm s0 s1) payload) ++ stop :: rest).
  rewrite at_app_r, Hstop. cbn [negb].
  rewrite ulong_data. reflexivity.
Qed.
End Frames.

Section Frames2.
Variable K : LRremoteInt.

(** X8.  decodeJVC on a buffer that holds, behind the gap, a header mark
    (outside the band of the bit mark, so that the frame is not taken for a
    repeat), a header space, JVC_BITS bits coded in the length of the space
    after each bit mark, and a closing mark, all inside their bands, with
    an entry count of at least 2 * JVC_BITS + 1: it succeeds with tag JVC,
    JVC_BITS bits and the payload read most significant bit first, modulo
    2^32. *)
Theorem decodeJVC_frame s gap hm hs bm s0 s1 payload stop rest :
  MATCH_MARK K hm (JVC_HDR_MARK K) = true ->
  MATCH_MARK K hm (JVC_BIT_MARK K) = false ->
  MATCH_SPACE K hs (JVC_HDR_SPACE K) = true ->
  MATCH_MARK K bm (JVC_BIT_MARK K) = true ->
  MATCH_SPACE K s1 (JVC_ONE_SPACE K) = true ->
  MATCH_SPACE K s0 (JVC_ZERO_SPACE K) = true ->
  MATCH_SPACE K s0 (JVC_ONE_SPACE K) = false ->
  MATCH_MARK K stop (JVC_BIT_MARK K) = true ->
  Z.of_nat (length payload) = JVC_BITS K ->
  rawbuf s = nec_frame gap hm hs bm s0 s1 payload ++ stop :: rest ->
  2 * JVC_BITS K + 1 <= rawlen s ->
  decodeJVC K s =
    (true, set_decode_type JVC
             (set_value (msb_first payload mod 2 ^ 32) (set_bits (JVC_BITS K) s))).
Proof.
  intros Hhm Hnb Hhs Hbm H1 H0 H01 Hstop Hlen Hbuf Hraw.
  unfold decodeJVC. rewrite Hbuf. unfold nec_frame. cbv zeta.
  change (at_ ((gap :: hm :: hs :: ?l) ++ stop :: rest) 1) with hm.
  rewrite Hnb, Hhm, andb_false_r. cbn [andb negb].
  destruct (Z.ltb_spec (rawlen s) (2 * JVC_BITS K + 1)) as [E|_]; [lia|].
  change (at_ ((gap :: hm :: hs :: ?l) ++ stop :: rest) (1 + 1)) with hs.
  rewrite Hhs. cbn [negb].
  rewrite <- Hlen, Nat2Z.id.
  pose proof (space_coded_any K _ _ _ shl1 shl0 _ _ _ payload Hbm H1 H0 H01
                [gap; hm; hs] (stop :: rest) 0) as L.
  cbn [length app] in L. cbn [app].
  change (Z.of_nat 3) with (1 + 1 + 1) in L. rewrite L.
  replace (1 + 1 + 1 + 2 * Z.of_nat (length payload))
    with (Z.of_nat (length (gap :: hm :: hs :: flat_map (nec_bit bm s0 s1) payload)))
    by (cbn [length]; rewrite flat_map_pair_length by reflexivity; lia).
  change (gap :: hm :: hs :: flat_map (nec_bit bm s0 s1) payload ++ stop :: rest)
    with ((gap :: hm :: hs :: flat_map (nec_bit bm s0 s1) payload) ++ stop :: rest).
  rewrite at_app_r, Hstop. cbn [negb].
  rewrite ulong_data. reflexivity.
Qed.

(** X9.  decodePanasonic on a buffer that holds, behind the gap, a header
    mark, a header space (which the code compares as a mark, with the
    excess added), and PANASONIC_BITS bits coded in the length of the space
    after each bit mark, whatever the entry count is: it succeeds with tag
    PANASONIC and PANASONIC_BITS bits; the value is the payload, read most
    significant bit first, modulo 2^32, and the address is the 16 bits
    above those 32. *)
Theorem decodePanasonic_frame s gap hm hs bm s0 s1 payload rest :
  MATCH_MARK K hm (PANASONIC_HDR_MARK K) = true ->
  MATCH_MARK K hs (PANASONIC_HDR_SPACE K) = true ->
  MATCH_MARK K bm (PANASONIC_BIT_MARK K) = true ->
  MATCH_SPACE K s1 (PANASONIC_ONE_SPACE K) = true ->
  MATCH_SPACE K s0 (PANASONIC_ZERO_SPACE K) = true ->
  MATCH_SPACE K s0 (PANASONIC_ONE_SPACE K) = false ->
  Z.of_nat (length payload) = PANASONIC_BITS K ->
  rawbuf s = nec_frame gap hm hs bm s0 s1 payload ++ rest ->
  decodePanasonic K s =
    (true, set_bits (PANASONIC_BITS K) (set_decode_type PANASONIC
             (set_panasonicAddress ((msb_first payload mod 2 ^ 64) / 2 ^ 32 mod 2 ^ 16)
                (set_value (msb_first payload mod 2 ^ 32) s)))).
Proof.
  intros Hhm Hhs Hbm H1 H0 H01 Hlen Hbuf.
  unfold decodePanasonic. rewrite Hbuf. unfold nec_frame. cbv zeta.
  change (at_ ((gap :: hm :: hs :: ?l) ++ rest) 1) with hm.
  rewrite Hhm. cbn [negb].
  change (at_ ((gap :: hm :: hs :: ?l) ++ rest) (1 + 1)) with hs.
  rewrite Hhs. cbn [negb].
  rewrite <- Hlen, Nat2Z.id.
  pose proof (space_coded_any K _ _ _ shl1_ull shl0_ull _ _ _ payload Hbm H1 H0 H01
                [gap; hm; hs] rest 0) as L.
  cbn [length app] in L. cbn [app].
  change (Z.of_nat 3) with (1 + 1 + 1) in L. rewrite L.
  rewrite ulonglong_data by lia. fold (msb_first payload).
  unfold uint, ulong. rewrite Z.shiftr_div_pow2 by lia.
  rewrite (Z.mod_mod_divide _ (2 ^ 64) (2 ^ 32)) by (exists (2 ^ 32); reflexivity).
  reflexivity.
Qed.
End Frames2.

(** ** Frames of the protocols with a bit in the length of the mark *)

Lemma quot_pairs n : 0 <= n -> Z.quot (2 * n + 1) 2 = n.
Proof.
  intros Hn. rewrite Z.quot_div_nonneg by lia.
  symmetry. apply (Z.div_unique _ _ _ 1); lia.
Qed.

Lemma quot_pairs_even n : 0 <= n -> Z.quot (2 * n + 2) 2 = n + 1.
Proof.
  intros Hn. rewrite Z.quot_div_nonneg by lia.
  symmetry. apply (Z.div_unique _ _ _ 0); lia.
Qed.

Section MarkCoded.
Variable K : LRremoteInt.

Lemma mark_coded_frame hdr_space one_mark zero_mark hs m0 m1 len payload :
  MATCH_SPACE K hs hdr_space = true ->
  MATCH_MARK K m1 one_mark = true ->
  MATCH_MARK K m0 zero_mark = true ->
  MATCH_MARK K m0 one_mark = false ->
  forall pre rest data fuel,
  (length payload <= fuel)%nat ->
  (payload <> [] -> Z.of_nat (length pre) + 2 * Z.of_nat (length payload) <= len) ->
  len <= Z.of_nat (length pre) + 2 * Z.of_nat (length payload) + 1 ->
  mark_coded_bits K hdr_space one_mark zero_mark
    (pre ++ flat_map (mark_bit hs m0 m1) payload ++ rest) len fuel
    (Z.of_nat (length pre)) data =
  Falls_out (Z.of_nat (length pre) + 2 * Z.of_nat (length payload))
    (fold_left (fun d (b : bool) => if b then shl1 d else shl0 d) payload data).
Proof.
  intros Hs H1 H0 H01. induction payload as [|b l IH]; intros pre rest data fuel Hf Hlo Hhi.
  - cbn [length] in *. destruct fuel; cbn [mark_coded_bits];
      (destruct (Z.ltb_spec (Z.of_nat (length pre) + 1) len); [lia|]);
      cbn; f_equal; lia.
  - cbn [length] in *. destruct fuel as [|fuel]; [lia|].
    specialize (Hlo ltac:(discriminate)).
    cbn [mark_coded_bits flat_map mark_bit fold_left app].
    destruct (Z.ltb_spec (Z.of_nat (length pre) + 1) len); [|lia].
    rewrite at_app_r, Hs. cbn [negb].
    replace (Z.of_nat (length pre) + 1) with (Z.of_nat (length (pre ++ [hs])))
      by (rewrite length_app; simpl; lia).
    replace (pre ++ hs :: (if b then m1 else m0) :: (flat_map (mark_bit hs m0 m1) l ++ rest))
      with ((pre ++ [hs]) ++ (if b then m1 else m0) :: (flat_map (mark_bit hs m0 m1) l ++ rest))
      by (rewrite <- app_assoc; reflexivity).
    rewrite at_app_r.
    replace (Z.of_nat (length (pre ++ [hs])) + 1)
      with (Z.of_nat (length ((pre ++ [hs]) ++ [if b then m1 else m0])))
      by (rewrite !length_app; simpl; lia).
    replace ((pre ++ [hs]) ++ (if b then m1 else m0) :: (flat_map (mark_bit hs m0 m1) l ++ rest))
      with (((pre ++ [hs]) ++ [if b then m1 else m0]) ++ flat_map (mark_bit hs m0 m1) l ++ rest)
      by (rewrite <- !app_assoc; reflexivity).
    destruct b.
    + rewrite H1, IH; rewrite ?length_app; cbn [length]; try lia.
      f_equal. lia.
    + rewrite H01, H0, IH; rewrite ?length_app; cbn [length]; try lia.
      f_equal. lia.
Qed.

Lemma mitsubishi_bits_frame m0 m1 sp len payload :
  MATCH_MARK K m1 (MITSUBISHI_ONE_MARK K) = true ->
  MATCH_MARK K m0 (MITSUBISHI_ZERO_MARK K) = true ->
  MATCH_MARK K m0 (MITSUBISHI_ONE_MARK K) = false ->
  MATCH_SPACE K sp (MITSUBISHI_HDR_SPACE K) = true ->
  forall pre rest data fuel,
  (length payload <= fuel)%nat ->
  (payload <> [] -> Z.of_nat (length pre) + 2 * Z.of_nat (length payload) <= len) ->
  len <= Z.of_nat (length pre) + 2 * Z.of_nat (length payload) + 1 ->
  mitsubishi_bits K (pre ++ flat_map (mitsubishi_bit m0 m1 sp) payload ++ rest) len fuel
    (Z.of_nat (length pre)) data =
  Falls_out (Z.of_nat (length pre) + 2 * Z.of_nat (length payload))
    (fold_left (fun d (b : bool) => if b then shl1 d else shl0 d) payload data).
Proof.
  intros H1 H0 H01 Hs. induction payload as [|b l IH]; intros pre rest data fuel Hf Hlo Hhi.
  - cbn [length] in *. destruct fuel; cbn [mitsubishi_bits];
      (destruct (Z.ltb_spec (Z.of_nat (length pre) + 1) len); [lia|]);
      cbn; f_equal; lia.
  - cbn [length] in *. destruct fuel as [|fuel]; [lia|].
    specialize (Hlo ltac:(discriminate)).
    cbn [mitsubishi_bits flat_map mitsubishi_bit fold_left app].
    destruct (Z.ltb_spec (Z.of_nat (length pre) + 1) len); [|lia].
    rewrite at_app_r.
    replace (Z.of_nat (length pre) + 1)
      with (Z.of_nat (length (pre ++ [if b then m1 else m0])))
      by (rewrite length_app; simpl; lia).
    replace (pre ++ (if b then m1 else m0) :: sp :: (flat_map (mitsubishi_bit m0 m1 sp) l ++ rest))
      with ((pre ++ [if b then m1 else m0]) ++ sp :: (flat_map (mitsubishi_bit m0 m1 sp) l ++ rest))
      by (rewrite <- app_assoc; reflexivity).
    rewrite at_app_r, Hs. cbn [negb].
    replace (Z.of_nat (length (pre ++ [if b then m1 else m0])) + 1)
      with (Z.of_nat (length ((pre ++ [if b then m1 else m0]) ++ [sp])))
      by (rewrite !length_app; simpl; lia).
    replace ((pre ++ [if b then m1 else m0]) ++ sp :: (flat_map (mitsubishi_bit m0 m1 sp) l ++ rest))
      with (((pre ++ [if b then m1 else m0]) ++ [sp]) ++ flat_map (mitsubishi_bit m0 m1 sp) l ++ rest)
      by (rewrite <- !app_assoc; reflexivity).
    destruct b.
    + rewrite H1, IH; rewrite ?length_app; cbn [length]; try lia.
      f_equal. lia.
    + rewrite H01, H0, IH; rewrite ?length_app; cbn [length]; try lia.
      f_equal. lia.
Qed.

(** X10.  decodeSony on a buffer whose first cell is not below
    SONY_DOUBLE_SPACE_USECS (the code compares the cell, a tick count, with
    that constant) and which holds a header mark and then n pairs of a
    header space and a long or short mark, all inside their bands, with an
    entry count of 2n + 2 or 2n + 3 that is at least 2 * SONY_BITS + 2, and
    n at least 12: it succeeds with tag SONY, n bits and the payload read
    most significant bit first, modulo 2^32. *)
Theorem decodeSony_frame s gap hm hs m0 m1 payload rest :
  MATCH_MARK K hm (SONY_HDR_MARK K) = true ->
  MATCH_SPACE K hs (SONY_HDR_SPACE K) = true ->
  MATCH_MARK K m1 (SONY_ONE_MARK K) = true ->
  MATCH_MARK K m0 (SONY_ZERO_MARK K) = true ->
  MATCH_MARK K m0 (SONY_ONE_MARK K) = false ->
  SONY_DOUBLE_SPACE_USECS K <= gap ->
  rawbuf s = gap :: hm :: flat_map (mark_bit hs m0 m1) payload ++ rest ->
  2 * Z.of_nat (length payload) + 2 <= rawlen s <= 2 * Z.of_nat (length payload) + 3 ->
  2 * SONY_BITS K + 2 <= rawlen s -> (12 <= length payload)%nat ->
  decodeSony K s =
    (true, set_decode_type SONY
             (set_value (msb_first payload mod 2 ^ 32)
                (set_bits (Z.of_nat (length payload)) s))).
Proof.
  intros Hhm Hhs H1 H0 H01 Hgap Hbuf Hlen Hguard H12.
  unfold decodeSony. rewrite Hbuf. cbv zeta.
  destruct (Z.ltb_spec (rawlen s) (2 * SONY_BITS K + 2)); [lia|].
  change (at_ (gap :: hm :: ?l) 0) with gap.
  destruct (Z.ltb_spec gap (SONY_DOUBLE_SPACE_USECS K)); [lia|].
  change (at_ (gap :: hm :: ?l) (0 + 1)) with hm.
  rewrite Hhm. cbn [negb].
  pose proof (mark_coded_frame _ _ _ _ _ _ (rawlen s) payload Hhs H1 H0 H01
                [gap; hm] rest 0 (Z.to_nat (rawlen s))) as L.
  cbn [length app] in L. change (Z.of_nat 2) with (0 + 1 + 1) in L.
  rewrite L by lia. cbn [bits set_bits].
  replace (0 + 1 + 1 + 2 * Z.of_nat (length payload) - 1)
    with (2 * Z.of_nat (length payload) + 1) by lia.
  rewrite quot_pairs by lia.
  destruct (Z.ltb_spec (Z.of_nat (length payload)) 12); [lia|].
  rewrite ulong_data. destruct s; reflexivity.
Qed.

(** X11.  decodeSanyo on a buffer whose first cell is not below
    SANYO_DOUBLE_SPACE_USECS and which holds two cells in the band of the
    header mark and then n pairs of a cell in the band of the header space
    and a long or short cell in the bands of the marks, with an entry count
    of 2n + 3 or 2n + 4 that is at least 2 * SANYO_BITS + 2, and n at least
    11: it succeeds with tag SANYO and the payload read most significant
    bit first, modulo 2^32; the bit count it reports is n + 1, one more
    than the bits it has read. *)
Theorem decodeSanyo_frame s gap hm hm' hs m0 m1 payload rest :
  MATCH_MARK K hm (SANYO_HDR_MARK K) = true ->
  MATCH_MARK K hm' (SANYO_HDR_MARK K) = true ->
  MATCH_SPACE K hs (SANYO_HDR_SPACE K) = true ->
  MATCH_MARK K m1 (SANYO_ONE_MARK K) = true ->
  MATCH_MARK K m0 (SANYO_ZERO_MARK K) = true ->
  MATCH_MARK K m0 (SANYO_ONE_MARK K) = false ->
  SANYO_DOUBLE_SPACE_USECS K <= gap ->
  rawbuf s = gap :: hm :: hm' :: flat_map (mark_bit hs m0 m1) payload ++ rest ->
  2 * Z.of_nat (length payload) + 3 <= rawlen s <= 2 * Z.of_nat (length payload) + 4 ->
  2 * SANYO_BITS K + 2 <= rawlen s -> (11 <= length payload)%nat ->
  decodeSanyo K s =
    (true, set_decode_type SANYO
             (set_value (msb_first payload mod 2 ^ 32)
                (set_bits (Z.of_nat (length payload) + 1) s))).
Proof.
  intros Hhm Hhm' Hhs H1 H0 H01 Hgap Hbuf Hlen Hguard H11.
  unfold decodeSanyo. rewrite Hbuf. cbv zeta.
  destruct (Z.ltb_spec (rawlen s) (2 * SANYO_BITS K + 2)); [lia|].
  change (at_ (gap :: hm :: hm' :: ?l) 0) with gap.
  destruct (Z.ltb_spec gap (SANYO_DOUBLE_SPACE_USECS K)); [lia|].
  change (at_ (gap :: hm :: hm' :: ?l) (0 + 1)) with hm.
  rewrite Hhm. cbn [negb].
  change (at_ (gap :: hm :: hm' :: ?l) (0 + 1 + 1)) with hm'.
  rewrite Hhm'. cbn [negb].
  pose proof (mark_coded_frame _ _ _ _ _ _ (rawlen s) payload Hhs H1 H0 H01
                [gap; hm; hm'] rest 0 (Z.to_nat (rawlen s))) as L.
  cbn [length app] in L. change (Z.of_nat 3) with (0 + 1 + 1 + 1) in L.
  rewrite L by lia. cbn [bits set_bits].
  replace (0 + 1 + 1 + 1 + 2 * Z.of_nat (length payload) - 1)
    with (2 * Z.of_nat (length payload) + 2) by lia.
  rewrite quot_pairs_even by lia.
  destruct (Z.ltb_spec (Z.of_nat (length payload) + 1) 12); [lia|].
  rewrite ulong_data. destruct s; reflexivity.
Qed.

(** X12.  decodeMitsubishi on a buffer that holds, behind the gap, a cell
    that matches MITSUBISHI_HDR_SPACE as a mark and then n pairs of a long
    or short cell in the bands of the marks and a cell in the band of the
    header space, with an entry count of 2n + 2 or 2n + 3 that is at least
    2 * MITSUBISHI_BITS + 2, and n at least MITSUBISHI_BITS: it succeeds
    with tag MITSUBISHI, n bits and the payload read most significant bit
    first, modulo 2^32. *)
Theorem decodeMitsubishi_frame s gap h m0 m1 sp payload rest :
  MATCH_MARK K h (MITSUBISHI_HDR_SPACE K) = true ->
  MATCH_MARK K m1 (MITSUBISHI_ONE_MARK K) = true ->
  MATCH_MARK K m0 (MITSUBISHI_ZERO_MARK K) = true ->
  MATCH_MARK K m0 (MITSUBISHI_ONE_MARK K) = false ->
  MATCH_SPACE K sp (MITSUBISHI_HDR_SPACE K) = true ->
  rawbuf s = gap :: h :: flat_map (mitsubishi_bit m0 m1 sp) payload ++ rest ->
  2 * Z.of_nat (length payload) + 2 <= rawlen s <= 2 * Z.of_nat (length payload) + 3 ->
  2 * MITSUBISHI_BITS K + 2 <= rawlen s -> MITSUBISHI_BITS K <= Z.of_nat (length payload) ->
  decodeMitsubishi K s =
    (true, set_decode_type MITSUBISHI
             (set_value (msb_first payload mod 2 ^ 32)
                (set_bits (Z.of_nat (length payload)) s))).
Proof.
  intros Hh H1 H0 H01 Hsp Hbuf Hlen Hguard Hbits.
  unfold decodeMitsubishi. rewrite Hbuf. cbv zeta.
  destruct (Z.ltb_spec (rawlen s) (2 * MITSUBISHI_BITS K + 2)); [lia|].
  change (at_ (gap :: h :: ?l) (0 + 1)) with h.
  rewrite Hh. cbn [negb].
  pose proof (mitsubishi_bits_frame _ _ _ (rawlen s) payload H1 H0 H01 Hsp
                [gap; h] rest 0 (Z.to_nat (rawlen s))) as L.
  cbn [length app] in L. change (Z.of_nat 2) with (0 + 1 + 1) in L.
  rewrite L by lia. cbn [bits set_bits].
  replace (0 + 1 + 1 + 2 * Z.of_nat (length payload) - 1)
    with (2 * Z.of_nat (length payload) + 1) by lia.
  rewrite quot_pairs by lia.
  destruct (Z.ltb_spec (Z.of_nat (length payload)) (MITSUBISHI_BITS K)); [lia|].
  rewrite ulong_data. destruct s; reflexivity.
Qed.
End MarkCoded.

(** ** decode, tried again *)

Section Again.
Variable K : LRremoteInt.

Lemma matcher_failure_bits m s :
  In m (matchers K) -> fst (m s) = false -> exists b, snd (m s) = set_bits b s.
Proof.
  intros H. each_matcher H.
  all: unfold_matchers; repeat case_match; simpl; intros; try discriminate.
  all: try (exists (bits s); destruct s; reflexivity).
  all: exists 0; destruct s; reflexivity.
Qed.

Lemma matcher_success_stable m s b :
  In m (matchers K) -> fst (m s) = true -> m (set_bits b (snd (m s))) = (true, snd (m s)).
Proof.
  intros H. each_matcher H.
  all: unfold_matchers; cbv zeta.
  all: repeat case_match; simpl; intros; try discriminate.
  all: repeat case_match; simplify_eq/=; try reflexivity; try congruence.
  all: repeat match goal with
       | H : ?x = _, H' : ?x = _ |- _ => rewrite H in H'; simplify_eq
       end.
  all: destruct s; reflexivity.
Qed.

Lemma set_bits_twice b b' s : set_bits b' (set_bits b s) = set_bits b' s.
Proof. destruct s; reflexivity. Qed.

Lemma first_success_stable ms : forall s b,
  (forall m, In m ms -> In m (matchers K)) ->
  fst (first_success ms s) = true ->
  first_success ms (set_bits b (snd (first_success ms s)))
  = (true, snd (first_success ms s)).
Proof.
  induction ms as [|m ms IH]; intros s b Hin; cbn [first_success]; [discriminate|].
  pose proof (Hin m (or_introl eq_refl)) as Hm.
  assert (forall m', In m' ms -> In m' (matchers K)) as Hin'
    by (intros m' H; apply Hin; right; exact H).
  destruct (m s) as [ok t] eqn:E. destruct ok; cbn [fst snd].
  - intros _. replace t with (snd (m s)) by (rewrite E; reflexivity).
    rewrite matcher_success_stable by (try exact Hm; rewrite E; reflexivity).
    reflexivity.
  - intros Hok.
    pose proof (first_success_keeps K ms t Hin') as (_ & _ & Hb & Hl & _).
    pose proof (matcher_keeps K m s Hm) as (_ & _ & Hb' & Hl' & _).
    rewrite E in Hb', Hl'. cbn [snd] in Hb', Hl'.
    pose proof (matcher_reads_frame K m
                  (set_bits b (snd (first_success ms t))) s Hm) as Hr.
    rewrite E in Hr. cbn [fst] in Hr.
    pose proof (matcher_failure_bits m
                  (set_bits b (snd (first_success ms t))) Hm) as Hf.
    destruct (m (set_bits b (snd (first_success ms t)))) as [ok' t'].
    cbn [fst snd] in Hr, Hf. rewrite Hr in * by (simpl; congruence).
    destruct (Hf eq_refl) as [b' ->]. rewrite set_bits_twice. apply IH; assumption.
Qed.

(** X13.  Decoding a capture a second time, before the sampler is resumed,
    gives the same answer and leaves the whole state as the first decode
    left it. *)
Theorem decode_again s :
  fst (decode K s) = true -> decode K (snd (decode K s)) = decode K s.
Proof.
  unfold decode. destruct (rcvstate_eqb (rcvstate s) STATE_STOP) eqn:Est;
    cbn [negb]; [|discriminate].
  pose proof (first_success_keeps K (matchers K) s (fun m H => H)) as (Hs & _).
  pose proof (first_success_stable (matchers K) s
                (bits (snd (first_success (matchers K) s))) (fun m H => H)) as Hst.
  destruct (first_success (matchers K) s) as [ok t]. cbn [fst snd] in *.
  destruct ok; cbn [fst snd]; [|discriminate]. intros _.
  rewrite Hs, Est. cbn [negb].
  replace (set_bits (bits t) t) with t in Hst by (destruct t; reflexivity).
  rewrite Hst by reflexivity. reflexivity.
Qed.
End Again.

(** ** What decode reports, what the hash depends on, and the dispatcher *)

Lemma ulong_range z : 0 <= ulong z < 2 ^ 32.
Proof. unfold ulong. apply Z.mod_pos_bound. reflexivity. Qed.

Lemma compare_scale k a b : 0 < k -> compare (k * a) (k * b) = compare a b.
Proof.
  intros Hk. unfold compare.
  repeat match goal with
         | |- context [?x <? ?y] => destruct (Z.ltb_spec x y)
         end; try reflexivity; nia.
Qed.

Lemma fold_left_ext_in {A B} (f g : A -> B -> A) l : forall a,
  (forall a x, In x l -> f a x = g a x) -> fold_left f l a = fold_left g l a.
Proof.
  induction l as [|x l IH]; intros a H; [reflexivity|]. cbn [fold_left].
  rewrite (H a x (or_introl eq_refl)). apply IH. intros a' y Hy. apply H. right. exact Hy.
Qed.

Lemma find_code_lower p code : forall k, k <= find_code p code k.
Proof.
  induction code as [|c code IH]; intros k; cbn [find_code]; [lia|].
  destruct (p c); [lia|]. specialize (IH (k + 1)). lia.
Qed.

Section Reports.
Variable K : LRremoteInt.

Lemma matcher_reports m s :
  In m (matchers K) -> fst (m s) = true ->
  In (decode_type (snd (m s))) decoded_tags /\ 0 <= value (snd (m s)) < 2 ^ 32.
Proof.
  intros H. each_matcher H.
  all: unfold_matchers; cbv zeta; repeat case_match; cbn [fst snd]; try discriminate.
  all: intros _; cbn; unfold decoded_tags.
  all: split; [tauto|]; try apply ulong_range; try (unfold REPEAT; lia).
Qed.

Lemma first_success_reports ms : forall s,
  (forall m, In m ms -> In m (matchers K)) -> fst (first_success ms s) = true ->
  In (decode_type (snd (first_success ms s))) decoded_tags /\
  0 <= value (snd (first_success ms s)) < 2 ^ 32.
Proof.
  induction ms as [|m ms IH]; intros s Hin; cbn [first_success]; [discriminate|].
  pose proof (matcher_reports m s (Hin m (or_introl eq_refl))) as Hm.
  destruct (m s) as [ok t]. destruct ok; cbn [fst snd] in *.
  - intros _. apply Hm. reflexivity.
  - apply IH. intros m' H. apply Hin. right. exact H.
Qed.

(** X14.  A successful decode stores one of the eleven tags NEC, SONY,
    SANYO, MITSUBISHI, RC5, RC6, PANASONIC, LG, JVC, SAMSUNG and UNKNOWN,
    never DISH or SHARP, and a value between 0 and 2^32 - 1. *)
Theorem decode_reports s :
  fst (decode K s) = true ->
  In (decode_type (snd (decode K s))) decoded_tags /\
  decode_type (snd (decode K s)) <> DISH /\ decode_type (snd (decode K s)) <> SHARP /\
  0 <= value (snd (decode K s)) < 2 ^ 32.
Proof.
  unfold decode. destruct (negb (rcvstate_eqb (rcvstate s) STATE_STOP)); [discriminate|].
  pose proof (first_success_reports (matchers K) s (fun m H => H)) as Hr.
  destruct (first_success (matchers K) s) as [ok t]. destruct ok; cbn [fst snd] in *;
    [|discriminate].
  intros _. destruct (Hr eq_refl) as [Ht Hv]. repeat split; try lia; try exact Ht.
  - intros E. rewrite E in Ht. unfold decoded_tags in Ht. cbn in Ht.
    repeat (destruct Ht as [Ht|Ht]; [discriminate|]). exact Ht.
  - intros E. rewrite E in Ht. unfold decoded_tags in Ht. cbn in Ht.
    repeat (destruct Ht as [Ht|Ht]; [discriminate|]). exact Ht.
Qed.
End Reports.

(** X15.  decodeHash looks at the cells from index 1 up to the entry count
    only, and only at how each compares with the cell two places before
    it.  Of two buffers of the same entry count, at least 6, the second of
    which has these cells of the first multiplied by one positive factor,
    whatever its other cells hold, both are accepted and get the same
    value. *)
Theorem decodeHash_relative k s t :
  0 < k -> 6 <= rawlen s -> rawlen t = rawlen s ->
  (forall i, 1 <= i < rawlen s -> at_ (rawbuf t) i = k * at_ (rawbuf s) i) ->
  fst (decodeHash s) = true /\ fst (decodeHash t) = true /\
  value (snd (decodeHash t)) = value (snd (decodeHash s)).
Proof.
  intros Hk H6 Hl Hc. unfold decodeHash. rewrite Hl.
  destruct (Z.ltb_spec (rawlen s) 6); [lia|]. split; [reflexivity|split; [reflexivity|]].
  cbn [snd value set_decode_type set_bits set_value]. f_equal.
  apply fold_left_ext_in. intros h i Hi.
  apply list_elem_of_In, elem_of_seqZ in Hi. unfold hash_step. cbv zeta.
  rewrite !Hc by lia. rewrite compare_scale by exact Hk. reflexivity.
Qed.

Section Dispatch.
Variable K : LRremoteInt.
Variable code : list Z.

Lemma decode_ready s :
  fst (decode K s) = true ->
  rcvstate_eqb (rcvstate s) STATE_STOP = true /\ keeps s (snd (decode K s)).
Proof.
  unfold decode. destruct (rcvstate_eqb (rcvstate s) STATE_STOP); cbn [negb];
    [|discriminate].
  pose proof (first_success_keeps K (matchers K) s (fun m H => H)) as Hk.
  destruct (first_success (matchers K) s) as [ok t]. destruct ok; cbn [fst snd] in *;
    [auto|discriminate].
Qed.

Lemma decode_unready s :
  fst (decode K s) = false ->
  snd (decode K s) = s /\ rcvstate_eqb (rcvstate s) STATE_STOP = false \/
  rcvstate_eqb (rcvstate s) STATE_STOP = true /\
  rcvstate (snd (decode K s)) = STATE_IDLE /\ rawlen (snd (decode K s)) = 0 /\
  rawbuf (snd (decode K s)) = rawbuf s /\ timer (snd (decode K s)) = timer s.
Proof.
  unfold decode. destruct (rcvstate_eqb (rcvstate s) STATE_STOP); cbn [negb];
    [|left; auto].
  pose proof (first_success_keeps K (matchers K) s (fun m H => H)) as Hk.
  destruct (first_success (matchers K) s) as [ok t]. destruct ok; cbn [fst snd] in *;
    [discriminate|].
  intros _. right. destruct Hk as (_ & Ht & Hb & _). auto.
Qed.

(** X16.  After onButton the sampler is never left stopped.  A capture that
    was ready has been given up for the next one (state STATE_IDLE, entry
    count 0) whether it was decoded or not and whether or not a button
    function ran; otherwise state and entry count are as they were.  The
    buffer and the tick counter are never written. *)
Theorem onButton_rearms s :
  let s' := snd (fst (onButton K code s)) in
  rcvstate s' = (if rcvstate_eqb (rcvstate s) STATE_STOP then STATE_IDLE else rcvstate s) /\
  rawlen s' = (if rcvstate_eqb (rcvstate s) STATE_STOP then 0 else rawlen s) /\
  rawbuf s' = rawbuf s /\ timer s' = timer s /\ rcvstate s' <> STATE_STOP.
Proof.
  cbv zeta.
  assert (rcvstate (snd (fst (onButton K code s))) =
            (if rcvstate_eqb (rcvstate s) STATE_STOP then STATE_IDLE else rcvstate s) /\
          rawlen (snd (fst (onButton K code s))) =
            (if rcvstate_eqb (rcvstate s) STATE_STOP then 0 else rawlen s) /\
          rawbuf (snd (fst (onButton K code s))) = rawbuf s /\
          timer (snd (fst (onButton K code s))) = timer s) as (H1 & H2 & H3 & H4).
  { unfold onButton. cbv zeta.
    pose proof (decode_ready s) as Hr. pose proof (decode_unready s) as Hu.
    destruct (decode K s) as [ok d]. cbn [fst snd] in *. destruct ok.
    - destruct (Hr eq_refl) as (-> & _ & Ht & Hb & _).
      repeat case_match; cbn; auto.
    - destruct (Hu eq_refl) as [[-> ->] | (-> & ? & ? & ? & ?)]; cbn; auto. }
  repeat split; try assumption.
  rewrite H1. destruct (rcvstate s); cbn; discriminate.
Qed.

(** X17.  One call of onButton invokes at most one button function, and
    only one whose index lies inside the arrays (from 0, below codeCount);
    it reports a button as handled exactly when it has invoked one. *)
Theorem onButton_invokes_in_range s :
  let '(handled, _, invoked) := onButton K code s in
  (handled = false /\ invoked = []) \/
  (exists keyIx, handled = true /\ invoked = [keyIx] /\
                 0 <= keyIx < Z.of_nat (length code)).
Proof.
  unfold onButton. cbv zeta. destruct (decode K s) as [ok d]. destruct ok; [|auto].
  repeat match goal with
         | |- context [find_code ?p code 0] =>
             let k := fresh "k" in let Hk := fresh "Hk" in
             pose proof (find_code_lower p code 0) as Hk;
             set (k := find_code p code 0) in *; clearbody k
         end.
  repeat case_match; simplify_eq; auto; right; eexists; repeat split; lia.
Qed.

Lemma onButton_unmapped_state s :
  fst (decode K s) = true ->
  (forall c, In c code -> value (snd (decode K s)) <> ulong c) ->
  value (snd (decode K s)) <> REPEAT ->
  onButton K code s = (false, resume (snd (decode K s)), []) /\
  lastValue (snd (fst (onButton K code s))) = lastValue s /\
  repeat (snd (fst (onButton K code s))) = repeat s.
Proof.
  intros Hok Hun Hrep.
  destruct (decode_keeps_debounce K s) as [Hl Hr].
  assert (onButton K code s = (false, resume (snd (decode K s)), [])) as E.
  { unfold onButton. cbv zeta. destruct (decode K s) as [ok d]. cbn [fst snd] in *.
    subst ok.
    rewrite (find_code_none _ code 0)
      by (intros x Hx; apply Z.eqb_neq; apply Hun, Hx).
    rewrite Z.add_0_l, Z.ltb_irrefl, Z.leb_refl. cbn [andb].
    destruct (Z.eqb_spec (value d) REPEAT); [contradiction|]. reflexivity. }
  rewrite E. cbn. auto.
Qed.

End Dispatch.

(** ** From the receiver pin to the button function *)

Section NecPress.
Variable K : LRremoteInt.
Hypothesis HG : 1 <= GAP_TICKS K < 2 ^ 16 - 1.

Lemma decodeNEC_measured s gap hm hs bm s0 s1 payload rest :
  nec_timing K hm hs bm s0 s1 ->
  Z.of_nat (length payload) = NEC_BITS K ->
  rawbuf s = nec_frame gap hm hs bm s0 s1 payload ++ rest ->
  2 * NEC_BITS K + 4 <= rawlen s -> rawlen s <> 4 ->
  decodeNEC K s =
    (true, set_decode_type NEC
             (set_value (msb_first payload mod 2 ^ 32) (set_bits (NEC_BITS K) s))).
Proof.
  intros (Hhm & Hhs & Hbm & H1 & H0 & H01) Hlen Hbuf Hraw Hne.
  unfold decodeNEC. rewrite Hbuf. unfold nec_frame. cbv zeta.
  change (at_ ((gap :: hm :: hs :: ?l) ++ rest) 1) with hm.
  rewrite Hhm. cbn [negb].
  destruct (Z.eqb_spec (rawlen s) 4) as [E|_]; [lia|]. cbn [andb].
  destruct (Z.ltb_spec (rawlen s) (2 * NEC_BITS K + 4)) as [E|_]; [lia|].
  change (at_ ((gap :: hm :: hs :: ?l) ++ rest) (1 + 1)) with hs.
  rewrite Hhs. cbn [negb].
  rewrite <- Hlen, Nat2Z.id.
  pose proof (space_coded_any K _ _ _ shl1 shl0 _ _ _ payload Hbm H1 H0 H01
                [gap; hm; hs] rest 0) as L.
  cbn [length app] in L. cbn [app].
  change (Z.of_nat 3) with (1 + 1 + 1) in L. rewrite L.
  rewrite ulong_data. reflexivity.
Qed.

Lemma nec_pulses_length hm hs bm s0 s1 payload :
  length (nec_pulses hm hs bm s0 s1 payload) = (2 * length payload + 3)%nat.
Proof.
  unfold nec_pulses. cbn [length]. rewrite length_app, flat_map_pair_length by reflexivity.
  simpl. lia.
Qed.

Lemma nec_transmission_decoded s g hm hs bm s0 s1 payload :
  waiting K s -> 0 <= g -> GAP_TICKS K - 1 <= timer s + g ->
  nec_timing K hm hs bm s0 s1 ->
  all_fit K (nec_pulses hm hs bm s0 s1 payload) MARK ->
  Z.of_nat (length payload) = NEC_BITS K -> 1 <= NEC_BITS K <= 48 ->
  decode K (run K (transmission K g (nec_pulses hm hs bm s0 s1 payload)) s) =
    (true, set_decode_type NEC
             (set_value (msb_first payload mod 2 ^ 32)
                (set_bits (NEC_BITS K)
                   (run K (transmission K g (nec_pulses hm hs bm s0 s1 payload)) s)))).
Proof.
  intros (Hst & Hl & Ht & Hbuf) Hg0 Hg Htim Hfit Hlen Hbits.
  pose proof (nec_pulses_length hm hs bm s0 s1 payload) as Hn.
  destruct (transmission_recorded K HG s g (nec_pulses hm hs bm s0 s1 payload))
    as (A & B & C); try assumption.
  { rewrite Hn. replace (2 * length payload + 3)%nat with (S (2 * (length payload + 1)))
      by lia.
    rewrite Nat.even_succ, <- Nat.negb_even, Nat.even_mul. reflexivity. }
  { rewrite Hn. unfold RAWBUF. lia. }
  unfold decode. rewrite A. cbn [rcvstate_eqb negb]. unfold matchers. cbn [first_success].
  rewrite (decodeNEC_measured _ (Z.min (timer s + g) (GAP_TICKS K) + 1) hm hs bm s0 s1
             payload
             (bm :: drop (S (length (nec_pulses hm hs bm s0 s1 payload))) (rawbuf s)));
    try assumption.
  - reflexivity.
  - rewrite C. unfold nec_pulses, nec_frame. cbn [app]. rewrite <- !app_assoc. reflexivity.
  - rewrite B, Hn. lia.
  - rewrite B, Hn. lia.
Qed.

(** X18.  From the receiver pin to decode.  While the sampler waits, a
    Protocol-A transmission (enough idle ticks; header mark and space,
    NEC_BITS bits, each a bit mark and a short or long space, and the
    closing mark, all inside the bands of the header's constants and
    recordable; then GAP_TICKS + 1 idle ticks) is captured by the sampler
    and decoded: decode succeeds with tag NEC, NEC_BITS bits and the
    payload read most significant bit first, modulo 2^32.  NEC_BITS is
    between 1 and 48, so that the frame fits the buffer. *)
Theorem nec_transmission_decodes s g hm hs bm s0 s1 payload :
  waiting K s -> 0 <= g -> GAP_TICKS K - 1 <= timer s + g ->
  nec_timing K hm hs bm s0 s1 ->
  all_fit K (nec_pulses hm hs bm s0 s1 payload) MARK ->
  Z.of_nat (length payload) = NEC_BITS K -> 1 <= NEC_BITS K <= 48 ->
  let s' := run K (transmission K g (nec_pulses hm hs bm s0 s1 payload)) s in
  fst (decode K s') = true /\
  decode_type (snd (decode K s')) = NEC /\
  bits (snd (decode K s')) = NEC_BITS K /\
  value (snd (decode K s')) = msb_first payload mod 2 ^ 32.
Proof.
  intros Hw Hg0 Hg Htim Hfit Hlen Hbits. cbv zeta.
  rewrite (nec_transmission_decoded s g hm hs bm s0 s1 payload) by assumption.
  repeat split.
Qed.

(** X19.  From the receiver pin to the button function.  The same
    transmission, polled by onButton while the payload is among the codes
    of interest: the button function of the first such code is invoked and
    reported as handled, the value is remembered, the repeat counter is
    cleared, and the sampler waits again on an empty buffer. *)
Theorem nec_press_invokes_button code s g hm hs bm s0 s1 payload k :
  waiting K s -> 0 <= g -> GAP_TICKS K - 1 <= timer s + g ->
  nec_timing K hm hs bm s0 s1 ->
  all_fit K (nec_pulses hm hs bm s0 s1 payload) MARK ->
  Z.of_nat (length payload) = NEC_BITS K -> 1 <= NEC_BITS K <= 48 ->
  find_code (fun c => msb_first payload mod 2 ^ 32 =? ulong c) code 0 = k ->
  k < Z.of_nat (length code) ->
  let r := onButton K code
             (run K (transmission K g (nec_pulses hm hs bm s0 s1 payload)) s) in
  fst (fst r) = true /\ snd r = [k] /\
  lastValue (snd (fst r)) = long (msb_first payload) /\ repeat (snd (fst r)) = 0 /\
  rcvstate (snd (fst r)) = STATE_IDLE /\ rawlen (snd (fst r)) = 0.
Proof.
  intros Hw Hg0 Hg Htim Hfit Hlen Hbits Hk Hlt. cbv zeta.
  pose proof (nec_transmission_decoded s g hm hs bm s0 s1 payload
                Hw Hg0 Hg Htim Hfit Hlen Hbits) as E.
  rewrite (onButton_mapped K code _ k); rewrite ?E; try assumption; try reflexivity.
  cbn. repeat split.
  unfold long at 1. rewrite Zplus_mod_idemp_l. reflexivity.
Qed.
End NecPress.

(** ** The repeat value as a code of its own, and codes of no interest *)

Lemma find_code_hit p code : forall k0,
  (exists x, In x code /\ p x = true) ->
  k0 <= find_code p code k0 < k0 + Z.of_nat (length code) /\
  p (nth (Z.to_nat (find_code p code k0 - k0)) code 0) = true.
Proof.
  induction code as [|c code IH]; intros k0 (x & Hx & Hp); [destruct Hx|].
  cbn [find_code length]. destruct (p c) eqn:E.
  - rewrite Z.sub_diag. cbn. split; [lia | exact E].
  - destruct Hx as [-> | Hx]; [congruence|].
    destruct (IH (k0 + 1) (ex_intro _ x (conj Hx Hp))) as [Hr Hn].
    split; [lia|].
    replace (Z.to_nat (find_code p code (k0 + 1) - k0))
      with (S (Z.to_nat (find_code p code (k0 + 1) - (k0 + 1)))) by lia.
    exact Hn.
Qed.

Lemma find_code_first p code : forall k0 j,
  k0 <= j < find_code p code k0 -> p (nth (Z.to_nat (j - k0)) code 0) = false.
Proof.
  induction code as [|c code IH]; intros k0 j Hj; cbn [find_code] in Hj; [lia|].
  destruct (p c) eqn:E; [lia|].
  destruct (Z.eq_dec j k0) as [->|Hne].
  - rewrite Z.sub_diag. exact E.
  - replace (Z.to_nat (j - k0)) with (S (Z.to_nat (j - (k0 + 1)))) by lia.
    cbn [nth]. apply IH. lia.
Qed.

Section Dispatch2.
Variable K : LRremoteInt.
Variable code : list Z.

(** X20.  A button function for the repeat value overrides the pause.  If
    the repeat value, -1 as a long, is among the codes, a poll that decodes
    it invokes, at once and whatever the repeat counter is, the function at
    the first index k that holds -1 (code[k] is -1 and no entry below k
    is), clears the counter and remembers the repeat value itself. *)
Theorem repeat_button_overrides_pause s :
  Forall is_long code -> In (-1) code ->
  fst (decode K s) = true -> value (snd (decode K s)) = REPEAT ->
  exists k,
    0 <= k < Z.of_nat (length code) /\ nth (Z.to_nat k) code 0 = -1 /\
    (forall j, 0 <= j < k -> nth (Z.to_nat j) code 0 <> -1) /\
    onButton K code s =
      (true, resume (set_lastValue (-1) (set_repeat 0 (snd (decode K s)))), [k]).
Proof.
  intros Hlong Hin Hok Hval.
  destruct (find_code_hit (fun c => REPEAT =? ulong c) code 0) as [Hr Hn].
  { exists (-1). split; [exact Hin | reflexivity]. }
  exists (find_code (fun c => REPEAT =? ulong c) code 0).
  rewrite Z.sub_0_r in Hn. split; [lia|]. split; [|split].
  - apply Z.eqb_eq in Hn.
    set (k := Z.to_nat (find_code (fun c => REPEAT =? ulong c) code 0)) in *.
    assert (is_long (nth k code 0)) as Hl.
    { destruct (nth_in_or_default k code 0) as [H | ->].
      - rewrite List.Forall_forall in Hlong. apply Hlong, H.
      - unfold is_long. lia. }
    rewrite <- (long_ulong _ Hl), <- Hn. reflexivity.
  - intros j Hj E.
    pose proof (find_code_first (fun c => REPEAT =? ulong c) code 0 j Hj) as Hf.
    rewrite Z.sub_0_r, E in Hf. discriminate.
  - rewrite (onButton_mapped K code s (find_code (fun c => REPEAT =? ulong c) code 0));
      rewrite ?Hval; try assumption; try reflexivity; lia.
Qed.

(** X21.  The repeat counter is cleared by a code of interest only.  Let no
    code be the repeat value, let the remembered value be the code at index
    k, and let the counter have reached REPEAT_PAUSE - 1 or more (and be
    below INT_MAX).  A poll that decodes a value which is neither a code of
    interest nor the repeat value invokes nothing and reports nothing
    handled; the poll after it, decoding the repeat value, invokes button
    function k at once. *)
Theorem unmapped_button_keeps_repeat s c1 c2 v k :
  repeat_unmapped code ->
  decodes_to K c1 v -> (forall c, In c code -> v <> ulong c) -> v <> REPEAT ->
  decodes_to K c2 REPEAT ->
  find_code (fun x => lastValue s =? x) code 0 = k -> k < Z.of_nat (length code) ->
  REPEAT_PAUSE - 1 <= repeat s < INT_MAX ->
  fst (polls K code [c1; c2] s) = [(false, []); (true, [k])].
Proof.
  intros Hun H1 Hv Hrep H2 Hk Hlt Hcount.
  destruct (H1 s) as [Hok Hval].
  destruct (onButton_unmapped_state K code (captured c1 s)) as (E & Hl & Hr);
    rewrite ?Hval; try assumption.
  rewrite polls_cons, E. cbn [fst snd].
  set (s1 := resume (snd (decode K (captured c1 s)))) in *.
  assert (lastValue s1 = lastValue s /\ repeat s1 = repeat s) as [Hl1 Hr1].
  { rewrite E in Hl, Hr. cbn [fst snd] in Hl, Hr. rewrite Hl, Hr. split; reflexivity. }
  destruct (onButton_repeat K code c2 s1 Hun H2) as (t & Et & _).
  { rewrite Hr1. unfold INT_MAX, REPEAT_PAUSE in Hcount. lia. }
  rewrite polls_cons, Et, Hr1, Hl1, Hk. cbn [polls fst snd].
  destruct (Z.ltb_spec (repeat s + 1) REPEAT_PAUSE); [lia|].
  destruct (Z.ltb_spec k (Z.of_nat (length code))); [|lia]. reflexivity.
Qed.
End Dispatch2.

(** ** The level cursor of RC5 and RC6 *)

Lemma level_at_next o : 0 <= o -> level_at (o + 1) = other (level_at o).
Proof.
  intros Ho. unfold level_at. rewrite !Z.rem_mod_nonneg by lia.
  rewrite <- Zplus_mod_idemp_l.
  pose proof (Z.mod_pos_bound o 2 ltac:(lia)) as Hb.
  assert (o mod 2 = 0 \/ o mod 2 = 1) as [-> | ->] by lia; reflexivity.
Qed.

Lemma drop_run (l : level) r used tl :
  0 <= used < r ->
  drop (Z.to_nat used) (replicate (Z.to_nat r) l ++ tl)
  = l :: drop (Z.to_nat (used + 1)) (replicate (Z.to_nat r) l ++ tl).
Proof.
  intros H.
  rewrite !drop_app_le by (rewrite length_replicate; lia).
  rewrite !drop_replicate.
  replace (Z.to_nat r - Z.to_nat used)%nat
    with (S (Z.to_nat r - Z.to_nat (used + 1))) by lia.
  reflexivity.
Qed.

Lemma drop_run_all (l : level) r tl :
  0 <= r -> drop (Z.to_nat r) (replicate (Z.to_nat r) l ++ tl) = tl.
Proof.
  intros H. rewrite drop_app_le by (rewrite length_replicate; lia).
  rewrite drop_replicate, Nat.sub_diag. reflexivity.
Qed.

Section Cursor.
Variable K : LRremoteInt.
Variable t1 : Z.

Lemma rc_avail_range l w r : rc_avail K t1 l w = Some r -> r = 1 \/ r = 2 \/ r = 3.
Proof. unfold rc_avail. cbv zeta. repeat case_match; intros [= <-]; auto. Qed.

Lemma getRClevel_inside buf len offset used :
  offset < len ->
  getRClevel K buf len offset used t1 =
  match rc_avail K t1 (level_at offset) (at_ buf offset) with
  | None => (None, offset, used)
  | Some avail =>
      if avail <=? used + 1 then (Some (level_at offset), offset + 1, 0)
      else (Some (level_at offset), offset, used + 1)
  end.
Proof.
  intros H. unfold getRClevel. destruct (Z.leb_spec len offset); [lia|]. reflexivity.
Qed.

Lemma reading_step buf len offset used h hs :
  reading K t1 buf len offset used (h :: hs) ->
  exists o u, getRClevel K buf len offset used t1 = (Some h, o, u) /\
              reading K t1 buf len o u hs.
Proof.
  intros (pre & rs & ws & rest & n & Hbuf & Ho & Hlen & Hc & Hu0 & Hu & Hs).
  destruct rs as [|r rs], ws as [|w ws]; cbn [rc_cells] in Hc; try contradiction.
  - (* the cells are used up: idle from here on *)
    destruct Hu as [-> | (? & ? & ? & _)]; [|discriminate].
    cbn in Hs. destruct n as [|n]; [discriminate|]. cbn in Hs. injection Hs as -> ->.
    exists offset, 0. split.
    + unfold getRClevel. cbn [length] in Hlen.
      destruct (Z.leb_spec len offset); [reflexivity | lia].
    + exists pre, [], [], rest, n. cbn. repeat split; auto.
  - destruct Hc as [Hr Hc].
    assert (0 <= used < r) as Hused.
    { pose proof (rc_avail_range _ _ _ Hr).
      destruct Hu as [-> | (r' & rs' & [= <- <-] & H')]; lia. }
    cbn [length] in Hlen.
    assert (at_ buf offset = w) as Hw
      by (rewrite Hbuf, Ho; cbn [app]; apply at_app_r).
    rewrite getRClevel_inside, Hw, Hr by lia.
    cbn [pulses] in Hs. rewrite drop_run in Hs by exact Hused.
    cbn [app] in Hs. injection Hs as -> ->.
    destruct (Z.leb_spec r (used + 1)).
    + (* the cell is used up *)
      exists (offset + 1), 0. split; [reflexivity|].
      exists (pre ++ [w]), rs, ws, rest, n. rewrite level_at_next by lia.
      repeat split; auto; try lia.
      all: try (rewrite length_app; cbn [length]; lia).
      all: try (rewrite Hbuf, <- app_assoc; reflexivity).
      replace (used + 1) with r by lia. rewrite drop_run_all by lia. reflexivity.
    + exists offset, (used + 1). split; [reflexivity|].
      exists pre, (r :: rs), (w :: ws), rest, n. repeat split; auto; try lia.
      all: try (cbn [length]; lia).
      right. exists r, rs. split; [reflexivity | lia].
Qed.

Lemma reading_more buf len offset used hs :
  reading K t1 buf len offset used hs -> In MARK hs -> offset < len.
Proof.
  intros (pre & rs & ws & rest & n & Hbuf & Ho & Hlen & Hc & Hu0 & Hu & Hs) Hin.
  destruct rs as [|r rs], ws as [|w ws]; cbn [rc_cells] in Hc; try contradiction.
  - cbn [pulses] in Hs. rewrite drop_nil in Hs. cbn in Hs. subst hs.
    apply list_elem_of_In, elem_of_replicate in Hin. destruct Hin. discriminate.
  - cbn [length] in Hlen. lia.
Qed.

Lemma reading_done buf len offset used :
  reading K t1 buf len offset used [] -> len <= offset.
Proof.
  intros (pre & rs & ws & rest & n & Hbuf & Ho & Hlen & Hc & Hu0 & Hu & Hs).
  destruct rs as [|r rs], ws as [|w ws]; cbn [rc_cells] in Hc; try contradiction.
  - cbn [length] in Hlen. lia.
  - destruct Hc as [Hr _]. pose proof (rc_avail_range _ _ _ Hr) as Hrange.
    assert (0 <= used < r) as Hused
      by (destruct Hu as [-> | (r' & rs' & [= <- <-] & H)]; lia).
    exfalso. cbn [pulses] in Hs. rewrite drop_run in Hs by exact Hused. discriminate.
Qed.

Lemma reading_start pre rs ws rest (n : nat) :
  rc_cells K t1 (level_at (Z.of_nat (length pre))) rs ws ->
  reading K t1 (pre ++ ws ++ rest) (Z.of_nat (length pre) + Z.of_nat (length ws))
    (Z.of_nat (length pre)) 0
    (pulses rs (level_at (Z.of_nat (length pre))) ++ replicate n SPACE).
Proof.
  intros Hc. exists pre, rs, ws, rest, n. repeat split; auto. lia.
Qed.
End Cursor.

Section Manchester.
Variable K : LRremoteInt.

Lemma reading_bounds t1 buf len offset used hs :
  reading K t1 buf len offset used hs -> 0 <= offset /\ 0 <= used <= 2.
Proof.
  intros (pre & rs & ws & rest & n & Hbuf & Ho & Hlen & Hc & Hu0 & Hu & Hs).
  split; [lia|]. destruct Hu as [-> | (r & rs' & -> & Hr)]; [lia|].
  destruct ws as [|w ws]; cbn [rc_cells] in Hc; [contradiction|].
  destruct Hc as [Hc _]. apply rc_avail_range in Hc. lia.
Qed.

Lemma rc5_loop buf len : forall payload fuel offset used nbits data,
  reading K (RC5_T1 K) buf len offset used (flat_map rc5_halves payload) ->
  rc5_bits K buf len fuel offset used nbits data <> Out_of_fuel ->
  rc5_bits K buf len fuel offset used nbits data =
  Falls_out (nbits + Z.of_nat (length payload))
    (fold_left (fun d (b : bool) => if b then shl1 d else shl0 d) payload data).
Proof.
  induction payload as [|b p IH]; intros fuel offset used nbits data Hr Hf.
  - apply reading_done in Hr. cbn [length fold_left].
    destruct fuel; cbn [rc5_bits]; (destruct (Z.ltb_spec offset len); [lia|]);
      f_equal; lia.
  - assert (offset < len) as Hlt.
    { apply (reading_more _ _ _ _ _ _ _ Hr). destruct b; cbn; auto. }
    destruct fuel as [|fuel]; cbn [rc5_bits] in Hf |- *;
      (destruct (Z.ltb_spec offset len); [|lia]); [congruence|].
    cbn [flat_map] in Hr.
    destruct b; cbn [rc5_halves app] in Hr;
      destruct (reading_step _ _ _ _ _ _ _ _ Hr) as (o1 & u1 & E1 & Hr1);
      destruct (reading_step _ _ _ _ _ _ _ _ Hr1) as (o2 & u2 & E2 & Hr2);
      rewrite E1 in Hf |- *; rewrite E2 in Hf |- *;
      rewrite (IH _ _ _ _ _ Hr2 Hf); cbn [length fold_left]; f_equal; lia.
Qed.

(** X22.  decodeRC5, with getRClevel, on a Manchester-coded frame.  The
    cells behind the gap are taken by getRClevel for runs of one to three
    half-bits of alternating level, the first active; the runs, followed by
    the idle half-bits lost in the closing gap, spell an active, an idle
    and an active half-bit (what is left of the start bits) and then, for
    each payload bit, idle-active for 1 and active-idle for 0.  With an
    entry count that covers exactly these cells and is at least
    MIN_RC5_SAMPLES + 2, decodeRC5 succeeds with tag RC5, one bit per
    payload bit, and the payload read most significant bit first, modulo
    2^32. *)
Theorem decodeRC5_frame s gap rs ws rest (n : nat) payload :
  rawbuf s = gap :: ws ++ rest -> rawlen s = 1 + Z.of_nat (length ws) ->
  MIN_RC5_SAMPLES K + 2 <= rawlen s ->
  rc_cells K (RC5_T1 K) MARK rs ws ->
  pulses rs MARK ++ replicate n SPACE
    = MARK :: SPACE :: MARK :: flat_map rc5_halves payload ->
  decodeRC5 K s =
    (true, set_decode_type RC5
             (set_value (msb_first payload mod 2 ^ 32)
                (set_bits (Z.of_nat (length payload)) s))).
Proof.
  intros Hbuf Hlen Hmin Hc Hs.
  pose proof (reading_start K (RC5_T1 K) [gap] rs ws rest n Hc) as Hr.
  cbn [length app] in Hr. change (Z.of_nat 1) with 1 in Hr.
  change (level_at 1) with MARK in Hr. rewrite Hs, <- Hbuf, <- Hlen in Hr.
  destruct (reading_step _ _ _ _ _ _ _ _ Hr) as (o1 & u1 & E1 & Hr1).
  destruct (reading_step _ _ _ _ _ _ _ _ Hr1) as (o2 & u2 & E2 & Hr2).
  destruct (reading_step _ _ _ _ _ _ _ _ Hr2) as (o3 & u3 & E3 & Hr3).
  destruct (reading_bounds _ _ _ _ _ _ Hr3) as [Ho3 Hu3].
  unfold decodeRC5. cbv zeta.
  destruct (Z.ltb_spec (rawlen s) (MIN_RC5_SAMPLES K + 2)); [lia|].
  rewrite E1. cbn [olevel_eqb level_eqb negb]. rewrite E2. cbn [olevel_eqb level_eqb negb].
  rewrite E3. cbn [olevel_eqb level_eqb negb].
  rewrite (rc5_loop _ _ payload _ _ _ _ _ Hr3)
    by (apply rc5_bits_fuel; lia).
  rewrite ulong_data, Z.add_0_l. reflexivity.
Qed.

Lemma rc6_halves_mark nbits b : In MARK (rc6_halves nbits b).
Proof. unfold rc6_halves. destruct (nbits =? 3), b; cbn; auto. Qed.

Lemma rc6_loop buf len : forall payload fuel offset used nbits data,
  reading K (RC6_T1 K) buf len offset used (rc6_stream nbits payload) ->
  rc6_bits K buf len fuel offset used nbits data <> Out_of_fuel ->
  rc6_bits K buf len fuel offset used nbits data =
  Falls_out (nbits + Z.of_nat (length payload))
    (fold_left (fun d (b : bool) => if b then shl1 d else shl0 d) payload data).
Proof.
  induction payload as [|b p IH]; intros fuel offset used nbits data Hr Hf.
  - apply reading_done in Hr. cbn [length fold_left].
    destruct fuel; cbn [rc6_bits]; (destruct (Z.ltb_spec offset len); [lia|]);
      f_equal; lia.
  - assert (offset < len) as Hlt.
    { apply (reading_more _ _ _ _ _ _ _ Hr). cbn [rc6_stream].
      apply in_or_app. left. apply rc6_halves_mark. }
    destruct fuel as [|fuel]; cbn [rc6_bits] in Hf |- *;
      (destruct (Z.ltb_spec offset len); [|lia]); [congruence|].
    cbn [rc6_stream] in Hr. unfold rc6_halves in Hr.
    destruct (nbits =? 3).
    + destruct b; cbn [app] in Hr;
        destruct (reading_step _ _ _ _ _ _ _ _ Hr) as (o1 & u1 & E1 & Hr1);
        destruct (reading_step _ _ _ _ _ _ _ _ Hr1) as (o2 & u2 & E2 & Hr2);
        destruct (reading_step _ _ _ _ _ _ _ _ Hr2) as (o3 & u3 & E3 & Hr3);
        destruct (reading_step _ _ _ _ _ _ _ _ Hr3) as (o4 & u4 & E4 & Hr4);
        rewrite E1 in Hf |- *; rewrite E2 in Hf |- *;
        cbn [olevel_eqb level_eqb negb] in Hf |- *;
        rewrite E3 in Hf |- *; rewrite E4 in Hf |- *;
        cbn [olevel_eqb level_eqb negb] in Hf |- *;
        rewrite (IH _ _ _ _ _ Hr4 Hf); cbn [length fold_left]; f_equal; lia.
    + destruct b; cbn [app] in Hr;
        destruct (reading_step _ _ _ _ _ _ _ _ Hr) as (o1 & u1 & E1 & Hr1);
        destruct (reading_step _ _ _ _ _ _ _ _ Hr1) as (o2 & u2 & E2 & Hr2);
        rewrite E1 in Hf |- *; cbn [negb] in Hf |- *; rewrite E2 in Hf |- *;
        cbn [negb] in Hf |- *;
        rewrite (IH _ _ _ _ _ Hr2 Hf); cbn [length fold_left]; f_equal; lia.
Qed.

(** X23.  decodeRC6, with getRClevel, on a Manchester-coded frame.  Behind
    the gap come the header mark and space, inside their bands, and then
    cells that getRClevel takes for runs of one to three half-bits of
    alternating level, the first active; the runs, followed by the idle
    half-bits lost in the closing gap, spell the start bit (active, idle)
    and then, for each payload bit, active-idle for 1 and idle-active for
    0, each half doubled in the fourth bit.  With an entry count that
    covers exactly these cells and is at least MIN_RC6_SAMPLES, decodeRC6
    succeeds with tag RC6, one bit per payload bit, and the payload read
    most significant bit first, modulo 2^32. *)
Theorem decodeRC6_frame s gap hm hs rs ws rest (n : nat) payload :
  rawbuf s = gap :: hm :: hs :: ws ++ rest -> rawlen s = 3 + Z.of_nat (length ws) ->
  MIN_RC6_SAMPLES K <= rawlen s ->
  MATCH_MARK K hm (RC6_HDR_MARK K) = true ->
  MATCH_SPACE K hs (RC6_HDR_SPACE K) = true ->
  rc_cells K (RC6_T1 K) MARK rs ws ->
  pulses rs MARK ++ replicate n SPACE = MARK :: SPACE :: rc6_stream 0 payload ->
  decodeRC6 K s =
    (true, set_decode_type RC6
             (set_value (msb_first payload mod 2 ^ 32)
                (set_bits (Z.of_nat (length payload)) s))).
Proof.
  intros Hbuf Hlen Hmin Hhm Hhs Hc Hs.
  pose proof (reading_start K (RC6_T1 K) [gap; hm; hs] rs ws rest n Hc) as Hr.
  cbn [length app] in Hr. change (Z.of_nat 3) with (1 + 1 + 1) in Hr.
  change (level_at (1 + 1 + 1)) with MARK in Hr. rewrite Hs, <- Hbuf in Hr.
  replace (1 + 1 + 1 + Z.of_nat (length ws)) with (rawlen s) in Hr by lia.
  destruct (reading_step _ _ _ _ _ _ _ _ Hr) as (o1 & u1 & E1 & Hr1).
  destruct (reading_step _ _ _ _ _ _ _ _ Hr1) as (o2 & u2 & E2 & Hr2).
  destruct (reading_bounds _ _ _ _ _ _ Hr2) as [Ho2 Hu2].
  unfold decodeRC6. cbv zeta.
  destruct (Z.ltb_spec (rawlen s) (MIN_RC6_SAMPLES K)); [lia|].
  rewrite Hbuf at 1. change (at_ (gap :: hm :: hs :: ?l) 1) with hm.
  rewrite Hhm. cbn [negb].
  rewrite Hbuf at 1. change (at_ (gap :: hm :: hs :: ?l) (1 + 1)) with hs.
  rewrite Hhs. cbn [negb].
  rewrite E1. cbn [olevel_eqb level_eqb negb]. rewrite E2. cbn [olevel_eqb level_eqb negb].
  rewrite (rc6_loop _ _ payload _ _ _ _ _ Hr2)
    by (apply rc6_bits_fuel; lia).
  rewrite ulong_data, Z.add_0_l. reflexivity.
Qed.
End Manchester.

(** ** The properties above at concrete inputs *)

Lemma refInt_gap : 1 <= GAP_TICKS refInt < 2 ^ 16 - 1.
Proof. vm_compute. split; [discriminate | reflexivity]. Qed.

Lemma fresh_waiting : waiting refInt fresh.
Proof. repeat split; vm_compute; discriminate. Qed.



Lemma sampler_records_transmission_witness :
  rcvstate (run refInt (transmission refInt 100 [180; 45; 11]) fresh) = STATE_STOP /\
  rawlen (run refInt (transmission refInt 100 [180; 45; 11]) fresh) = 1 + Z.of_nat 3 /\
  rawbuf (run refInt (transmission refInt 100 [180; 45; 11]) fresh)
    = (Z.min (timer fresh + 100) (GAP_TICKS refInt) + 1)
        :: [180; 45; 11] ++ drop 4 (rawbuf fresh).
Proof.
  apply (sampler_records_transmission refInt refInt_gap fresh 100 [180; 45; 11]).
  - exact fresh_waiting.
  - lia.
  - vm_compute. discriminate.
  - vm_compute. repeat split; discriminate.
  - reflexivity.
  - vm_compute. reflexivity.
Defined.

Lemma short_stretches_start_nothing_witness :
  run refInt (bursts [(50, 3); (20, 7)]) fresh = fresh.
Proof.
  apply (short_stretches_start_nothing refInt refInt_gap [(50, 3); (20, 7)] fresh).
  - reflexivity.
  - reflexivity.
  - vm_compute. reflexivity.
  - repeat constructor; vm_compute; try discriminate; reflexivity.
Defined.

Lemma stopped_frame_kept_witness :
  rcvstate (run refInt [MARK; SPACE; MARK] blip) = STATE_STOP /\
  rawbuf (run refInt [MARK; SPACE; MARK] blip) = rawbuf blip /\
  rawlen (run refInt [MARK; SPACE; MARK] blip) = rawlen blip.
Proof.
  apply (stopped_frame_kept refInt [MARK; SPACE; MARK] blip). vm_compute. reflexivity.
Defined.

Lemma long_train_fits : all_fit refInt long_train MARK.
Proof. vm_compute. repeat split; discriminate. Qed.

Lemma long_transmission_cut_witness :
  let s' := run refInt (replicate (Z.to_nat 100) SPACE ++ pulses long_train MARK
                        ++ SPACE :: MARK :: replicate 7 SPACE) fresh in
  rcvstate s' = STATE_STOP /\ rawlen s' = RAWBUF /\
  rawbuf s' = (Z.min (timer fresh + 100) (GAP_TICKS refInt) + 1) :: long_train.
Proof.
  apply (long_transmission_cut refInt refInt_gap fresh 100 long_train MARK
           (replicate 7 SPACE)).
  - exact fresh_waiting.
  - lia.
  - vm_compute. discriminate.
  - exact long_train_fits.
  - reflexivity.
Defined.

Lemma decodeSAMSUNG_frame_witness :
  decodeSAMSUNG refInt samsung_frame =
    (true, set_decode_type SAMSUNG
             (set_value (msb_first payload_ex mod 2 ^ 32)
                (set_bits (SAMSUNG_BITS refInt) samsung_frame))).
Proof.
  apply (decodeSAMSUNG_frame refInt samsung_frame 100 100 100 12 10 32 payload_ex
           (12 :: replicate 32 0)); try reflexivity.
  all: vm_compute; discriminate.
Defined.

Lemma decodeLG_frame_witness :
  decodeLG refInt lg_frame =
    (true, set_decode_type LG
             (set_value (msb_first lg_payload mod 2 ^ 32)
                (set_bits (LG_BITS refInt) lg_frame))).
Proof.
  apply (decodeLG_frame refInt lg_frame 100 160 80 12 10 32 lg_payload 12
           (replicate 40 0)); try reflexivity.
  all: vm_compute; discriminate.
Defined.

Lemma decodeJVC_frame_witness :
  decodeJVC refInt jvc_frame =
    (true, set_decode_type JVC
             (set_value (msb_first jvc_payload mod 2 ^ 32)
                (set_bits (JVC_BITS refInt) jvc_frame))).
Proof.
  apply (decodeJVC_frame refInt jvc_frame 100 160 80 12 10 32 jvc_payload 12
           (replicate 64 0)); try reflexivity.
  all: vm_compute; discriminate.
Defined.

Lemma decodePanasonic_frame_witness :
  decodePanasonic refInt panasonic_frame =
    (true, set_bits (PANASONIC_BITS refInt) (set_decode_type PANASONIC
             (set_panasonicAddress
                ((msb_first panasonic_payload mod 2 ^ 64) / 2 ^ 32 mod 2 ^ 16)
                (set_value (msb_first panasonic_payload mod 2 ^ 32) panasonic_frame)))).
Proof.
  apply (decodePanasonic_frame refInt panasonic_frame 100 72 37 12 6 22
           panasonic_payload [12]); reflexivity.
Defined.

Lemma decodeSony_frame_witness :
  decodeSony refInt sony_frame =
    (true, set_decode_type SONY
             (set_value (msb_first sony_payload mod 2 ^ 32)
                (set_bits (Z.of_nat (length sony_payload)) sony_frame))).
Proof.
  apply (decodeSony_frame refInt sony_frame 600 50 10 14 26 sony_payload
           (replicate 74 0)); try reflexivity.
  all: vm_compute; try lia; try discriminate; split; discriminate.
Defined.

Lemma decodeSanyo_frame_witness :
  decodeSanyo refInt sanyo_frame =
    (true, set_decode_type SANYO
             (set_value (msb_first sony_payload mod 2 ^ 32)
                (set_bits (Z.of_nat (length sony_payload) + 1) sanyo_frame))).
Proof.
  apply (decodeSanyo_frame refInt sanyo_frame 900 70 70 17 16 50 sony_payload
           (replicate 73 0)); try reflexivity.
  all: vm_compute; try lia; try discriminate; split; discriminate.
Defined.

Lemma decodeMitsubishi_frame_witness :
  decodeMitsubishi refInt mitsubishi_frame =
    (true, set_decode_type MITSUBISHI
             (set_value (msb_first mitsubishi_payload mod 2 ^ 32)
                (set_bits (Z.of_nat (length mitsubishi_payload)) mitsubishi_frame))).
Proof.
  apply (decodeMitsubishi_frame refInt mitsubishi_frame 100 9 16 40 6 mitsubishi_payload
           (replicate 66 0)); try reflexivity.
  all: vm_compute; try discriminate; split; discriminate.
Defined.

Lemma decodeRC5_frame_witness :
  decodeRC5 refInt rc5_frame =
    (true, set_decode_type RC5
             (set_value (msb_first rc5_payload mod 2 ^ 32)
                (set_bits (Z.of_nat (length rc5_payload)) rc5_frame))).
Proof.
  apply (decodeRC5_frame refInt rc5_frame 100 rc5_runs rc5_cells (replicate 80 0) 1
           rc5_payload); try reflexivity.
  all: vm_compute; try discriminate; repeat split.
Defined.

Lemma decodeRC6_frame_witness :
  decodeRC6 refInt rc6_frame =
    (true, set_decode_type RC6
             (set_value (msb_first rc6_payload mod 2 ^ 32)
                (set_bits (Z.of_nat (length rc6_payload)) rc6_frame))).
Proof.
  apply (decodeRC6_frame refInt rc6_frame 100 53 16 rc6_runs rc6_cells (replicate 60 0) 1
           rc6_payload); try reflexivity.
  all: vm_compute; try discriminate; repeat split.
Defined.

Lemma decode_again_witness :
  decode refInt (snd (decode refInt nec_closed)) = decode refInt nec_closed.
Proof. apply (decode_again refInt nec_closed). vm_compute. reflexivity. Defined.

Lemma decode_reports_witness :
  In (decode_type (snd (decode refInt even6))) decoded_tags /\
  decode_type (snd (decode refInt even6)) <> DISH /\
  decode_type (snd (decode refInt even6)) <> SHARP /\
  0 <= value (snd (decode refInt even6)) < 2 ^ 32.
Proof. apply (decode_reports refInt even6). vm_compute. reflexivity. Defined.

Lemma decodeHash_relative_witness :
  fst (decodeHash six_cells) = true /\ fst (decodeHash six_cells_tripled) = true /\
  value (snd (decodeHash six_cells_tripled)) = value (snd (decodeHash six_cells)).
Proof.
  apply (decodeHash_relative 3 six_cells six_cells_tripled).
  - lia.
  - vm_compute. discriminate.
  - reflexivity.
  - intros i Hi. change (rawlen six_cells) with 6 in Hi.
    assert (i = 1 \/ i = 2 \/ i = 3 \/ i = 4 \/ i = 5) as [-> | [-> | [-> | [-> | ->]]]]
      by lia; reflexivity.
Defined.

Lemma repeat_button_overrides_pause_witness :
  onButton refInt code_with_repeat (captured repeat_capture fresh) =
    (true,
     resume (set_lastValue (-1)
               (set_repeat 0 (snd (decode refInt (captured repeat_capture fresh))))),
     [1]).
Proof.
  destruct (repeat_button_overrides_pause refInt code_with_repeat
              (captured repeat_capture fresh)) as (k & Hk & Hn & Hfirst & E).
  - repeat constructor; vm_compute; try discriminate; reflexivity.
  - simpl. auto.
  - reflexivity.
  - reflexivity.
  - change (Z.of_nat (length code_with_repeat)) with 4 in Hk.
    assert (k = 0 \/ k = 1 \/ k = 2 \/ k = 3) as [-> | [-> | [-> | ->]]] by lia.
    + discriminate Hn.
    + exact E.
    + discriminate Hn.
    + exfalso. apply (Hfirst 1); [lia | reflexivity].
Defined.

Lemma button_capture_decodes : decodes_to refInt button_capture 0x20DF10EF.
Proof. intros s. split; reflexivity. Qed.

Lemma unmapped_button_keeps_repeat_witness :
  fst (polls refInt code_first [button_capture; repeat_capture] first_held)
  = [(false, []); (true, [0])].
Proof.
  apply (unmapped_button_keeps_repeat refInt code_first first_held
           button_capture repeat_capture 0x20DF10EF 0).
  - intros x [<- | []]. vm_compute. discriminate.
  - exact button_capture_decodes.
  - intros c [<- | []]. vm_compute. discriminate.
  - vm_compute. discriminate.
  - exact repeat_capture_decodes.
  - reflexivity.
  - reflexivity.
  - vm_compute. split; [discriminate | reflexivity].
Defined.

Lemma nec_timing_ex : nec_timing refInt 180 90 11 11 33.
Proof. repeat split. Qed.

Lemma nec_pulses_ex_fit : all_fit refInt nec_pulses_ex MARK.
Proof. vm_compute. repeat split; discriminate. Qed.

Lemma nec_transmission_decodes_witness :
  let s' := run refInt (transmission refInt 100 nec_pulses_ex) fresh in
  fst (decode refInt s') = true /\
  decode_type (snd (decode refInt s')) = NEC /\
  bits (snd (decode refInt s')) = NEC_BITS refInt /\
  value (snd (decode refInt s')) = msb_first payload_ex mod 2 ^ 32.
Proof.
  apply (nec_transmission_decodes refInt refInt_gap fresh 100 180 90 11 11 33 payload_ex).
  - exact fresh_waiting.
  - lia.
  - vm_compute. discriminate.
  - exact nec_timing_ex.
  - exact nec_pulses_ex_fit.
  - reflexivity.
  - vm_compute. split; discriminate.
Defined.

Lemma nec_press_invokes_button_witness :
  let r := onButton refInt code_ex
             (run refInt (transmission refInt 100 nec_pulses_ex) fresh) in
  fst (fst r) = true /\ snd r = [1] /\
  lastValue (snd (fst r)) = long (msb_first payload_ex) /\ repeat (snd (fst r)) = 0 /\
  rcvstate (snd (fst r)) = STATE_IDLE /\ rawlen (snd (fst r)) = 0.
Proof.
  apply (nec_press_invokes_button refInt refInt_gap code_ex fresh 100 180 90 11 11 33
           payload_ex 1).
  - exact fresh_waiting.
  - lia.
  - vm_compute. discriminate.
  - exact nec_timing_ex.
  - exact nec_pulses_ex_fit.
  - reflexivity.
  - vm_compute. split; discriminate.
  - reflexivity.
  - reflexivity.
Defined.

